(** * eppy: the EPP client's framing and exchange engine

    A shallow embedding of [eppy/client.py] (class [EppClient]) and the
    properties of its wire framing, single exchange and batch exchange.

    Layers, bottom up:
    - byte strings and the [struct] codec of the 4-byte big-endian header;
    - the socket layer: a store of sockets, each with the bytes its peer
      will deliver, scripted write outcomes, and a trace of the calls made;
    - the client: a record for the object's attributes and a state and
      exception monad in which the methods are written. *)

From Stdlib Require Import ZArith Lia Bool List.
From Stdlib.Strings Require Import String Byte.
From stdpp Require Import base tactics option list.
Import ListNotations.

Local Open Scope Z_scope.

(* ===================================================================== *)
(** ** Byte strings and [struct] *)
(* ===================================================================== *)

(** A Python 2 [str] is a byte string. *)
Definition bytes := list byte.

Definition byte_of_Z (z : Z) : byte :=
  match Byte.of_N (Z.to_N (Z.land z 255)) with
  | Some b => b
  | None => x00
  end.

Definition Z_of_byte (b : byte) : Z := Z.of_N (Byte.to_N b).

(** The four big-endian bytes of [n], whatever [n] is. *)
Definition be32 (n : Z) : bytes :=
  [ byte_of_Z (Z.shiftr n 24); byte_of_Z (Z.shiftr n 16);
    byte_of_Z (Z.shiftr n 8); byte_of_Z n ].

(** [struct.pack(">I", n)]: [struct.error] outside the unsigned 32-bit
    range. *)
Definition struct_pack_I (n : Z) : option bytes :=
  if (0 <=? n) && (n <? 2 ^ 32) then Some (be32 n) else None.

(** [struct.unpack(">I", s)[0]]: [struct.error] unless [s] has exactly
    four bytes. *)
Definition struct_unpack_I (s : bytes) : option Z :=
  match s with
  | [b3; b2; b1; b0] =>
      Some (Z.lor (Z.shiftl (Z_of_byte b3) 24)
             (Z.lor (Z.shiftl (Z_of_byte b2) 16)
               (Z.lor (Z.shiftl (Z_of_byte b1) 8) (Z_of_byte b0))))
  | _ => None
  end.

(** [len(s)] of a byte string, as a Python integer. *)
Definition len (s : bytes) : Z := Z.of_nat (length s).

(** The frame of a payload as it travels: header, then payload. *)
Definition frame (p : bytes) : bytes := be32 (4 + len p) ++ p.

(* ===================================================================== *)
(** ** The socket layer *)
(* ===================================================================== *)

(** Sockets live in a store and are named by their index in it. *)
Definition handle := nat.

(** What the peer does next on the receiving side of a socket: a segment
    of bytes arrives, or the connection is reset.  An exhausted queue
    means that the peer has shut the connection down in an orderly way. *)
Inductive recv_event :=
| Segment (bs : bytes)
| ConnReset.

(** The outcome scripted for a write-all call: every byte goes out, or
    the call fails after [k] bytes went out. *)
Inductive send_outcome :=
| SendAll
| SendFails (k : nat).

(** A connection as the socket objects of the program see it.  Up to
    two objects hold it: the plain socket that opened it, until that
    object is closed or freed ([raw_closed]), and a TLS wrapper made
    around the plain socket, while it lives ([wrapped]).  The
    connection is closed on this side ([closed]) once no object holds
    it. *)
Record socket_state := {
  connected : bool;
  closed : bool;
  raw_closed : bool;                (* the plain socket has let go of it *)
  wrapped : bool;                   (* a TLS wrapper holds the connection *)
  peername : string * Z;
  inbox : list recv_event;
  send_script : list send_outcome;
  wire : bytes                      (* every byte that left the socket *)
}.

(** The next connection attempt, as the network will answer it. *)
Record peer := {
  accepts : bool;                   (* TCP connect succeeds *)
  tls_ok : bool;                    (* the TLS handshake succeeds *)
  cert_matches : bool;              (* the certificate names the host *)
  peer_addr : string * Z;           (* the address it is reached at *)
  peer_inbox : list recv_event;
  peer_sends : list send_outcome
}.

Inductive sock_err :=
| EBADF            (* the socket was closed on this side *)
| ENOTCONN
| ECONNREFUSED
| ECONNRESET
| EPIPE
| NegativeBufsize  (* recv with a negative count *)
| PortOutOfRange.  (* connect to a port outside 0..65535 *)

(** Calls made on sockets, in program order. *)
Inductive io_event :=
| EvConnect (h : handle) (host : string) (port : Z)
| EvHandshake (h : handle)
| EvGetpeername (h : handle)
| EvRecv (h : handle) (n : Z)
| EvSend (h : handle) (data : bytes) (ok : bool)
| EvClose (h : handle).

(** Records handed to the logger. *)
Inductive log_record :=
| LogHostnameMismatch
| LogSend (peer : string * Z) (buf : bytes)
| LogRecv (peer : string * Z) (r : bytes)
| LogFailedSend (sent ndocs : nat)
| LogFailedRecv (recved sent : nat).

Record World := {
  socks : list socket_state;
  net : list peer;
  trace : list io_event;
  log : list log_record
}.

Definition emit (e : io_event) (w : World) : World :=
  {| socks := socks w; net := net w; trace := trace w ++ [e]; log := log w |}.

Definition log_append (r : log_record) (w : World) : World :=
  {| socks := socks w; net := net w; trace := trace w; log := log w ++ [r] |}.

Definition set_sock (h : handle) (s : socket_state) (w : World) : World :=
  {| socks := <[h := s]> (socks w); net := net w; trace := trace w;
     log := log w |}.

(** Up to [n] bytes from the head of the queue; [None] is a reset. Empty
    segments carry nothing and are skipped. *)
Fixpoint deliver (n : nat) (q : list recv_event)
  : option bytes * list recv_event :=
  match q with
  | [] => (Some [], [])
  | ConnReset :: q' => (None, q')
  | Segment [] :: q' => deliver n q'
  | Segment bs :: q' =>
      (Some (take n bs),
       match drop n bs with
       | [] => q'
       | rest => Segment rest :: q'
       end)
  end.

Definition with_inbox (q : list recv_event) (s : socket_state) :=
  {| connected := connected s; closed := closed s;
     raw_closed := raw_closed s; wrapped := wrapped s;
     peername := peername s;
     inbox := q; send_script := send_script s; wire := wire s |}.

Definition with_sent (k : list send_outcome) (out : bytes) (s : socket_state) :=
  {| connected := connected s; closed := closed s;
     raw_closed := raw_closed s; wrapped := wrapped s;
     peername := peername s;
     inbox := inbox s; send_script := k; wire := wire s ++ out |}.

(** The plain socket lets go of the connection: it is closed unless a
    TLS wrapper holds it. *)
Definition drop_raw (s : socket_state) :=
  {| connected := connected s; closed := closed s || negb (wrapped s);
     raw_closed := true; wrapped := wrapped s;
     peername := peername s;
     inbox := inbox s; send_script := send_script s; wire := wire s |}.

(** The TLS wrapper lets go of the connection: it is closed unless the
    plain socket still holds it. *)
Definition drop_wrapper (s : socket_state) :=
  {| connected := connected s; closed := closed s || raw_closed s;
     raw_closed := raw_closed s; wrapped := false;
     peername := peername s;
     inbox := inbox s; send_script := send_script s; wire := wire s |}.

Definition with_wrapped (s : socket_state) :=
  {| connected := connected s; closed := closed s;
     raw_closed := raw_closed s; wrapped := true;
     peername := peername s;
     inbox := inbox s; send_script := send_script s; wire := wire s |}.

(** [sock.recv(n)] and [sslsock.read(n)]: one call, at most [n] bytes,
    the empty string when the peer has shut down (or when [n] is 0). *)
Definition sock_recv (h : handle) (n : Z) (w : World)
  : (sock_err + bytes) * World :=
  let w := emit (EvRecv h n) w in
  match socks w !! h with
  | None => (inl EBADF, w)
  | Some s =>
      if closed s then (inl EBADF, w)
      else if negb (connected s) then (inl ENOTCONN, w)
      else if n <? 0 then (inl NegativeBufsize, w)
      else if n =? 0 then (inr [], w)
      else
        match deliver (Z.to_nat n) (inbox s) with
        | (Some data, q) => (inr data, set_sock h (with_inbox q s) w)
        | (None, q) => (inl ECONNRESET, set_sock h (with_inbox q s) w)
        end
  end.

(** [sock.sendall(data)] and [sslsock.write(data)]: all of [data] goes
    out or the call raises. *)
Definition sock_sendall (h : handle) (data : bytes) (w : World)
  : (sock_err + unit) * World :=
  match socks w !! h with
  | None => (inl EBADF, emit (EvSend h data false) w)
  | Some s =>
      if closed s then (inl EBADF, emit (EvSend h data false) w)
      else if negb (connected s) then (inl ENOTCONN, emit (EvSend h data false) w)
      else
        match send_script s with
        | SendFails k :: script =>
            (inl EPIPE,
             emit (EvSend h data false)
               (set_sock h (with_sent script (take k data) s) w))
        | SendAll :: script =>
            (inr tt, emit (EvSend h data true)
                       (set_sock h (with_sent script data s) w))
        | [] =>
            (inr tt, emit (EvSend h data true)
                       (set_sock h (with_sent [] data s) w))
        end
  end.

(** [sock.getpeername()]. *)
Definition sock_getpeername (h : handle) (w : World)
  : (sock_err + string * Z) * World :=
  let w := emit (EvGetpeername h) w in
  match socks w !! h with
  | None => (inl EBADF, w)
  | Some s =>
      if closed s then (inl EBADF, w)
      else if negb (connected s) then (inl ENOTCONN, w)
      else (inr (peername s), w)
  end.

(** [close()] on the plain socket object: never raises, also on a
    socket closed before.  The plain socket lets go of the connection,
    which closes it unless a TLS wrapper has taken the connection over:
    the wrapper is a socket object of its own that keeps the connection,
    which then stays open and usable through the wrapper. *)
Definition sock_close (h : handle) (w : World) : World :=
  let w := emit (EvClose h) w in
  match socks w !! h with
  | None => w
  | Some s => set_sock h (drop_raw s) w
  end.

(** [ssl.wrap_socket(sock, ...)] after a handshake that succeeded: from
    now on the wrapper holds the connection. *)
Definition sock_wrap (h : handle) (w : World) : World :=
  match socks w !! h with
  | None => w
  | Some s => set_sock h (with_wrapped s) w
  end.

(** The last reference to a socket object is gone and the runtime frees
    it: the object lets go of its connection.  No call of the program
    is involved, so nothing goes to the trace.  For the plain socket
    the effect on the connection is that of [close()]; a wrapper that
    does not hold the connection has nothing to let go of. *)
Definition sock_free_plain (h : handle) (w : World) : World :=
  match socks w !! h with
  | None => w
  | Some s => set_sock h (drop_raw s) w
  end.

Definition sock_free_wrapper (h : handle) (w : World) : World :=
  match socks w !! h with
  | None => w
  | Some s => if wrapped s then set_sock h (drop_wrapper s) w else w
  end.

(** [socket.socket(AF_INET, SOCK_STREAM)]: a new, unconnected socket. *)
Definition sock_new (w : World) : handle * World :=
  (length (socks w),
   {| socks := socks w ++
        [{| connected := false; closed := false; raw_closed := false;
            wrapped := false; peername := (EmptyString, 0);
            inbox := []; send_script := []; wire := [] |}];
      net := net w; trace := trace w; log := log w |}).

(** [sock.connect((host, port))]: a port outside 0..65535 is refused
    before the network is asked; else the network answers with the next
    scripted peer; none left means nobody listens.  The peer name of the
    connection is the address at which the peer was reached, which need
    not be the host string given. *)
Definition sock_connect (h : handle) (host : string) (port : Z) (w : World)
  : (sock_err + peer) * World :=
  let w := emit (EvConnect h host port) w in
  if negb ((0 <=? port) && (port <=? 65535)) then (inl PortOutOfRange, w)
  else
    match net w with
    | [] => (inl ECONNREFUSED, w)
    | p :: rest =>
        let w := {| socks := socks w; net := rest; trace := trace w;
                    log := log w |} in
        if accepts p then
          (inr p,
           set_sock h {| connected := true; closed := false;
                         raw_closed := false; wrapped := false;
                         peername := peer_addr p; inbox := peer_inbox p;
                         send_script := peer_sends p; wire := [] |} w)
        else (inl ECONNREFUSED, w)
    end.

(** A socket call returned rather than raised. *)
Definition returned {A : Type} (r : sock_err + A) : bool :=
  match r with
  | inr _ => true
  | inl _ => false
  end.

Definition is_closed (h : handle) (w : World) : bool :=
  match socks w !! h with
  | Some s => closed s
  | None => false
  end.

Definition is_wrapped (h : handle) (w : World) : bool :=
  match socks w !! h with
  | Some s => wrapped s
  | None => false
  end.

(* ===================================================================== *)
(** ** Collaborators: the document classes *)
(* ===================================================================== *)

(** Modelled from the spec: the module [eppy.doc] (classes [EppDoc],
    [EppResponse], [EppHello], [EppLoginCommand], [EppLogoutCommand]) is
    not part of the sources read here.  The client only needs that a
    document renders to a byte payload ([str(doc)]), that a response
    payload parses into a response object with a boolean success
    indicator ([EppResponse.from_xml], [r.success]), and the hook
    [doc.normalize_response(resp)].  [doc_len] is what [len(doc)]
    evaluates to on a document object, [None] when the object has no
    length. *)
Class Collaborators := {
  EppDoc : Type;
  EppResponse : Type;
  doc_str : EppDoc -> bytes;
  doc_len : EppDoc -> option Z;
  normalize_response : EppDoc -> EppResponse -> EppResponse;
  success : EppResponse -> bool;
  from_xml : bytes -> option EppResponse;
  EppHello : EppDoc;
  EppLoginCommand : bytes -> bytes -> EppDoc;   (* clID, pw *)
  EppLogoutCommand : EppDoc
}.

Section Client.

Context `{Collaborators}.

(** What callers put in a list of documents: byte strings already
    rendered, or document objects. *)
Inductive pydoc :=
| DocStr (s : bytes)
| DocObj (d : EppDoc).

(** [str(doc)] *)
Definition py_str (d : pydoc) : bytes :=
  match d with
  | DocStr s => s
  | DocObj d => doc_str d
  end.

(** Exceptions the client raises or lets through. *)
Inductive exn :=
| IOError_NoSizeHeader                 (* "No size header read" *)
| IOError_NoData (expected : Z)        (* "No data read (expected %d bytes)" *)
| SocketError (e : sock_err)           (* the platform's socket.error *)
| SSLError
| StructError
| TypeError
| ValueError
| OverflowError
| AttributeError
| XmlParseError                        (* from_xml on a bad payload *)
| EppLoginError (r : EppResponse)
| EppConnectionError.

Inductive result (A : Type) :=
| Ok (a : A)
| Raise (e : exn).
Global Arguments Ok {A} a.
Global Arguments Raise {A} e.

(** A Python socket object: the plain socket, or the TLS wrapper around
    it.  They are two objects on one connection, named by one handle:
    the wrapper reads and writes on the connection that the plain socket
    opened, and closing the plain object does not close the wrapper (see
    [sock_close]). *)
Inductive pysock :=
| RawSocket (h : handle)
| SSLSocket (h : handle).

Definition fileno (s : pysock) : handle :=
  match s with
  | RawSocket h => h
  | SSLSocket h => h
  end.

(** The attributes of an [EppClient] object.  [_sock] is unset until
    [connect] assigns it.  The key, certificate and CA file names are
    left out: they only reach the TLS library, whose verdict is the
    peer's [tls_ok]; so is the logger, whose records go to the world's
    [log]. *)
Record EppClient := {
  host : string;
  port : Z;
  ssl_enable : bool;
  validate_hostname : bool;
  sock : option pysock;
  _sock : option pysock;
  greeting : option EppResponse
}.

(** [EppClient(host, port, ssl_enable, ..., ssl_validate_hostname)] *)
Definition init (host : string) (port : Z) (ssl_enable validate : bool)
  : EppClient :=
  {| host := host; port := port; ssl_enable := ssl_enable;
     validate_hostname := validate; sock := None; _sock := None;
     greeting := None |}.

(** State: the object and the world around it.  An exception leaves the
    state as it was when raised. *)
Record State := { self : EppClient; env : World }.

Definition M (A : Type) := State -> result A * State.

Definition ret {A} (a : A) : M A := fun st => (Ok a, st).
Definition raise {A} (e : exn) : M A := fun st => (Raise e, st).
Definition bind {A B} (m : M A) (k : A -> M B) : M B :=
  fun st =>
    match m st with
    | (Ok a, st') => k a st'
    | (Raise e, st') => (Raise e, st')
    end.

Notation "x <- m ;; k" := (bind m (fun x => k))
  (at level 100, m at next level, right associativity).
Notation "m ;; k" := (bind m (fun _ => k))
  (at level 100, right associativity).

Definition get_self : M EppClient := fun st => (Ok (self st), st).
Definition set_self (f : EppClient -> EppClient) : M unit :=
  fun st => (Ok tt, {| self := f (self st); env := env st |}).
Definition on_world (f : World -> World) : M unit :=
  fun st => (Ok tt, {| self := self st; env := f (env st) |}).

Definition exn_of_sock_err (e : sock_err) : exn :=
  match e with
  | NegativeBufsize => ValueError
  | PortOutOfRange => OverflowError
  | e => SocketError e
  end.

(** Run a socket call, turning its error into the Python exception. *)
Definition io {A} (f : World -> (sock_err + A) * World) : M A :=
  fun st =>
    match f (env st) with
    | (inr a, w) => (Ok a, {| self := self st; env := w |})
    | (inl e, w) => (Raise (exn_of_sock_err e), {| self := self st; env := w |})
    end.

Definition of_option {A} (e : exn) (o : option A) : M A :=
  match o with
  | Some a => ret a
  | None => raise e
  end.

Definition with_sock (s : option pysock) (c : EppClient) : EppClient :=
  {| host := host c; port := port c; ssl_enable := ssl_enable c;
     validate_hostname := validate_hostname c; sock := s; _sock := _sock c;
     greeting := greeting c |}.

Definition with_raw (s : option pysock) (c : EppClient) : EppClient :=
  {| host := host c; port := port c; ssl_enable := ssl_enable c;
     validate_hostname := validate_hostname c; sock := sock c; _sock := s;
     greeting := greeting c |}.

Definition with_greeting (g : option EppResponse) (c : EppClient) : EppClient :=
  {| host := host c; port := port c; ssl_enable := ssl_enable c;
     validate_hostname := validate_hostname c; sock := sock c; _sock := _sock c;
     greeting := g |}.

(** [port or self.port] *)
Definition port_or (p : option Z) (dflt : Z) : Z :=
  match p with
  | Some p => if p =? 0 then dflt else p
  | None => dflt
  end.

(** Is it the same socket object? *)
Definition same_sock (a b : pysock) : bool :=
  match a, b with
  | RawSocket h, RawSocket h' => Nat.eqb h h'
  | SSLSocket h, SSLSocket h' => Nat.eqb h h'
  | _, _ => false
  end.

(** Does an attribute hold the socket object [s]? *)
Definition holds (o : option pysock) (s : pysock) : bool :=
  match o with
  | Some s' => same_sock s' s
  | None => false
  end.

Definition held (c : EppClient) (s : pysock) : bool :=
  holds (sock c) s || holds (_sock c) s.

(** Does an attribute hold a socket object of connection [h]? *)
Definition refers (o : option pysock) (h : handle) : bool :=
  match o with
  | Some s => Nat.eqb (fileno s) h
  | None => false
  end.

Definition referenced (c : EppClient) (h : handle) : bool :=
  refers (sock c) h || refers (_sock c) h.

(** The runtime frees a socket object. *)
Definition sock_free (s : pysock) (w : World) : World :=
  match s with
  | RawSocket h => sock_free_plain h w
  | SSLSocket h => sock_free_wrapper h w
  end.

(** What rebinding an attribute does to the socket object it held
    before: when no attribute of the client holds that object any more,
    the object is freed.  (Reference counting as CPython does it; the
    client is taken to hold the only references to its sockets.) *)
Definition release_old (old : option pysock) (c : EppClient) (w : World)
  : World :=
  match old with
  | Some s => if held c s then w else sock_free s w
  | None => w
  end.

(** [self.sock = s] *)
Definition assign_sock (s : pysock) : M unit :=
  fun st =>
    let c := with_sock (Some s) (self st) in
    (Ok tt, {| self := c; env := release_old (sock (self st)) c (env st) |}).

(** [self._sock = s] *)
Definition assign_raw (s : pysock) : M unit :=
  fun st =>
    let c := with_raw (Some s) (self st) in
    (Ok tt, {| self := c; env := release_old (_sock (self st)) c (env st) |}).

(** [EppClient.connect] *)
Definition connect (host : string) (p : option Z) : M unit :=
  h <- (fun st => let (h, w) := sock_new (env st) in
                  (Ok h, {| self := self st; env := w |})) ;;
  assign_sock (RawSocket h) ;;
  c <- get_self ;;
  peer <- io (sock_connect h host (port_or p (port c))) ;;
  assign_raw (RawSocket h) ;;
  if ssl_enable c then
    on_world (emit (EvHandshake h)) ;;
    (if tls_ok peer then on_world (sock_wrap h) else raise SSLError) ;;
    assign_sock (SSLSocket h) ;;
    if validate_hostname c then
      if cert_matches peer then ret tt
      else on_world (log_append LogHostnameMismatch) ;;
           raise EppConnectionError
    else ret tt
  else ret tt.

(** [EppClient.close]: [self._sock.close()] *)
Definition close : M unit :=
  c <- get_self ;;
  match _sock c with
  | None => raise AttributeError
  | Some s => on_world (sock_close (fileno s))
  end.

(** [self.sock.read if self.ssl_enable else self.sock.recv]: only the TLS
    wrapper has a [read] method. *)
Definition recvmeth : M handle :=
  c <- get_self ;;
  match sock c with
  | None => raise AttributeError
  | Some (SSLSocket h) => ret h
  | Some (RawSocket h) => if ssl_enable c then raise AttributeError else ret h
  end.

(** [self.sock.write if self.ssl_enable else self.sock.sendall] *)
Definition writemeth : M handle :=
  c <- get_self ;;
  match sock c with
  | None => raise AttributeError
  | Some (SSLSocket h) => ret h
  | Some (RawSocket h) => if ssl_enable c then raise AttributeError else ret h
  end.

(** [EppClient.remote_info] *)
Definition remote_info : M (string * Z) :=
  c <- get_self ;;
  match sock c with
  | None => raise AttributeError
  | Some s => io (sock_getpeername (fileno s))
  end.

(** [not s] for a byte string. *)
Definition is_empty (s : bytes) : bool :=
  match s with
  | [] => true
  | _ => false
  end.

(** [EppClient.read] *)
Definition read : M bytes :=
  h <- recvmeth ;;
  siz <- io (sock_recv h 4) ;;
  if is_empty siz then
    close ;;
    raise IOError_NoSizeHeader
  else
    total <- of_option StructError (struct_unpack_I siz) ;;
    let siz := total - 4 in
    data <- io (sock_recv h siz) ;;
    if is_empty data then
      close ;;
      raise (IOError_NoData siz)
    else ret data.

(** [EppClient.write] *)
Definition write (data : bytes) : M unit :=
  h <- writemeth ;;
  siz <- of_option StructError (struct_pack_I (4 + len data)) ;;
  io (sock_sendall h (siz ++ data)).

(** [self.sock.sendall], as the split writes below pick it whatever
    [ssl_enable] says; both kinds of socket have it. *)
Definition sendall_meth : M handle :=
  c <- get_self ;;
  match sock c with
  | None => raise AttributeError
  | Some s => ret (fileno s)
  end.

(** [EppClient.write_split]: the header and the first four bytes of the
    payload in one call, the rest in another. *)
Definition write_split (data : bytes) : M unit :=
  h <- sendall_meth ;;
  siz <- of_option StructError (struct_pack_I (4 + len data)) ;;
  io (sock_sendall h (siz ++ take 4 data)) ;;
  io (sock_sendall h (drop 4 data)).

(** [EppClient.write_splitsize]: two bytes of the header, the other
    two, then the payload. *)
Definition write_splitsize (data : bytes) : M unit :=
  h <- sendall_meth ;;
  siz <- of_option StructError (struct_pack_I (4 + len data)) ;;
  io (sock_sendall h (take 2 siz)) ;;
  io (sock_sendall h (drop 2 siz)) ;;
  io (sock_sendall h data).

(** [EppClient.write_splitall]: the header in two calls, four bytes of
    the payload, then the rest. *)
Definition write_splitall (data : bytes) : M unit :=
  h <- sendall_meth ;;
  siz <- of_option StructError (struct_pack_I (4 + len data)) ;;
  io (sock_sendall h (take 2 siz)) ;;
  io (sock_sendall h (drop 2 siz)) ;;
  io (sock_sendall h (take 4 data)) ;;
  io (sock_sendall h (drop 4 data)).

(** The loop of [write_many]: [len(doc)] and [struct.pack] for each
    document, the header and the document itself appended to [buf]. *)
Fixpoint write_many_buf (docs : list pydoc) (buf : list (bytes + EppDoc))
  : M (list (bytes + EppDoc)) :=
  match docs with
  | [] => ret buf
  | doc :: docs =>
      n <- match doc with
           | DocStr s => ret (len s)
           | DocObj d => of_option TypeError (doc_len d)
           end ;;
      hdr <- of_option StructError (struct_pack_I (4 + n)) ;;
      write_many_buf docs
        (buf ++ [inl hdr; match doc with
                          | DocStr s => inl s
                          | DocObj d => inr d
                          end])
  end.

(** [''.join(buf)]: [TypeError] on an item that is not a string. *)
Fixpoint str_join (buf : list (bytes + EppDoc)) : option bytes :=
  match buf with
  | [] => Some []
  | inl s :: buf => option_map (app s) (str_join buf)
  | inr _ :: _ => None
  end.

(** [EppClient.write_many] *)
Definition write_many (docs : list pydoc) : M unit :=
  h <- writemeth ;;
  buf <- write_many_buf docs [] ;;
  data <- of_option TypeError (str_join buf) ;;
  io (sock_sendall h data).

(** [EppClient.send] *)
Definition send (doc : EppDoc) : M EppResponse :=
  let buf := doc_str doc in
  p <- remote_info ;;
  on_world (log_append (LogSend p buf)) ;;
  write buf ;;
  r <- read ;;
  p <- remote_info ;;
  on_world (log_append (LogRecv p r)) ;;
  resp <- of_option XmlParseError (from_xml r) ;;
  ret (normalize_response doc resp).

(** [EppClient.hello] *)
Definition hello : M EppResponse := send EppHello.

(** [EppClient.logout] *)
Definition logout : M EppResponse := send EppLogoutCommand.

(** [EppClient.login] *)
Definition login (clID pw : bytes) (raise_on_fail : bool) : M EppResponse :=
  c <- get_self ;;
  match sock c with
  | None =>
      connect (host c) (Some (port c)) ;;
      r <- read ;;
      g <- of_option XmlParseError (from_xml r) ;;
      set_self (with_greeting (Some g))
  | Some _ => ret tt
  end ;;
  let cmd := EppLoginCommand clID pw in
  r <- send cmd ;;
  if negb (success r) && raise_on_fail then raise (EppLoginError r)
  else ret r.

(** What [batchsend] returns: the count of documents sent, or the list
    of responses, [None] standing for an exchange that failed. *)
Inductive batch_result :=
| BatchSent (sent : nat)
| BatchOut (out : list (option EppResponse)).

(** The loop [for doc in docs: self.write(str(doc)); sent += 1] inside
    the [try]: the value of [sent] when the loop ends, and the exception
    that ended it, if one did. *)
Fixpoint write_each (docs : list pydoc) (sent : nat) (st : State)
  : (nat * option exn) * State :=
  match docs with
  | [] => ((sent, None), st)
  | doc :: docs =>
      match write (py_str doc) st with
      | (Ok _, st') => write_each docs (S sent) st'
      | (Raise e, st') => ((sent, Some e), st')
      end
  end.

(** The first [try] of [batchsend] and its [except] clause. *)
Definition send_phase (docs : list pydoc) (failfast pipeline : bool) : M nat :=
  fun st =>
    let ndocs := length docs in
    let '((sent, err), st) :=
      if pipeline then
        match write_many docs st with
        | (Ok _, st') => ((ndocs, None), st')
        | (Raise e, st') => ((0%nat, Some e), st')
        end
      else write_each docs 0 st in
    match err with
    | None => (Ok sent, st)
    | Some e =>
        let st := {| self := self st;
                     env := log_append (LogFailedSend sent ndocs) (env st) |} in
        if failfast then (Raise e, st) else (Ok sent, st)
    end.

(** The loop [for _ in xrange(sent)] inside the second [try]: [out] and
    [recved] when the loop ends, and the exception that ended it. *)
Fixpoint read_each (n : nat) (out : list (option EppResponse)) (recved : nat)
  (st : State) : (list (option EppResponse) * nat * option exn) * State :=
  match n with
  | O => ((out, recved, None), st)
  | S n =>
      match read st with
      | (Raise e, st') => ((out, recved, Some e), st')
      | (Ok r, st') =>
          match from_xml r with
          | None => ((out, recved, Some XmlParseError), st')
          | Some resp => read_each n (out ++ [Some resp]) (S recved) st'
          end
      end
  end.

(** The second [try] of [batchsend] and its [except] clause. *)
Definition recv_phase (sent : nat) : M (list (option EppResponse)) :=
  fun st =>
    let '((out, recved, err), st) := read_each sent [] 0 st in
    match err with
    | None => (Ok out, st)
    | Some _ =>
        (Ok (out ++ repeat None (sent - length out)),
         {| self := self st;
            env := log_append (LogFailedRecv recved sent) (env st) |})
    end.

(** [EppClient.batchsend] *)
Definition batchsend (docs : list pydoc)
  (readresponse failfast pipeline : bool) : M batch_result :=
  sent <- send_phase docs failfast pipeline ;;
  if negb readresponse then ret (BatchSent sent)
  else
    out <- recv_phase sent ;;
    ret (BatchOut out).

(* --------------------------------------------------------------------- *)
(** *** Vocabulary of the statements *)
(* --------------------------------------------------------------------- *)

(** The state with one more log record. *)
Definition logged (r : log_record) (st : State) : State :=
  {| self := self st; env := log_append r (env st) |}.

(** The client is attached to socket [h] the way [connect] leaves it:
    [_sock] is the plain socket, [sock] is it, or its TLS wrapper when
    TLS is enabled. *)
Definition attached (c : EppClient) (h : handle) : Prop :=
  _sock c = Some (RawSocket h) /\
  sock c = Some (if ssl_enable c then SSLSocket h else RawSocket h).

(** Socket [h] is there, connected and not closed. *)
Definition live (h : handle) (w : World) : Prop :=
  exists s, socks w !! h = Some s /\ closed s = false /\ connected s = true.

Definition inbox_of (h : handle) (w : World) : list recv_event :=
  match socks w !! h with
  | Some s => inbox s
  | None => []
  end.

Definition wire_of (h : handle) (w : World) : bytes :=
  match socks w !! h with
  | Some s => wire s
  | None => []
  end.

Definition is_recv (e : io_event) : bool :=
  match e with
  | EvRecv _ _ => true
  | _ => false
  end.

Definition is_send (e : io_event) : bool :=
  match e with
  | EvSend _ _ _ => true
  | _ => false
  end.

(** The bytes of the write calls that succeeded, in order. *)
Fixpoint written_ok (evs : list io_event) : bytes :=
  match evs with
  | [] => []
  | EvSend _ data true :: evs => data ++ written_ok evs
  | _ :: evs => written_ok evs
  end.

(** The frames of the rendered documents, one after the other. *)
Definition frames (docs : list pydoc) : bytes :=
  concat (map (fun d => frame (py_str d)) docs).

(** Every document of the list is written, each write succeeding. *)
Inductive writes_ok : list pydoc -> State -> State -> Prop :=
| writes_ok_nil st : writes_ok [] st st
| writes_ok_cons d ds st st1 st2 :
    write (py_str d) st = (Ok tt, st1) ->
    writes_ok ds st1 st2 ->
    writes_ok (d :: ds) st st2.

(** Responses are read and parsed one after the other, each with
    success. *)
Inductive reads_ok : State -> list EppResponse -> State -> Prop :=
| reads_ok_nil st : reads_ok st [] st
| reads_ok_cons st r resp st1 rs st2 :
    read st = (Ok r, st1) ->
    from_xml r = Some resp ->
    reads_ok st1 rs st2 ->
    reads_ok st (resp :: rs) st2.

(** The next response cannot be had: the read raises, or what is read
    does not parse. *)
Definition read_fails (st : State) : Prop :=
  (exists e, fst (read st) = Raise e) \/
  (exists r, fst (read st) = Ok r /\ from_xml r = None).

(** The two ways a frame read meets a stream that the peer has shut
    down: at the header, or at the payload after a full header.  The
    exception raised and the world in which the client closes. *)
Inductive clean_close (h : handle) (w : World) : exn -> World -> Prop :=
| close_at_header w1 :
    sock_recv h 4 w = (inr [], w1) ->
    clean_close h w IOError_NoSizeHeader w1
| close_at_payload hdr total w1 w2 :
    sock_recv h 4 w = (inr hdr, w1) ->
    struct_unpack_I hdr = Some total ->
    sock_recv h (total - 4) w1 = (inr [], w2) ->
    clean_close h w (IOError_NoData (total - 4)) w2.

(** What [login] does on a client without socket before it sends the
    login document: connect, read the greeting, parse and store it. *)
Definition greet : M unit :=
  c <- get_self ;;
  connect (host c) (Some (port c)) ;;
  r <- read ;;
  g <- of_option XmlParseError (from_xml r) ;;
  set_self (with_greeting (Some g)).

(** Cut a byte string into segments of the given sizes; what is left
    over arrives as a last segment. *)
Fixpoint chop (sizes : list nat) (bs : bytes) : list recv_event :=
  match sizes with
  | [] => match bs with [] => [] | _ => [Segment bs] end
  | n :: sizes => Segment (take n bs) :: chop sizes (drop n bs)
  end.

(** What [read] does once its first receive on [h] has returned [siz]. *)
Definition read_payload (h : handle) (siz : bytes) : M bytes :=
  if is_empty siz then
    close ;;
    raise IOError_NoSizeHeader
  else
    total <- of_option StructError (struct_unpack_I siz) ;;
    data <- io (sock_recv h (total - 4)) ;;
    if is_empty data then
      close ;;
      raise (IOError_NoData (total - 4))
    else ret data.

(** Every document of the list is a byte string. *)
Definition all_str (docs : list pydoc) : bool :=
  forallb (fun d => match d with DocStr _ => true | DocObj _ => false end) docs.

(** Every call that the computation makes on sockets satisfies [P]. *)
Definition emits {A} (P : io_event -> Prop) (m : M A) : Prop :=
  forall st, exists evs,
    trace (env (snd (m st))) = trace (env st) ++ evs /\ Forall P evs.

(** Every exception that the computation raises satisfies [P]. *)
Definition raises {A} (P : exn -> Prop) (m : M A) : Prop :=
  forall st e, fst (m st) = Raise e -> P e.

Definition not_send (e : io_event) : Prop := is_send e = false.

Definition not_login_error (e : exn) : Prop :=
  match e with
  | EppLoginError _ => False
  | _ => True
  end.

(** The call opens no connection: it is neither a connect nor a TLS
    handshake. *)
Definition not_connect (e : io_event) : Prop :=
  match e with
  | EvConnect _ _ _ | EvHandshake _ => False
  | _ => True
  end.

(** The socket as [connect] leaves it when the peer [pr] has accepted,
    under a TLS wrapper or not. *)
Definition connected_to (tls : bool) (pr : peer) : socket_state :=
  {| connected := true; closed := false; raw_closed := false;
     wrapped := tls; peername := peer_addr pr;
     inbox := peer_inbox pr; send_script := peer_sends pr; wire := [] |}.

(** The socket [h] is under a TLS wrapper exactly when the client uses
    TLS, as [connect] leaves it. *)
Definition wrapped_as (c : EppClient) (h : handle) (w : World) : Prop :=
  is_wrapped h w = ssl_enable c.

(** How the send phase of a batch fails: in the plain send, the write
    of one document raises after those of the documents before it have
    succeeded; in the pipelined send, the one write raises.  With the
    count of documents sent, the exception and the state at that
    point. *)
Inductive send_fails (docs : list pydoc) (st : State)
  : bool -> nat -> exn -> State -> Prop :=
| plain_write_fails pre d post st1 e st2 :
    docs = pre ++ d :: post ->
    writes_ok pre st st1 ->
    write (py_str d) st1 = (Raise e, st2) ->
    send_fails docs st false (length pre) e st2
| pipelined_write_fails e st2 :
    write_many docs st = (Raise e, st2) ->
    send_fails docs st true 0 e st2.

(** Methods that leave the client's attributes alone. *)
Definition keeps_self {A} (m : M A) : Prop :=
  forall st, self (snd (m st)) = self st.

End Client.

Arguments release_old : simpl never.

(* ===================================================================== *)
(** ** Sample collaborators and worlds *)
(* ===================================================================== *)

Module Sample.

(** A payload parses when it starts with [+] (success) or [-]
    (failure). *)
Definition parse (b : bytes) : option (bool * bytes) :=
  match b with
  | "+"%byte :: _ => Some (true, b)
  | "-"%byte :: _ => Some (false, b)
  | _ => None
  end.

(** Documents are their own rendering; as dictionaries they have one
    key. *)
Definition docs : Collaborators :=
  {| EppDoc := bytes; EppResponse := bool * bytes;
     doc_str := fun d => d; doc_len := fun _ => Some 1;
     normalize_response := fun _ r => r;
     success := fst; from_xml := parse;
     EppHello := list_byte_of_string "<hello/>";
     EppLoginCommand := fun clID pw =>
       list_byte_of_string "<login>" ++ clID ++ list_byte_of_string ":" ++ pw;
     EppLogoutCommand := list_byte_of_string "<logout/>" |}.

Definition b (s : string) : bytes := list_byte_of_string s.

(** A server that accepts, with what it will send and how it takes
    writes. *)
Definition server (q : list recv_event) (k : list send_outcome) : peer :=
  {| accepts := true; tls_ok := true; cert_matches := true;
     peer_addr := ("192.0.2.7"%string, 700);
     peer_inbox := q; peer_sends := k |}.

Definition fresh (ssl : bool) (ps : list peer) : State :=
  {| self := @init docs "epp.example" 700 ssl true;
     env := {| socks := []; net := ps; trace := []; log := [] |} |}.

(** A client connected to a server. *)
Definition online (ssl : bool) (q : list recv_event) (k : list send_outcome)
  : State :=
  snd (@connect docs "epp.example" None (fresh ssl [server q k])).

(** Write [p] on one connection, then read on another one to which the
    bytes written arrive cut as [sizes] says. *)
Definition loopback (p : bytes) (sizes : list nat) : result bytes :=
  let sender := snd (@write docs p (online false [] [])) in
  fst (@read docs (online false (chop sizes (wire_of 0%nat (env sender))) [])).

(** The two ends of a round trip: a client that has written nothing yet,
    and a client to which the frame of [p] arrives in one segment. *)
Definition sender : State := online false [] [].
Definition receiver (p : bytes) : State := online false [Segment (frame p)] [].

(** A batch of three documents against a server that takes two writes,
    breaks the pipe at the third, answers the first request and then
    shuts down. *)
Definition abc : list (@pydoc docs) :=
  [DocStr (b "<a/>"); DocStr (b "<b/>"); DocStr (b "<c/>")].
Definition flaky : State :=
  online false [Segment (frame (b "+one"))] [SendAll; SendAll; SendFails 0].

(** A client not connected yet; its server greets and then turns the
    login down. *)
Definition newcomer : State :=
  fresh true [server [Segment (frame (b "+greeting"));
                      Segment (frame (b "-denied"))] []].

(** A client with nobody to connect to. *)
Definition lonely : State := fresh false [].

(** A client whose server presents a certificate for another host. *)
Definition impostor : peer :=
  {| accepts := true; tls_ok := true; cert_matches := false;
     peer_addr := ("192.0.2.66"%string, 700);
     peer_inbox := []; peer_sends := [] |}.
Definition deceived : State := fresh true [impostor].

(** A client to which the frame of the two bytes [ab] arrives in two
    segments: the header with [a], then [b]. *)
Definition halved : State :=
  online false [Segment (be32 6 ++ b "a"); Segment (b "b")] [].

(** A TLS client connected to a server, with a second server to
    connect to. *)
Definition regular : State :=
  snd (@connect docs "epp.example" None
         (fresh true [server [] []; server [] []])).

(** A payload too long for the header, by four bytes. *)
Definition huge : bytes := repeat "000"%byte (Z.to_nat (2 ^ 32 - 4)).

(** A client whose server answers three requests, the second answer
    being unreadable. *)
Definition garbled : State :=
  online false [Segment (frame (b "+one")); Segment (frame (b "?bad"));
                Segment (frame (b "+three"))] [].

End Sample.

(* ===================================================================== *)
(** ** The header codec *)
(* ===================================================================== *)

Lemma Z_of_byte_of_Z z : Z_of_byte (byte_of_Z z) = Z.land z 255.
Proof.
  unfold Z_of_byte, byte_of_Z.
  assert (Hr : 0 <= Z.land z 255 < 256).
  { change 255 with (Z.ones 8). rewrite Z.land_ones by lia.
    apply Z.mod_pos_bound. lia. }
  destruct (Byte.of_N (Z.to_N (Z.land z 255))) as [x|] eqn:E.
  - apply Byte.to_of_N in E. rewrite E. lia.
  - apply Byte.of_N_None_iff in E. lia.
Qed.

Lemma testbit_land_255 z i :
  0 <= i -> Z.testbit (Z.land z 255) i = Z.testbit z i && (i <? 8).
Proof.
  intros Hi. change 255 with (Z.ones 8).
  now rewrite Z.land_spec, Z.testbit_ones_nonneg by lia.
Qed.

Lemma testbit_byte_at n k i :
  0 <= k -> 0 <= i ->
  Z.testbit (Z.shiftl (Z.land (Z.shiftr n k) 255) k) i
  = Z.testbit n i && (k <=? i) && (i <? k + 8).
Proof.
  intros Hk Hi. rewrite Z.shiftl_spec by lia.
  destruct (Z.leb_spec k i).
  - rewrite testbit_land_255, Z.shiftr_spec by lia.
    replace (i - k + k) with i by lia.
    destruct (Z.testbit n i); simpl; [|reflexivity].
    destruct (Z.ltb_spec (i - k) 8), (Z.ltb_spec i (k + 8)); lia || reflexivity.
  - rewrite Z.testbit_neg_r by lia. now rewrite andb_false_r.
Qed.

(** Unpacking the header packed from a number in range gives the number
    back. *)
Lemma unpack_be32 n : 0 <= n < 2 ^ 32 -> struct_unpack_I (be32 n) = Some n.
Proof.
  intros Hn. unfold be32, struct_unpack_I. f_equal.
  rewrite !Z_of_byte_of_Z.
  apply Z.bits_inj'. intros i Hi.
  rewrite !Z.lor_spec, !testbit_byte_at by lia.
  rewrite testbit_land_255 by lia.
  destruct (Z.ltb_spec i 32) as [Hlt|Hge].
  - destruct (Z.testbit n i); simpl; [|reflexivity].
    destruct (Z.leb_spec 24 i), (Z.leb_spec 16 i), (Z.leb_spec 8 i),
      (Z.ltb_spec i (24 + 8)), (Z.ltb_spec i (16 + 8)), (Z.ltb_spec i (8 + 8)),
      (Z.ltb_spec i 8); simpl; lia || reflexivity.
  - assert (Z.testbit n i = false) as ->; [|reflexivity].
    destruct (Z.eq_dec n 0) as [->|Hnz]; [apply Z.testbit_0_l|].
    apply Z.bits_above_log2; [lia|].
    assert (Z.log2 n < 32) by (apply Z.log2_lt_pow2; lia). lia.
Qed.

Lemma struct_pack_I_Some n hdr :
  struct_pack_I n = Some hdr -> hdr = be32 n /\ 0 <= n < 2 ^ 32.
Proof.
  unfold struct_pack_I.
  destruct (Z.leb_spec 0 n), (Z.ltb_spec n (2 ^ 32)); simpl;
    intros E; inversion E; subst; split; (reflexivity || lia).
Qed.



(* ===================================================================== *)
(** ** The socket layer: what a call changes *)
(* ===================================================================== *)

Lemma is_closed_emit e h w : is_closed h (emit e w) = is_closed h w.
Proof. reflexivity. Qed.


Lemma is_closed_set_sock h h' s s' w :
  socks w !! h = Some s -> closed s' = closed s ->
  is_closed h' (set_sock h s' w) = is_closed h' w.
Proof.
  intros Hs Hc. unfold is_closed, set_sock. simpl.
  destruct (decide (h = h')) as [<-|Hne].
  - rewrite list_lookup_insert_eq by (eapply lookup_lt_Some; eassumption).
    now rewrite Hs.
  - now rewrite list_lookup_insert_ne.
Qed.

Lemma sock_sendall_closed h data w h' :
  is_closed h' (snd (sock_sendall h data w)) = is_closed h' w.
Proof.
  unfold sock_sendall.
  destruct (socks w !! h) as [s|] eqn:Hs; [|reflexivity].
  destruct (closed s); [reflexivity|].
  destruct (connected s); [|reflexivity]. simpl.
  destruct (send_script s) as [|[|k] script]; simpl;
    rewrite is_closed_emit; eapply is_closed_set_sock; eauto.
Qed.

Lemma sock_recv_closed h n w h' :
  is_closed h' (snd (sock_recv h n w)) = is_closed h' w.
Proof.
  unfold sock_recv. simpl.
  destruct (socks w !! h) as [s|] eqn:Hs; [|reflexivity].
  destruct (closed s); [reflexivity|].
  destruct (connected s); [|reflexivity]. simpl.
  destruct (n <? 0); [reflexivity|].
  destruct (n =? 0); [reflexivity|].
  destruct (deliver (Z.to_nat n) (inbox s)) as [[data|] q]; simpl;
    erewrite is_closed_set_sock; eauto.
Qed.

Lemma sock_getpeername_world h w :
  snd (sock_getpeername h w) = emit (EvGetpeername h) w.
Proof.
  unfold sock_getpeername. simpl.
  destruct (socks w !! h) as [s|]; [|reflexivity].
  destruct (closed s); [reflexivity|].
  now destruct (connected s).
Qed.

(** One write call, one event; it says whether the call succeeded. *)
Lemma sock_sendall_trace h data w :
  trace (snd (sock_sendall h data w))
  = trace w ++ [EvSend h data (returned (fst (sock_sendall h data w)))].
Proof.
  unfold sock_sendall.
  destruct (socks w !! h) as [s|]; [|reflexivity].
  destruct (closed s); [reflexivity|].
  destruct (connected s); [|reflexivity]. simpl.
  now destruct (send_script s) as [|[|k] script].
Qed.

Lemma sock_recv_trace h n w :
  trace (snd (sock_recv h n w)) = trace w ++ [EvRecv h n].
Proof.
  unfold sock_recv. simpl.
  destruct (socks w !! h) as [s|]; [|reflexivity].
  destruct (closed s); [reflexivity|].
  destruct (connected s); [|reflexivity]. simpl.
  destruct (n <? 0); [reflexivity|].
  destruct (n =? 0); [reflexivity|].
  now destruct (deliver (Z.to_nat n) (inbox s)) as [[data|] q].
Qed.

(** A receive that returns was made on a socket that is there and open;
    it stays so. *)
Lemma sock_recv_inr_live h n w data w' :
  sock_recv h n w = (inr data, w') -> live h w /\ live h w'.
Proof.
  unfold sock_recv, live. simpl.
  destruct (socks w !! h) as [s|] eqn:Hs; [|discriminate].
  destruct (closed s) eqn:Hc; [discriminate|].
  destruct (connected s) eqn:Hn; [|discriminate]. simpl.
  destruct (n <? 0); [discriminate|].
  destruct (n =? 0).
  - intros E; inversion E; subst; simpl. rewrite Hs. split; eauto.
  - destruct (deliver (Z.to_nat n) (inbox s)) as [[d|] q]; [|discriminate].
    intros E; inversion E; subst; simpl. split; [eauto|].
    exists (with_inbox q s).
    rewrite list_lookup_insert_eq by (eapply lookup_lt_Some; eassumption).
    auto.
Qed.

Lemma is_wrapped_set_sock h h' s s' w :
  socks w !! h = Some s -> wrapped s' = wrapped s ->
  is_wrapped h' (set_sock h s' w) = is_wrapped h' w.
Proof.
  intros Hs Hc. unfold is_wrapped, set_sock. simpl.
  destruct (decide (h = h')) as [<-|Hne].
  - rewrite list_lookup_insert_eq by (eapply lookup_lt_Some; eassumption).
    now rewrite Hs.
  - now rewrite list_lookup_insert_ne.
Qed.

(** Receiving, sending and closing leave a TLS wrapper where it is. *)
Lemma sock_sendall_wrapped h data w h' :
  is_wrapped h' (snd (sock_sendall h data w)) = is_wrapped h' w.
Proof.
  unfold sock_sendall.
  destruct (socks w !! h) as [s|] eqn:Hs; [|reflexivity].
  destruct (closed s); [reflexivity|].
  destruct (connected s); [|reflexivity]. simpl.
  destruct (send_script s) as [|[|k] script]; simpl;
    change (is_wrapped h' (emit ?e ?w)) with (is_wrapped h' w);
    eapply is_wrapped_set_sock; eauto.
Qed.

Lemma sock_recv_wrapped h n w h' :
  is_wrapped h' (snd (sock_recv h n w)) = is_wrapped h' w.
Proof.
  unfold sock_recv. simpl.
  destruct (socks w !! h) as [s|] eqn:Hs; [|reflexivity].
  destruct (closed s); [reflexivity|].
  destruct (connected s); [|reflexivity]. simpl.
  destruct (n <? 0); [reflexivity|].
  destruct (n =? 0); [reflexivity|].
  destruct (deliver (Z.to_nat n) (inbox s)) as [[data|] q]; simpl;
    erewrite is_wrapped_set_sock; eauto.
Qed.

Lemma sock_close_wrapped_same h w h' :
  is_wrapped h' (sock_close h w) = is_wrapped h' w.
Proof.
  unfold sock_close. simpl.
  destruct (socks w !! h) as [s|] eqn:Hs; [|reflexivity].
  rewrite (is_wrapped_set_sock h h' s); [reflexivity | exact Hs | reflexivity].
Qed.

(** Closing the plain socket closes the connection when no TLS wrapper
    holds it. *)
Lemma sock_close_closes h w :
  live h w -> is_wrapped h w = false -> is_closed h (sock_close h w) = true.
Proof.
  intros (s & Hs & _ & _). unfold sock_close, is_closed, is_wrapped. simpl.
  rewrite Hs. intros Hw. simpl.
  rewrite list_lookup_insert_eq by (eapply lookup_lt_Some; eassumption).
  simpl. rewrite Hw. apply orb_true_r.
Qed.

(** Under a TLS wrapper the connection stays as open as it was. *)
Lemma sock_close_wrapped h w h' :
  is_wrapped h w = true -> is_closed h' (sock_close h w) = is_closed h' w.
Proof.
  unfold sock_close, is_wrapped. simpl.
  destruct (socks w !! h) as [s|] eqn:Hs; [|reflexivity]. intros Hw.
  rewrite (is_closed_set_sock h h' s); [reflexivity | exact Hs |].
  simpl. rewrite Hw. apply orb_false_r.
Qed.

Lemma sock_close_wrapped_live h w :
  live h w -> is_wrapped h w = true -> live h (sock_close h w).
Proof.
  intros (s & Hs & Hc & Hn). unfold sock_close, is_wrapped, live. simpl.
  rewrite Hs. intros Hw. exists (drop_raw s). simpl.
  rewrite list_lookup_insert_eq by (eapply lookup_lt_Some; eassumption).
  split; [reflexivity|]. rewrite Hc, Hw, Hn. auto.
Qed.

Lemma sock_close_closed_other h w h' :
  h' <> h -> is_closed h' (sock_close h w) = is_closed h' w.
Proof.
  intros Hne. unfold sock_close, is_closed. simpl.
  destruct (socks w !! h) as [s|]; [|reflexivity]. simpl.
  now rewrite list_lookup_insert_ne by congruence.
Qed.

Lemma sock_close_trace h w : trace (sock_close h w) = trace w ++ [EvClose h].
Proof. unfold sock_close. simpl. now destruct (socks w !! h). Qed.

(** Freeing a socket object: no call, nothing asked of the network,
    nothing logged; other connections are left alone. *)
Lemma sock_free_plain_trace h w : trace (sock_free_plain h w) = trace w.
Proof. unfold sock_free_plain. now destruct (socks w !! h). Qed.

Lemma sock_free_plain_net h w : net (sock_free_plain h w) = net w.
Proof. unfold sock_free_plain. now destruct (socks w !! h). Qed.

Lemma sock_free_plain_log h w : log (sock_free_plain h w) = log w.
Proof. unfold sock_free_plain. now destruct (socks w !! h). Qed.

Lemma sock_free_plain_length h w :
  length (socks (sock_free_plain h w)) = length (socks w).
Proof.
  unfold sock_free_plain. destruct (socks w !! h); [|reflexivity].
  simpl. apply length_insert.
Qed.

Lemma sock_free_plain_lookup_ne h w i :
  i <> h -> socks (sock_free_plain h w) !! i = socks w !! i.
Proof.
  intros Hne. unfold sock_free_plain. destruct (socks w !! h); [|reflexivity].
  simpl. now rewrite list_lookup_insert_ne by congruence.
Qed.

Lemma sock_free_plain_lookup h w s :
  socks w !! h = Some s -> socks (sock_free_plain h w) !! h = Some (drop_raw s).
Proof.
  intros Hs. unfold sock_free_plain. rewrite Hs. simpl.
  apply list_lookup_insert_eq. eapply lookup_lt_Some; eassumption.
Qed.

Lemma sock_free_wrapper_trace h w : trace (sock_free_wrapper h w) = trace w.
Proof.
  unfold sock_free_wrapper.
  destruct (socks w !! h) as [s|]; [destruct (wrapped s)|]; reflexivity.
Qed.

Lemma sock_free_wrapper_net h w : net (sock_free_wrapper h w) = net w.
Proof.
  unfold sock_free_wrapper.
  destruct (socks w !! h) as [s|]; [destruct (wrapped s)|]; reflexivity.
Qed.

Lemma sock_free_wrapper_log h w : log (sock_free_wrapper h w) = log w.
Proof.
  unfold sock_free_wrapper.
  destruct (socks w !! h) as [s|]; [destruct (wrapped s)|]; reflexivity.
Qed.

Lemma sock_free_wrapper_length h w :
  length (socks (sock_free_wrapper h w)) = length (socks w).
Proof.
  unfold sock_free_wrapper.
  destruct (socks w !! h) as [s|]; [destruct (wrapped s)|]; try reflexivity.
  simpl. apply length_insert.
Qed.

Lemma sock_free_wrapper_lookup_ne h w i :
  i <> h -> socks (sock_free_wrapper h w) !! i = socks w !! i.
Proof.
  intros Hne. unfold sock_free_wrapper.
  destruct (socks w !! h) as [s|]; [destruct (wrapped s)|]; try reflexivity.
  simpl. now rewrite list_lookup_insert_ne by congruence.
Qed.

Lemma sock_free_wrapper_lookup h w s :
  socks w !! h = Some s ->
  socks (sock_free_wrapper h w) !! h
  = Some (if wrapped s then drop_wrapper s else s).
Proof.
  intros Hs. unfold sock_free_wrapper. rewrite Hs.
  destruct (wrapped s); [|exact Hs]. simpl.
  apply list_lookup_insert_eq. eapply lookup_lt_Some; eassumption.
Qed.

Lemma sock_wrap_trace h w : trace (sock_wrap h w) = trace w.
Proof. unfold sock_wrap. now destruct (socks w !! h). Qed.

Lemma sock_wrap_log h w : log (sock_wrap h w) = log w.
Proof. unfold sock_wrap. now destruct (socks w !! h). Qed.

Lemma sock_wrap_lookup h w s :
  socks w !! h = Some s -> socks (sock_wrap h w) !! h = Some (with_wrapped s).
Proof.
  intros Hs. unfold sock_wrap. rewrite Hs. simpl.
  apply list_lookup_insert_eq. eapply lookup_lt_Some; eassumption.
Qed.

Lemma sock_wrap_lookup_ne h w i :
  i <> h -> socks (sock_wrap h w) !! i = socks w !! i.
Proof.
  intros Hne. unfold sock_wrap. destruct (socks w !! h); [|reflexivity].
  simpl. now rewrite list_lookup_insert_ne by congruence.
Qed.

(* ===================================================================== *)
(** ** The client: how the methods run *)
(* ===================================================================== *)

Section Proofs.

Context `{Collaborators}.


Lemma recvmeth_run st :
  recvmeth st =
  (match sock (self st) with
   | None => Raise AttributeError
   | Some (SSLSocket h) => Ok h
   | Some (RawSocket h) =>
       if ssl_enable (self st) then Raise AttributeError else Ok h
   end, st).
Proof.
  unfold recvmeth, bind, get_self, ret, raise.
  destruct (sock (self st)) as [[h|h]|]; try reflexivity.
  now destruct (ssl_enable (self st)).
Qed.

Lemma writemeth_run st : writemeth st = recvmeth st.
Proof. reflexivity. Qed.

Lemma attached_recvmeth st h : attached (self st) h -> recvmeth st = (Ok h, st).
Proof.
  intros [_ Hs]. rewrite recvmeth_run, Hs.
  now destruct (ssl_enable (self st)).
Qed.

Lemma close_run st :
  close st =
  match _sock (self st) with
  | None => (Raise AttributeError, st)
  | Some s => (Ok tt, {| self := self st; env := sock_close (fileno s) (env st) |})
  end.
Proof.
  unfold close, bind, get_self, raise, on_world.
  now destruct (_sock (self st)).
Qed.

Lemma write_run data st :
  write data st =
  match fst (writemeth st) with
  | Raise e => (Raise e, st)
  | Ok h =>
      match struct_pack_I (4 + len data) with
      | None => (Raise StructError, st)
      | Some hdr => io (sock_sendall h (hdr ++ data)) st
      end
  end.
Proof.
  unfold write, bind. rewrite writemeth_run, recvmeth_run. simpl.
  destruct (sock (self st)) as [[h|h]|]; try reflexivity;
    try destruct (ssl_enable (self st)); try reflexivity;
    destruct (struct_pack_I (4 + len data)); reflexivity.
Qed.

Lemma read_run st :
  read st =
  match fst (recvmeth st) with
  | Raise e => (Raise e, st)
  | Ok h =>
      match sock_recv h 4 (env st) with
      | (inl e, w1) =>
          (Raise (exn_of_sock_err e), {| self := self st; env := w1 |})
      | (inr siz, w1) => read_payload h siz {| self := self st; env := w1 |}
      end
  end.
Proof.
  unfold read, bind at 1. rewrite recvmeth_run. simpl.
  destruct (sock (self st)) as [[h|h]|]; try reflexivity;
    try destruct (ssl_enable (self st)); try reflexivity;
    unfold bind at 1, io at 1;
    destruct (sock_recv h 4 (env st)) as [[e|siz] w1]; reflexivity.
Qed.

Lemma attached_close st h w :
  attached (self st) h ->
  close {| self := self st; env := w |}
  = (Ok tt, {| self := self st; env := sock_close h w |}).
Proof. intros [Hr _]. rewrite close_run. simpl. now rewrite Hr. Qed.

(** A frame read on a stream that the peer has shut down: the exception
    raised, and the state in which it leaves the client. *)
Lemma clean_close_read st h e w :
  attached (self st) h ->
  clean_close h (env st) e w ->
  read st = (Raise e, {| self := self st; env := sock_close h w |}).
Proof.
  intros Ha Hc. rewrite read_run, (attached_recvmeth _ _ Ha). simpl.
  destruct Hc as [w1 H1 | hdr total w1 w2 H1 Hu H2].
  - rewrite H1. unfold read_payload. simpl. unfold bind.
    now rewrite (attached_close st h w1 Ha).
  - rewrite H1. unfold read_payload.
    assert (is_empty hdr = false) as ->.
    { destruct hdr; [discriminate Hu | reflexivity]. }
    unfold bind at 1. rewrite Hu. simpl.
    unfold bind at 1, io. simpl. rewrite H2. simpl.
    unfold bind. now rewrite (attached_close st h w2 Ha).
Qed.

(** The receive that found the stream shut down was made on a socket
    that is there and open. *)
Lemma clean_close_live h w e w' : clean_close h w e w' -> live h w'.
Proof.
  intros [w1 H1 | hdr total w1 w2 H1 Hu H2];
    eapply sock_recv_inr_live; eassumption.
Qed.

Lemma clean_close_wrapped h w e w' h' :
  clean_close h w e w' -> is_wrapped h' w' = is_wrapped h' w.
Proof.
  intros [w1 H1 | hdr total w1 w2 H1 Hu H2].
  - rewrite <- (sock_recv_wrapped h 4 w h'). now rewrite H1.
  - rewrite <- (sock_recv_wrapped h 4 w h'), H1. simpl.
    rewrite <- (sock_recv_wrapped h (total - 4) w1 h'). now rewrite H2.
Qed.

(** X19.  A frame read that finds the stream shut down by the peer
    raises [IOError] of the kind that tells where: "no size header" when
    the header read yields zero bytes, "no data", with the payload
    length that was expected, when the header was read and the payload
    read yields zero bytes.  In both cases [close] has run when the
    exception leaves [read]: on a client without TLS the connection is
    then closed; on a TLS client the plain socket has been closed but
    the connection, which the TLS wrapper holds, is as open as the
    receive left it. *)
Theorem clean_close_outcome st h e w :
  attached (self st) h ->
  wrapped_as (self st) h (env st) ->
  clean_close h (env st) e w ->
  read st = (Raise e, {| self := self st; env := sock_close h w |}) /\
  (e = IOError_NoSizeHeader /\ sock_recv h 4 (env st) = (inr [], w) \/
   exists hdr total w1,
     e = IOError_NoData (total - 4) /\
     sock_recv h 4 (env st) = (inr hdr, w1) /\
     struct_unpack_I hdr = Some total /\
     sock_recv h (total - 4) w1 = (inr [], w)) /\
  (ssl_enable (self st) = false ->
   is_closed h (env (snd (read st))) = true) /\
  (ssl_enable (self st) = true ->
   live h (env (snd (read st))) /\
   forall h', is_closed h' (env (snd (read st))) = is_closed h' w).
Proof.
  intros Ha Hw Hc. split; [now apply clean_close_read|]. split.
  - destruct Hc as [w1 H1 | hdr total w1 w2 H1 Hu H2].
    + left. now split.
    + right. exists hdr, total, w1. auto.
  - rewrite (clean_close_read st h e w Ha Hc). simpl.
    pose proof (clean_close_live _ _ _ _ Hc) as Hl.
    pose proof (clean_close_wrapped _ _ _ _ h Hc) as Hw'.
    unfold wrapped_as in Hw. rewrite Hw in Hw'.
    split; intros Hssl; rewrite Hssl in Hw'.
    + now apply sock_close_closes.
    + split; [now apply sock_close_wrapped_live|].
      intros h'. now apply sock_close_wrapped.
Qed.

Lemma io_self {A} (f : World -> (sock_err + A) * World) st :
  self (snd (io f st)) = self st.
Proof. unfold io. now destruct (f (env st)) as [[e|a] w]. Qed.

Lemma io_env {A} (f : World -> (sock_err + A) * World) st :
  env (snd (io f st)) = snd (f (env st)).
Proof. unfold io. now destruct (f (env st)) as [[e|a] w]. Qed.

Lemma io_fst {A} (f : World -> (sock_err + A) * World) st :
  fst (io f st) =
  match fst (f (env st)) with
  | inr a => Ok a
  | inl e => Raise (exn_of_sock_err e)
  end.
Proof. unfold io. now destruct (f (env st)) as [[e|a] w]. Qed.
(** A frame write closes no socket, whether it succeeds or fails. *)
Lemma write_closed data st h :
  is_closed h (env (snd (write data st))) = is_closed h (env st).
Proof.
  rewrite write_run. destruct (fst (writemeth st)); [|reflexivity].
  destruct (struct_pack_I (4 + len data)); [|reflexivity].
  rewrite io_env. apply sock_sendall_closed.
Qed.

Lemma exn_of_sock_err_not_ioerror e :
  match exn_of_sock_err e with
  | IOError_NoSizeHeader | IOError_NoData _ => False
  | _ => True
  end.
Proof. now destruct e. Qed.

(** C2, as amended.  On a client without TLS, a frame read that finds
    the stream shut down by the peer (zero bytes at the header or at the
    payload) closes the connection before it raises [IOError].  No other
    failure closes anything: a frame write leaves every socket as open
    or closed as it was, and so does a frame read that fails because the
    receive call raises or the header is short. *)
Theorem io_error_closes_only_on_clean_close st h :
  attached (self st) h ->
  wrapped_as (self st) h (env st) ->
  (forall data h',
      is_closed h' (env (snd (write data st))) = is_closed h' (env st)) /\
  (forall e st', read st = (Raise e, st') ->
      match e with
      | IOError_NoSizeHeader | IOError_NoData _ =>
          ssl_enable (self st) = false -> is_closed h (env st') = true
      | _ => forall h', is_closed h' (env st') = is_closed h' (env st)
      end).
Proof.
  intros Ha Hw. split; [intros; apply write_closed|].
  unfold wrapped_as in Hw.
  intros e st'. rewrite read_run, (attached_recvmeth _ _ Ha). simpl.
  destruct (sock_recv h 4 (env st)) as [[e1|siz] w1] eqn:E1.
  - intros E; inversion E; subst; clear E.
    pose proof (exn_of_sock_err_not_ioerror e1) as Hn.
    assert (Hc : forall h', is_closed h' w1 = is_closed h' (env st)).
    { intros h'. rewrite <- (sock_recv_closed h 4 (env st) h'). now rewrite E1. }
    destruct (exn_of_sock_err e1); simpl; tauto || exact Hc.
  - assert (Hc1 : forall h', is_closed h' w1 = is_closed h' (env st)).
    { intros h'. rewrite <- (sock_recv_closed h 4 (env st) h'). now rewrite E1. }
    assert (Hw1 : is_wrapped h w1 = ssl_enable (self st)).
    { rewrite <- Hw, <- (sock_recv_wrapped h 4 (env st) h). now rewrite E1. }
    unfold read_payload. destruct (is_empty siz).
    + unfold bind. rewrite (attached_close st h w1 Ha). unfold raise.
      intros E; inversion E; subst; clear E. simpl. intros Hssl.
      apply sock_close_closes; [|congruence].
      eapply sock_recv_inr_live; eassumption.
    + unfold bind at 1.
      destruct (struct_unpack_I siz) as [total|]; simpl.
      2:{ intros E; inversion E; subst; clear E. exact Hc1. }
      unfold bind at 1, io. simpl.
      destruct (sock_recv h (total - 4) w1) as [[e2|data] w2] eqn:E2.
      * intros E; inversion E; subst; clear E.
        pose proof (exn_of_sock_err_not_ioerror e2) as Hn.
        assert (Hc : forall h', is_closed h' w2 = is_closed h' (env st)).
        { intros h'. rewrite <- Hc1, <- (sock_recv_closed h (total - 4) w1 h').
          now rewrite E2. }
        destruct (exn_of_sock_err e2); simpl; tauto || exact Hc.
      * destruct (is_empty data).
        -- unfold bind. rewrite (attached_close st h w2 Ha). unfold raise.
           intros E; inversion E; subst; clear E. simpl. intros Hssl.
           apply sock_close_closes.
           ++ eapply sock_recv_inr_live; eassumption.
           ++ rewrite <- Hssl, <- Hw1,
                <- (sock_recv_wrapped h (total - 4) w1 h). now rewrite E2.
        -- discriminate.
Qed.

Lemma close_self st : self (snd (close st)) = self st.
Proof. rewrite close_run. now destruct (_sock (self st)). Qed.


Lemma attached_sock c h :
  attached c h -> exists s, sock c = Some s /\ fileno s = h.
Proof.
  intros [_ Hs]. rewrite Hs. destruct (ssl_enable c); eauto.
Qed.

Lemma len_pos p : p <> [] -> 0 < len p.
Proof. unfold len. destruct p; [congruence | simpl; lia]. Qed.

(** A receive of [n > 0] bytes on an open socket whose next segment is
    not empty: one call hands over the first [n] bytes of that segment
    and no more, even if later segments are waiting. *)
Lemma sock_recv_segment h n w s bs q :
  socks w !! h = Some s -> closed s = false -> connected s = true ->
  inbox s = Segment bs :: q -> bs <> [] -> 0 < n ->
  sock_recv h n w
  = (inr (take (Z.to_nat n) bs),
     set_sock h
       (with_inbox (match drop (Z.to_nat n) bs with
                    | [] => q
                    | rest => Segment rest :: q
                    end) s)
       (emit (EvRecv h n) w)).
Proof.
  intros Hs Hc Hn Hq Hbs Hpos. unfold sock_recv. simpl.
  rewrite Hs, Hc, Hn, Hq. simpl.
  destruct (Z.ltb_spec n 0); [lia|].
  destruct (Z.eqb_spec n 0); [lia|].
  destruct bs; [congruence | reflexivity].
Qed.


(** What a frame write that succeeds puts on the wire. *)
Lemma write_ok_wire p st st' h :
  attached (self st) h ->
  write p st = (Ok tt, st') ->
  wire_of h (env st') = wire_of h (env st) ++ frame p /\
  0 <= 4 + len p < 2 ^ 32 /\
  trace (env st') = trace (env st) ++ [EvSend h (frame p) true] /\
  self st' = self st.
Proof.
  intros Ha. rewrite write_run, writemeth_run, (attached_recvmeth _ _ Ha). simpl.
  destruct (struct_pack_I (4 + len p)) as [hdr|] eqn:Hp; [|discriminate].
  apply struct_pack_I_Some in Hp as [-> Hr].
  fold (frame p). unfold io, sock_sendall, wire_of.
  destruct (socks (env st) !! h) as [s|] eqn:Hs; [|discriminate].
  assert (Hlt : (h < length (socks (env st)))%nat)
    by (eapply lookup_lt_Some; eassumption).
  destruct (closed s); [discriminate|].
  destruct (connected s); [|discriminate]. simpl.
  destruct (send_script s) as [|[|k] script]; intros E; inversion E; subst;
    simpl; rewrite list_lookup_insert_eq by assumption; simpl; auto.
Qed.

(** X18.  For a payload that is not empty, written with
    success as one frame on a connection that carried nothing before: a
    frame read on a stream that holds exactly the bytes written returns
    the payload unchanged, provided each of the two receive calls of the
    read finds all the bytes it asks for in one segment (the whole frame
    arrives as one segment, or the header as one and the payload as the
    next).  The read makes exactly one receive call for the four header
    bytes and one for the payload. *)
Theorem read_write_roundtrip_unfragmented p stw stw' hw str hr :
  attached (self stw) hw ->
  wire_of hw (env stw) = [] ->
  write p stw = (Ok tt, stw') ->
  p <> [] ->
  attached (self str) hr ->
  live hr (env str) ->
  inbox_of hr (env str) = [Segment (wire_of hw (env stw'))] \/
  inbox_of hr (env str) = [Segment (take 4 (wire_of hw (env stw')));
                           Segment (drop 4 (wire_of hw (env stw')))] ->
  fst (read str) = Ok p /\
  trace (env (snd (read str)))
  = trace (env str) ++ [EvRecv hr 4; EvRecv hr (len p)] /\
  inbox_of hr (env (snd (read str))) = [].
Proof.
  intros Haw Hw0 Hw Hp Har (s & Hs & Hc & Hn) Hin.
  destruct (write_ok_wire _ _ _ _ Haw Hw) as (Hwire & Hrange & _ & _).
  rewrite Hw0 in Hwire. simpl in Hwire. rewrite Hwire in Hin. clear Hwire.
  pose proof (len_pos p Hp) as Hlen.
  assert (Hlt : (hr < length (socks (env str)))%nat)
    by (eapply lookup_lt_Some; eassumption).
  unfold inbox_of in Hin. rewrite Hs in Hin.
  (* the header read: both ways of arriving leave the payload as the
     next segment *)
  assert (H1 : sock_recv hr 4 (env str)
               = (inr (be32 (4 + len p)),
                  set_sock hr (with_inbox [Segment p] s)
                    (emit (EvRecv hr 4) (env str)))).
  { destruct Hin as [Hin|Hin].
    - rewrite (sock_recv_segment hr 4 (env str) s (frame p) []); auto;
        try lia.
      change (Z.to_nat 4) with (length (be32 (4 + len p))). unfold frame.
      rewrite take_app_length, drop_app_length.
      destruct p; [congruence | reflexivity].
    - unfold frame in Hin.
      change 4%nat with (length (be32 (4 + len p))) in Hin.
      rewrite take_app_length, drop_app_length in Hin.
      rewrite (sock_recv_segment hr 4 (env str) s (be32 (4 + len p))
                 [Segment p]); auto; try lia. }
  (* the payload read *)
  assert (H2 : sock_recv hr (len p)
                 (set_sock hr (with_inbox [Segment p] s)
                    (emit (EvRecv hr 4) (env str)))
               = (inr p,
                  set_sock hr (with_inbox [] (with_inbox [Segment p] s))
                    (emit (EvRecv hr (len p))
                       (set_sock hr (with_inbox [Segment p] s)
                          (emit (EvRecv hr 4) (env str)))))).
  { rewrite (sock_recv_segment hr (len p) _ (with_inbox [Segment p] s) p []);
      auto; try (simpl; now apply list_lookup_insert_eq).
    unfold len. now rewrite Nat2Z.id, firstn_all, skipn_all. }
  assert (Hread : read str
            = (Ok p,
               {| self := self str;
                  env := set_sock hr (with_inbox [] (with_inbox [Segment p] s))
                           (emit (EvRecv hr (len p))
                              (set_sock hr (with_inbox [Segment p] s)
                                 (emit (EvRecv hr 4) (env str)))) |})).
  { rewrite read_run, (attached_recvmeth _ _ Har). simpl.
    rewrite H1. unfold read_payload.
    change (is_empty (be32 (4 + len p))) with false. cbv iota.
    unfold bind, of_option, ret, io. rewrite (unpack_be32 _ Hrange). simpl.
    replace (4 + len p - 4) with (len p) by lia.
    rewrite H2.
    now assert (is_empty p = false) as ->
        by (destruct p; [congruence|reflexivity]). }
  rewrite Hread. simpl. split; [reflexivity|]. split.
  - now rewrite <- app_assoc.
  - unfold inbox_of. simpl.
    rewrite list_lookup_insert_eq; [reflexivity|].
    now rewrite length_insert.
Qed.

(* --------------------------------------------------------------------- *)
(** *** [write_many] *)
(* --------------------------------------------------------------------- *)

Lemma str_join_app a b :
  str_join (a ++ b) =
  match str_join a, str_join b with
  | Some x, Some y => Some (x ++ y)
  | _, _ => None
  end.
Proof.
  induction a as [|[s|d] a IH]; simpl.
  - now destruct (str_join b).
  - rewrite IH. destruct (str_join a), (str_join b); simpl; try reflexivity.
    now rewrite app_assoc.
  - reflexivity.
Qed.

(** Filling the buffer touches neither the client nor the world. *)
Lemma write_many_buf_state docs : forall buf st,
  snd (write_many_buf docs buf st) = st.
Proof.
  induction docs as [|doc docs IH]; intros buf st; [reflexivity|].
  simpl. unfold bind at 1.
  destruct doc as [s|d]; simpl.
  - unfold bind at 1.
    destruct (struct_pack_I (4 + len s)); simpl; [apply IH | reflexivity].
  - destruct (doc_len d) as [n|]; simpl; [|reflexivity].
    unfold bind at 1.
    destruct (struct_pack_I (4 + n)); simpl; [apply IH | reflexivity].
Qed.

(** What the buffer joins to when it was filled without exception: the
    frames of the documents if all of them are strings; nothing, since
    the join raises, as soon as one is a document object. *)
Lemma write_many_buf_ok docs : forall buf st b,
  fst (write_many_buf docs buf st) = Ok b ->
  exists tail, b = buf ++ tail /\
    str_join tail = if all_str docs then Some (frames docs) else None.
Proof.
  induction docs as [|doc docs IH]; intros buf st b.
  - simpl. intros E; inversion E; subst. exists []. now rewrite app_nil_r.
  - simpl. unfold bind at 1.
    destruct doc as [s|d]; simpl.
    + unfold bind at 1.
      destruct (struct_pack_I (4 + len s)) as [hdr|] eqn:Hp; simpl;
        [|discriminate].
      apply struct_pack_I_Some in Hp as [-> _].
      intros E. apply IH in E as (tail & -> & Hj).
      exists ([inl (be32 (4 + len s)); inl s] ++ tail).
      split; [now rewrite <- app_assoc|].
      simpl. rewrite Hj. unfold frames. simpl. unfold frame.
      destruct (all_str docs); simpl; [|reflexivity].
      f_equal.
    + destruct (doc_len d) as [n|]; simpl; [|discriminate].
      unfold bind at 1.
      destruct (struct_pack_I (4 + n)) as [hdr|]; simpl; [|discriminate].
      intros E. apply IH in E as (tail & -> & _).
      exists ([inl hdr; inr d] ++ tail).
      split; [now rewrite <- app_assoc | reflexivity].
Qed.

Lemma write_many_run docs st :
  write_many docs st =
  match fst (writemeth st) with
  | Raise e => (Raise e, st)
  | Ok h =>
      match fst (write_many_buf docs [] st) with
      | Raise e => (Raise e, st)
      | Ok b =>
          match str_join b with
          | None => (Raise TypeError, st)
          | Some data => io (sock_sendall h data) st
          end
      end
  end.
Proof.
  unfold write_many, bind at 1. rewrite writemeth_run, recvmeth_run. simpl.
  destruct (sock (self st)) as [[h|h]|]; try reflexivity;
    try destruct (ssl_enable (self st)); try reflexivity;
    unfold bind at 1;
    pose proof (write_many_buf_state docs [] st) as Hst;
    destruct (write_many_buf docs [] st) as [[b|e] st0]; simpl in *; subst;
    try reflexivity; unfold bind;
    destruct (str_join b); reflexivity.
Qed.

(** A document object in the list: [write_many] raises before anything
    is handed to the socket. *)
Lemma write_many_docobj docs st :
  all_str docs = false -> exists e, write_many docs st = (Raise e, st).
Proof.
  intros Hd. rewrite write_many_run.
  destruct (fst (writemeth st)) as [h|e]; [|eauto].
  destruct (fst (write_many_buf docs [] st)) as [b|e] eqn:Hb; [|eauto].
  apply write_many_buf_ok in Hb as (tail & -> & Hj).
  rewrite Hd in Hj. simpl. rewrite Hj. eauto.
Qed.

(** When [write_many] reaches the socket, it does so once, with the
    frames of all the documents. *)
Lemma write_many_cases docs st :
  (exists e, write_many docs st = (Raise e, st)) \/
  (exists h, write_many docs st = io (sock_sendall h (frames docs)) st /\
             all_str docs = true).
Proof.
  rewrite write_many_run.
  destruct (fst (writemeth st)) as [h|e]; [|eauto].
  destruct (fst (write_many_buf docs [] st)) as [b|e] eqn:Hb; [|eauto].
  apply write_many_buf_ok in Hb as (tail & -> & Hj). simpl.
  destruct (all_str docs); rewrite Hj; eauto.
Qed.

Lemma io_sendall_trace h data st :
  trace (env (snd (io (sock_sendall h data) st)))
  = trace (env st)
    ++ [EvSend h data
          (match fst (io (sock_sendall h data) st) with
           | Ok _ => true
           | Raise _ => false
           end)].
Proof.
  rewrite io_env, io_fst, sock_sendall_trace.
  now destruct (fst (sock_sendall h data (env st))).
Qed.

(** The pipelined send phase never makes more than one write call, and
    a write call it makes carries the frames of all the documents. *)
Lemma pipeline_at_most_one_write docs failfast st :
  trace (env (snd (send_phase docs failfast true st))) = trace (env st) \/
  exists h ok,
    trace (env (snd (send_phase docs failfast true st)))
    = trace (env st) ++ [EvSend h (frames docs) ok].
Proof.
  unfold send_phase.
  destruct (write_many_cases docs st) as [(e & ->) | (h & -> & _)].
  - left. now destruct failfast.
  - right. pose proof (io_sendall_trace h (frames docs) st) as Ht.
    destruct (io (sock_sendall h (frames docs)) st) as [[[]|e] st1];
      simpl in *; [|destruct failfast]; eauto.
Qed.

(** C6.  When the write of [write_many] succeeds, the pipelined send
    phase has made exactly one write call, carrying the frames of all
    the documents one after the other in the order of the list, and it
    records [sent = len(docs)]. *)
Theorem pipeline_one_write docs failfast st st1 :
  write_many docs st = (Ok tt, st1) ->
  send_phase docs failfast true st = (Ok (length docs), st1) /\
  exists h,
    trace (env st1) = trace (env st) ++ [EvSend h (frames docs) true] /\
    log (env st1) = log (env st).
Proof.
  intros Hw. split.
  - unfold send_phase. now rewrite Hw.
  - destruct (write_many_cases docs st) as [(e & He) | (h & Hio & _)].
    + rewrite He in Hw. discriminate.
    + exists h. rewrite Hio in Hw.
      pose proof (io_sendall_trace h (frames docs) st) as Ht.
      pose proof (io_env (sock_sendall h (frames docs)) st) as He.
      rewrite Hw in Ht, He. simpl in Ht, He. split; [exact Ht|].
      rewrite He. unfold sock_sendall.
      destruct (socks (env st) !! h) as [s|]; [|reflexivity].
      destruct (closed s); [reflexivity|].
      destruct (connected s); [|reflexivity]. simpl.
      now destruct (send_script s) as [|[|k] script].
Qed.

(* --------------------------------------------------------------------- *)
(** *** The send phase of [batchsend] *)
(* --------------------------------------------------------------------- *)

Lemma written_ok_app a b : written_ok (a ++ b) = written_ok a ++ written_ok b.
Proof.
  induction a as [|e a IH]; [reflexivity|].
  destruct e as [| | | |h data [|]|]; simpl; rewrite IH; try reflexivity.
  now rewrite app_assoc.
Qed.

Lemma sock_sendall_log h data w : log (snd (sock_sendall h data w)) = log w.
Proof.
  unfold sock_sendall.
  destruct (socks w !! h) as [s|]; [|reflexivity].
  destruct (closed s); [reflexivity|].
  destruct (connected s); [|reflexivity]. simpl.
  now destruct (send_script s) as [|[|k] script].
Qed.

(** The calls of one write on the socket: none when it raises before
    reaching the socket, else one write call with the frame; never a
    receive.  The log is not written to. *)
Lemma write_events data st :
  exists evs,
    trace (env (snd (write data st))) = trace (env st) ++ evs /\
    Forall (fun e => is_recv e = false) evs /\
    written_ok evs = match fst (write data st) with
                     | Ok _ => frame data
                     | Raise _ => []
                     end /\
    log (env (snd (write data st))) = log (env st).
Proof.
  rewrite write_run.
  destruct (fst (writemeth st)) as [h|e].
  2:{ exists []. rewrite app_nil_r. repeat split; auto. }
  destruct (struct_pack_I (4 + len data)) as [hdr|] eqn:Hp.
  2:{ exists []. rewrite app_nil_r. repeat split; auto. }
  apply struct_pack_I_Some in Hp as [-> _]. fold (frame data).
  eexists. split; [apply io_sendall_trace|].
  split; [repeat constructor|]. split.
  - destruct (fst (io (sock_sendall h (frame data)) st));
      [apply (app_nil_r (frame data)) | reflexivity].
  - rewrite io_env. apply sock_sendall_log.
Qed.


(** The loop of single writes: [sent] counts the frames written, which
    are those of the first documents; the loop ends without exception
    only after the last one. *)
Lemma write_each_spec docs : forall sent st,
  exists k evs,
    fst (fst (write_each docs sent st)) = (sent + k)%nat /\
    (k <= length docs)%nat /\
    (snd (fst (write_each docs sent st)) = None -> k = length docs) /\
    trace (env (snd (write_each docs sent st))) = trace (env st) ++ evs /\
    Forall (fun e => is_recv e = false) evs /\
    written_ok evs = frames (take k docs) /\
    log (env (snd (write_each docs sent st))) = log (env st).
Proof.
  induction docs as [|d docs IH]; intros sent st.
  - exists 0%nat, []. simpl. rewrite app_nil_r. repeat split; auto; lia.
  - simpl.
    destruct (write_events (py_str d) st) as (ev1 & Ht1 & Hr1 & Hw1 & Hl1).
    destruct (write (py_str d) st) as [[[]|e] st1]; simpl in *.
    + destruct (IH (S sent) st1) as (k & evs & Hk & Hle & Hn & Ht & Hr & Hw & Hl).
      exists (S k), (ev1 ++ evs). rewrite Hk, Ht, Ht1, Hl, Hl1.
      split; [lia|]. split; [lia|].
      split; [intros E; f_equal; auto|].
      split; [now rewrite app_assoc|].
      split; [now apply Forall_app|].
      split; [|reflexivity].
      rewrite written_ok_app, Hw1, Hw. reflexivity.
    + exists 0%nat, ev1. rewrite Ht1, Hl1.
      repeat split; auto; try lia; discriminate.
Qed.

(** The send phase: never a receive; the count it returns is the number
    of frames written with success; it raises only under [failfast]. *)
Lemma send_phase_spec docs failfast pipeline st :
  exists evs,
    trace (env (snd (send_phase docs failfast pipeline st)))
    = trace (env st) ++ evs /\
    Forall (fun e => is_recv e = false) evs /\
    match fst (send_phase docs failfast pipeline st) with
    | Ok n => (n <= length docs)%nat /\ written_ok evs = frames (take n docs)
    | Raise _ => failfast = true
    end.
Proof.
  unfold send_phase. destruct pipeline.
  - destruct (write_many_cases docs st) as [(e & ->) | (h & -> & _)].
    + exists []. simpl. rewrite app_nil_r.
      destruct failfast; simpl; repeat split; auto; lia.
    + pose proof (io_sendall_trace h (frames docs) st) as Ht.
      destruct (io (sock_sendall h (frames docs)) st) as [[[]|e] st1];
        simpl in *; eexists.
      * split; [exact Ht|]. split; [repeat constructor|].
        split; [lia|]. simpl. now rewrite firstn_all, app_nil_r.
      * destruct failfast; simpl; (split; [exact Ht|]);
          (split; [repeat constructor|]); auto.
        split; [lia | reflexivity].
  - destruct (write_each_spec docs 0 st)
      as (k & evs & Hk & Hle & Hn & Ht & Hr & Hw & Hl).
    destruct (write_each docs 0 st) as [[n [e|]] st1]; simpl in *; subst n.
    + exists evs. destruct failfast; simpl; repeat split; auto.
    + exists evs. repeat split; auto.
Qed.

(** C8.  With [readresponse] false, [batchsend] makes no receive call
    at all, whatever the documents and the other flags; when it returns,
    it returns the integer [sent], and the bytes of the write calls that
    succeeded are the frames of the first [sent] documents.  It raises
    only under [failfast]. *)
Theorem batchsend_fire_and_forget docs failfast pipeline st :
  exists evs,
    trace (env (snd (batchsend docs false failfast pipeline st)))
    = trace (env st) ++ evs /\
    Forall (fun e => is_recv e = false) evs /\
    match fst (batchsend docs false failfast pipeline st) with
    | Ok (BatchSent n) =>
        (n <= length docs)%nat /\ written_ok evs = frames (take n docs)
    | Ok (BatchOut _) => False
    | Raise _ => failfast = true
    end.
Proof.
  destruct (send_phase_spec docs failfast pipeline st) as (evs & Ht & Hr & Hres).
  exists evs. unfold batchsend, bind.
  destruct (send_phase docs failfast pipeline st) as [[n|e] st1]; simpl in *;
    auto.
Qed.

(** Writes that succeed and then one that fails: the loop stops there,
    with as many counted as succeeded. *)
Lemma write_each_partial pre d post e st st1 st2 :
  writes_ok pre st st1 ->
  write (py_str d) st1 = (Raise e, st2) ->
  forall sent,
    write_each (pre ++ d :: post) sent st
    = (((sent + length pre)%nat, Some e), st2).
Proof.
  intros Hpre Hd. induction Hpre as [st|d0 ds st st' st1 Hw Hok IH];
    intros sent; simpl.
  - rewrite Hd. now rewrite Nat.add_0_r.
  - rewrite Hw, (IH Hd).
    now replace (S sent + length ds)%nat with (sent + S (length ds))%nat by lia.
Qed.

Lemma recv_phase_returns n st : exists out, fst (recv_phase n st) = Ok out.
Proof.
  unfold recv_phase.
  destruct (read_each n [] 0 st) as [[[out recved] [e|]] st1]; simpl; eauto.
Qed.

(** Under [failfast], an exception out of [batchsend] comes from the
    send phase. *)
Lemma batchsend_raise_in_send_phase docs readresponse pipeline st e :
  fst (batchsend docs readresponse true pipeline st) = Raise e ->
  batchsend docs readresponse true pipeline st
  = (Raise e, snd (send_phase docs true pipeline st)).
Proof.
  unfold batchsend, bind.
  destruct (send_phase docs true pipeline st) as [[n|e0] st1]; simpl.
  - destruct readresponse; simpl; [|discriminate].
    destruct (recv_phase_returns n st1) as (out & Ho).
    destruct (recv_phase n st1) as [[o|e1] st2]; simpl in *; discriminate.
  - now intros [= ->].
Qed.

(** When the loop of single writes ends with an exception, the write of
    one document has raised it after the writes of all the documents
    before it had succeeded. *)
Lemma write_each_fails_inv docs : forall sent st n e st2,
  write_each docs sent st = ((n, Some e), st2) ->
  exists pre d post st1,
    docs = pre ++ d :: post /\
    writes_ok pre st st1 /\
    write (py_str d) st1 = (Raise e, st2) /\
    n = (sent + length pre)%nat.
Proof.
  induction docs as [|d docs IH]; intros sent st n e st2; simpl.
  - discriminate.
  - destruct (write (py_str d) st) as [[[]|e0] st1] eqn:Hw.
    + intros Hrest.
      destruct (IH _ _ _ _ _ Hrest) as (pre & d' & post & st1' & -> & Hpre & Hd & ->).
      exists (d :: pre), d', post, st1'. simpl.
      split; [reflexivity|]. split; [econstructor; eassumption|].
      split; [exact Hd | lia].
    + intros [= <- <- <-]. exists [], d, docs, st. simpl.
      split; [reflexivity|]. split; [constructor|]. split; [exact Hw | lia].
Qed.

(** What a send phase that fails leaves behind, under [failfast]: the
    exception, the log record with the count of documents sent, no
    receive call, and on the wire the frames of the documents sent. *)
Lemma send_phase_fails docs pipeline st sent e st2 :
  send_fails docs st pipeline sent e st2 ->
  send_phase docs true pipeline st
  = (Raise e, logged (LogFailedSend sent (length docs)) st2) /\
  log (env st2) = log (env st) /\
  exists evs,
    trace (env st2) = trace (env st) ++ evs /\
    Forall (fun ev => is_recv ev = false) evs /\
    written_ok evs = frames (take sent docs).
Proof.
  intros [pre d post st1 e' st2' -> Hpre Hd | e' st2' Hm]; unfold send_phase.
  - pose proof (write_each_partial pre d post e' st st1 st2' Hpre Hd 0%nat)
      as Hrun.
    destruct (write_each_spec (pre ++ d :: post) 0 st)
      as (k & evs & Hk & _ & _ & Ht & Hr & Hw & Hl).
    rewrite Hrun in Hk, Ht, Hl. simpl in Hk, Ht, Hl. subst k.
    rewrite Hrun. simpl. split; [reflexivity|]. split; [exact Hl|].
    exists evs. auto.
  - rewrite Hm. split; [reflexivity|].
    destruct (write_many_cases docs st) as [(e0 & Hc) | (h & Hc & _)];
      rewrite Hc in Hm.
    + injection Hm as _ <-. split; [reflexivity|].
      exists []. rewrite app_nil_r. auto.
    + pose proof (io_sendall_trace h (frames docs) st) as Ht.
      pose proof (io_env (sock_sendall h (frames docs)) st) as He.
      rewrite Hm in Ht, He. simpl in Ht, He. split.
      * rewrite He. apply sock_sendall_log.
      * eexists. split; [exact Ht|]. split; [repeat constructor|].
        reflexivity.
Qed.

(** Under [failfast], an exception out of [batchsend] is the failure of
    a write in the send phase. *)
Lemma batchsend_raise_is_write_failure docs readresponse pipeline st e :
  fst (batchsend docs readresponse true pipeline st) = Raise e ->
  exists sent st2, send_fails docs st pipeline sent e st2.
Proof.
  intros Hraise.
  pose proof (batchsend_raise_in_send_phase _ _ _ _ _ Hraise) as Hrun.
  assert (Hs : fst (send_phase docs true pipeline st) = Raise e).
  { revert Hraise. unfold batchsend, bind.
    destruct (send_phase docs true pipeline st) as [[n|e0] st1]; simpl.
    - destruct readresponse; simpl; [|discriminate].
      destruct (recv_phase_returns n st1) as (out & Ho).
      destruct (recv_phase n st1) as [[o|e1] st3]; simpl in *; discriminate.
    - now intros [= ->]. }
  clear Hrun. revert Hs. unfold send_phase. destruct pipeline.
  - destruct (write_many docs st) as [[[]|e0] st1] eqn:Hm; simpl;
      [discriminate|].
    intros [= ->]. exists 0%nat, st1. now constructor.
  - destruct (write_each docs 0 st) as [[n [e0|]] st1] eqn:Hw; simpl;
      [|discriminate].
    intros [= ->].
    destruct (write_each_fails_inv _ _ _ _ _ _ Hw)
      as (pre & d & post & st0 & -> & Hpre & Hd & ->).
    exists (length pre), st1. econstructor; eauto.
Qed.

(** The scenario of three documents: the write of the first succeeds,
    the write of the second raises. *)
Lemma second_of_three_fails A B C st st1 e st2 :
  write (py_str A) st = (Ok tt, st1) ->
  write (py_str B) st1 = (Raise e, st2) ->
  send_fails [A; B; C] st false 1 e st2.
Proof.
  intros HA HB.
  apply (plain_write_fails [A; B; C] st [A] B [C] st1 e st2);
    [reflexivity | | exact HB].
  econstructor; [exact HA | constructor].
Qed.

(** C9.  Under [failfast], a write that fails in the send phase, the
    write of one document of a plain send after [sent] documents have
    been written, or the one write of a pipelined send, makes
    [batchsend] raise that exception at once: the log records [sent] of
    the documents as sent, the documents after the failing one are not
    written, and no receive call is made.  So for [A; B; C] in a plain
    send, when the write of [B] raises after that of [A] has succeeded,
    [batchsend] raises with 1 of 3 sent.  Conversely, whenever
    [batchsend] raises under [failfast], a write of the send phase has
    failed with that exception and no receive call has been made. *)
Theorem batchsend_failfast_write_failure docs readresponse pipeline st sent
  e st2 :
  send_fails docs st pipeline sent e st2 ->
  batchsend docs readresponse true pipeline st
  = (Raise e, logged (LogFailedSend sent (length docs)) st2) /\
  log (env (logged (LogFailedSend sent (length docs)) st2))
  = log (env st) ++ [LogFailedSend sent (length docs)] /\
  (exists evs,
      trace (env (logged (LogFailedSend sent (length docs)) st2))
      = trace (env st) ++ evs /\
      Forall (fun ev => is_recv ev = false) evs /\
      written_ok evs = frames (take sent docs)) /\
  (forall A B C st1 e1 st3,
      write (py_str A) st = (Ok tt, st1) ->
      write (py_str B) st1 = (Raise e1, st3) ->
      batchsend [A; B; C] readresponse true false st
      = (Raise e1, logged (LogFailedSend 1 3) st3)) /\
  (forall docs' pipeline' e',
      fst (batchsend docs' readresponse true pipeline' st) = Raise e' ->
      (exists sent' st2', send_fails docs' st pipeline' sent' e' st2') /\
      exists evs,
        trace (env (snd (batchsend docs' readresponse true pipeline' st)))
        = trace (env st) ++ evs /\
        Forall (fun ev => is_recv ev = false) evs).
Proof.
  intros Hf.
  destruct (send_phase_fails _ _ _ _ _ _ Hf) as (Hsend & Hl & evs & Ht & Hr & Hw).
  split; [|split; [|split; [|split]]].
  - unfold batchsend, bind. now rewrite Hsend.
  - simpl. now rewrite Hl.
  - exists evs. auto.
  - intros A B C st1 e1 st3 HA HB.
    pose proof (second_of_three_fails A B C st st1 e1 st3 HA HB) as Hf'.
    destruct (send_phase_fails _ _ _ _ _ _ Hf') as (Hsend' & _).
    unfold batchsend, bind. now rewrite Hsend'.
  - intros docs' pipeline' e' Hraise. split.
    + eapply batchsend_raise_is_write_failure; eassumption.
    + rewrite (batchsend_raise_in_send_phase _ _ _ _ _ Hraise). simpl.
      destruct (send_phase_spec docs' true pipeline' st) as (evs' & Ht' & Hr' & _).
      eauto.
Qed.

(* --------------------------------------------------------------------- *)
(** *** The receive phase of [batchsend] *)
(* --------------------------------------------------------------------- *)

(** Responses read and parsed with success are appended in the order
    they came, and counted. *)
Lemma read_each_reads_ok st rs st3 :
  reads_ok st rs st3 ->
  forall n out recved,
    read_each (length rs + n) out recved st
    = read_each n (out ++ map Some rs) (recved + length rs) st3.
Proof.
  induction 1 as [st|st r resp st1 rs st2 Hr Hx Hok IH]; intros n out recved.
  - simpl. now rewrite app_nil_r, Nat.add_0_r.
  - simpl. rewrite Hr, Hx, IH, <- app_assoc. simpl.
    now replace (S (recved + length rs)) with (recved + S (length rs))%nat
      by lia.
Qed.

(** A response that cannot be had ends the loop where it stands. *)
Lemma read_each_fails st n out recved :
  read_fails st ->
  exists e st', read_each (S n) out recved st = ((out, recved, Some e), st').
Proof.
  intros [(e & He) | (r & Hr & Hx)]; simpl;
    destruct (read st) as [[r'|e'] st']; simpl in *; try discriminate.
  - inversion He; subst. eauto.
  - inversion Hr; subst. rewrite Hx. eauto.
Qed.

(** The list that [recv_phase] returns: the responses had, then [None]
    up to the number of documents sent. *)
Lemma recv_phase_pads sent st1 rs st3 :
  reads_ok st1 rs st3 ->
  (length rs <= sent)%nat ->
  ((length rs < sent)%nat -> read_fails st3) ->
  fst (recv_phase sent st1)
  = Ok (map Some rs ++ repeat None (sent - length rs)).
Proof.
  intros Hok Hle Hfail. unfold recv_phase.
  replace sent with (length rs + (sent - length rs))%nat at 1 by lia.
  rewrite (read_each_reads_ok _ _ _ Hok). simpl.
  destruct (sent - length rs)%nat as [|m] eqn:Hm.
  - simpl. now rewrite app_nil_r.
  - destruct (read_each_fails st3 m (map Some rs) (length rs)) as (e & st' & ->);
      [apply Hfail; lia|].
    simpl. rewrite length_map, Hm. reflexivity.
Qed.

(** C4.  [batchsend] without [failfast], responses wanted.  Let the send
    phase end with [sent] documents sent; if it is the plain send and
    the write of document K fails after K-1 writes that succeeded, then
    [sent = K-1].  Let R responses be read and parsed after it, and the
    next one fail if R is less than [sent].  Then the list returned has
    exactly [sent] entries: the R responses in the order of the
    requests, then [sent - R] times [None]. *)
Theorem batchsend_positional docs pipeline st sent st1 rs st3 :
  send_phase docs false pipeline st = (Ok sent, st1) ->
  reads_ok st1 rs st3 ->
  (length rs <= sent)%nat ->
  ((length rs < sent)%nat -> read_fails st3) ->
  (forall pre d post e st' st'',
      pipeline = false -> docs = pre ++ d :: post ->
      writes_ok pre st st' -> write (py_str d) st' = (Raise e, st'') ->
      sent = length pre /\
      st1 = logged (LogFailedSend (length pre) (length docs)) st'') /\
  fst (batchsend docs true false pipeline st)
  = Ok (BatchOut (map Some rs ++ repeat None (sent - length rs))) /\
  length (map Some rs ++ repeat None (sent - length rs)) = sent.
Proof.
  intros Hsend Hok Hle Hfail. split; [|split].
  - intros pre d post e st' st'' -> -> Hpre Hd.
    unfold send_phase in Hsend.
    rewrite (write_each_partial pre d post e st st' st'' Hpre Hd) in Hsend.
    simpl in Hsend. inversion Hsend; subst. auto.
  - unfold batchsend, bind. rewrite Hsend. simpl.
    pose proof (recv_phase_pads sent st1 rs st3 Hok Hle Hfail) as Hr.
    destruct (recv_phase sent st1) as [[out|e] st4]; simpl in *;
      [now inversion Hr | discriminate].
  - rewrite length_app, length_map, repeat_length. lia.
Qed.

(** Whatever happens, [batchsend] without [failfast] returns a list
    with one entry for each document sent. *)
Lemma batchsend_slots docs pipeline st :
  exists sent out,
    fst (send_phase docs false pipeline st) = Ok sent /\
    fst (batchsend docs true false pipeline st) = Ok (BatchOut out) /\
    length out = sent.
Proof.
  assert (Hlen : forall n out recved s,
            let r := read_each n out recved s in
            (length (fst (fst (fst r))) <= length out + n)%nat /\
            (snd (fst r) = None ->
             length (fst (fst (fst r))) = (length out + n)%nat)).
  { induction n as [|n IH]; intros out recved s; simpl.
    - split; lia.
    - destruct (read s) as [[r|e] s1]; simpl; [|split; [lia|discriminate]].
      destruct (from_xml r) as [resp|]; simpl; [|split; [lia|discriminate]].
      specialize (IH (out ++ [Some resp]) (S recved) s1). simpl in IH.
      rewrite length_app in IH. simpl in IH.
      destruct IH as [IH1 IH2]. split; [lia|]. intros E. rewrite (IH2 E). lia. }
  pose proof (send_phase_spec docs false pipeline st) as (evs & _ & _ & Hres).
  unfold batchsend, bind.
  destruct (send_phase docs false pipeline st) as [[sent|e] st1]; simpl in *;
    [|discriminate].
  unfold recv_phase. specialize (Hlen sent [] 0%nat st1). simpl in Hlen.
  destruct (read_each sent [] 0 st1) as [[[out recved] [e|]] st2];
    simpl in *; destruct Hlen as [H1 H2]; eexists _, _;
    (split; [reflexivity|]); (split; [reflexivity|]).
  - rewrite length_app, repeat_length. lia.
  - now apply H2.
Qed.

(* --------------------------------------------------------------------- *)
(** *** Calls made and exceptions raised, by composition *)
(* --------------------------------------------------------------------- *)

Lemma emits_bind {A B} P (m : M A) (k : A -> M B) :
  emits P m -> (forall a, emits P (k a)) -> emits P (bind m k).
Proof.
  intros Hm Hk st. unfold bind.
  destruct (Hm st) as (ev1 & Ht1 & Hp1).
  destruct (m st) as [[a|e] st1]; simpl in *.
  - destruct (Hk a st1) as (ev2 & Ht2 & Hp2).
    exists (ev1 ++ ev2). rewrite Ht2, Ht1, app_assoc.
    split; [reflexivity | now apply Forall_app].
  - eauto.
Qed.

Lemma emits_silent {A} P (m : M A) :
  (forall st, trace (env (snd (m st))) = trace (env st)) -> emits P m.
Proof. intros Hm st. exists []. rewrite Hm, app_nil_r. auto. Qed.

Lemma emits_one {A} P (m : M A) e :
  (forall st, trace (env (snd (m st))) = trace (env st) ++ [e]) ->
  P e -> emits P m.
Proof. intros Hm He st. exists [e]. rewrite Hm. auto. Qed.

Lemma emits_ret {A} P (a : A) : emits P (ret a).
Proof. now apply emits_silent. Qed.

Lemma emits_raise {A} P e : emits P (@raise _ A e).
Proof. now apply emits_silent. Qed.

Lemma emits_get_self P : emits P get_self.
Proof. now apply emits_silent. Qed.

Lemma emits_set_self P f : emits P (set_self f).
Proof. now apply emits_silent. Qed.

Lemma emits_of_option {A} P e (o : option A) : emits P (of_option e o).
Proof. apply emits_silent. now destruct o. Qed.

Lemma emits_log P r : emits P (on_world (log_append r)).
Proof. now apply emits_silent. Qed.

Lemma emits_recv P h n : P (EvRecv h n) -> emits P (io (sock_recv h n)).
Proof.
  apply emits_one. intros st. rewrite io_env. apply sock_recv_trace.
Qed.

Lemma emits_getpeername P h :
  P (EvGetpeername h) -> emits P (io (sock_getpeername h)).
Proof.
  apply emits_one. intros st. now rewrite io_env, sock_getpeername_world.
Qed.

Lemma emits_sendall P h data :
  (forall ok, P (EvSend h data ok)) -> emits P (io (sock_sendall h data)).
Proof.
  intros Hp st. eexists. split; [apply io_sendall_trace | auto].
Qed.

Lemma emits_close P : (forall h, P (EvClose h)) -> emits P close.
Proof.
  intros Hp st. rewrite close_run.
  destruct (_sock (self st)) as [s|]; simpl.
  - exists [EvClose (fileno s)]. rewrite sock_close_trace. auto.
  - exists []. rewrite app_nil_r. auto.
Qed.

Lemma emits_recvmeth P : emits P recvmeth.
Proof. apply emits_silent. intros st. now rewrite recvmeth_run. Qed.

Lemma emits_read : emits not_send read.
Proof.
  unfold read.
  apply emits_bind; [apply emits_recvmeth|]. intros h.
  apply emits_bind; [now apply emits_recv|]. intros siz.
  destruct (is_empty siz).
  - apply emits_bind; [now apply emits_close | intros; apply emits_raise].
  - apply emits_bind; [apply emits_of_option|]. intros total.
    apply emits_bind; [now apply emits_recv|]. intros data.
    destruct (is_empty data); [|apply emits_ret].
    apply emits_bind; [now apply emits_close | intros; apply emits_raise].
Qed.

Lemma emits_remote_info : emits (fun _ => True) remote_info.
Proof.
  unfold remote_info. apply emits_bind; [apply emits_get_self|]. intros c.
  destruct (sock c); [now apply emits_getpeername | apply emits_raise].
Qed.

Lemma emits_weaken {A} (P Q : io_event -> Prop) (m : M A) :
  (forall e, P e -> Q e) -> emits P m -> emits Q m.
Proof.
  intros Hpq Hm st. destruct (Hm st) as (evs & Ht & Hp).
  exists evs. split; [exact Ht|]. eapply Forall_impl; eauto.
Qed.

Lemma raises_bind {A B} P (m : M A) (k : A -> M B) :
  raises P m -> (forall a, raises P (k a)) -> raises P (bind m k).
Proof.
  intros Hm Hk st e. unfold bind.
  specialize (Hm st). destruct (m st) as [[a|e1] st1]; simpl in *.
  - apply Hk.
  - intros [= ->]. now apply Hm.
Qed.

Lemma raises_ret {A} P (a : A) : raises P (ret a).
Proof. intros st e. discriminate. Qed.

Lemma raises_raise {A} (P : exn -> Prop) e : P e -> raises P (@raise _ A e).
Proof. intros Hp st e'. now intros [= <-]. Qed.

Lemma raises_get_self P : raises P get_self.
Proof. intros st e. discriminate. Qed.

Lemma raises_set_self P f : raises P (set_self f).
Proof. intros st e. discriminate. Qed.

Lemma raises_on_world P f : raises P (on_world f).
Proof. intros st e. discriminate. Qed.

Lemma raises_of_option {A} (P : exn -> Prop) e (o : option A) :
  P e -> raises P (of_option e o).
Proof. intros Hp. destruct o; [apply raises_ret | now apply raises_raise]. Qed.

Lemma raises_io {A} (f : World -> (sock_err + A) * World) :
  raises not_login_error (io f).
Proof.
  intros st e. rewrite io_fst. destruct (fst (f (env st))) as [e0|a].
  - intros [= <-]. now destruct e0.
  - discriminate.
Qed.

Lemma raises_close : raises not_login_error close.
Proof.
  intros st e. rewrite close_run. destruct (_sock (self st)); simpl.
  - discriminate.
  - now intros [= <-].
Qed.

Lemma raises_recvmeth : raises not_login_error recvmeth.
Proof.
  intros st e. rewrite recvmeth_run. simpl.
  destruct (sock (self st)) as [[h|h]|]; try destruct (ssl_enable (self st));
    try discriminate; now intros [= <-].
Qed.

Lemma raises_read : raises not_login_error read.
Proof.
  unfold read.
  apply raises_bind; [apply raises_recvmeth|]. intros h.
  apply raises_bind; [apply raises_io|]. intros siz.
  destruct (is_empty siz).
  - apply raises_bind; [apply raises_close | intros; now apply raises_raise].
  - apply raises_bind; [now apply raises_of_option|]. intros total.
    apply raises_bind; [apply raises_io|]. intros data.
    destruct (is_empty data); [|apply raises_ret].
    apply raises_bind; [apply raises_close | intros; now apply raises_raise].
Qed.

Lemma raises_write data : raises not_login_error (write data).
Proof.
  unfold write.
  apply raises_bind; [apply raises_recvmeth|]. intros h.
  apply raises_bind; [now apply raises_of_option|]. intros hdr.
  apply raises_io.
Qed.

Lemma raises_remote_info : raises not_login_error remote_info.
Proof.
  unfold remote_info. apply raises_bind; [apply raises_get_self|]. intros c.
  destruct (sock c); [apply raises_io | now apply raises_raise].
Qed.

Lemma raises_send doc : raises not_login_error (send doc).
Proof.
  unfold send.
  apply raises_bind; [apply raises_remote_info|]. intros p.
  apply raises_bind; [apply raises_on_world|]. intros _.
  apply raises_bind; [apply raises_write|]. intros _.
  apply raises_bind; [apply raises_read|]. intros r.
  apply raises_bind; [apply raises_remote_info|]. intros p'.
  apply raises_bind; [apply raises_on_world|]. intros _.
  apply raises_bind; [now apply raises_of_option|]. intros resp.
  apply raises_ret.
Qed.

(* --------------------------------------------------------------------- *)
(** *** [connect], the greeting and [login] *)
(* --------------------------------------------------------------------- *)

Lemma sock_free_trace o w : trace (sock_free o w) = trace w.
Proof.
  destruct o; [apply sock_free_plain_trace | apply sock_free_wrapper_trace].
Qed.

Lemma sock_free_net o w : net (sock_free o w) = net w.
Proof.
  destruct o; [apply sock_free_plain_net | apply sock_free_wrapper_net].
Qed.

Lemma sock_free_log o w : log (sock_free o w) = log w.
Proof.
  destruct o; [apply sock_free_plain_log | apply sock_free_wrapper_log].
Qed.

Lemma sock_free_length o w : length (socks (sock_free o w)) = length (socks w).
Proof.
  destruct o; [apply sock_free_plain_length | apply sock_free_wrapper_length].
Qed.

Lemma sock_free_lookup_ne o w i :
  i <> fileno o -> socks (sock_free o w) !! i = socks w !! i.
Proof.
  destruct o; simpl; intros Hne;
    [now apply sock_free_plain_lookup_ne | now apply sock_free_wrapper_lookup_ne].
Qed.

(** Rebinding an attribute makes no call, asks nothing of the network
    and logs nothing; it leaves alone the connections other than that
    of the object which the attribute held. *)
Lemma release_old_trace old c w : trace (release_old old c w) = trace w.
Proof.
  unfold release_old. destruct old as [s|]; [|reflexivity].
  destruct (held c s); [reflexivity|]. apply sock_free_trace.
Qed.

Lemma release_old_net old c w : net (release_old old c w) = net w.
Proof.
  unfold release_old. destruct old as [s|]; [|reflexivity].
  destruct (held c s); [reflexivity|]. apply sock_free_net.
Qed.

Lemma release_old_log old c w : log (release_old old c w) = log w.
Proof.
  unfold release_old. destruct old as [s|]; [|reflexivity].
  destruct (held c s); [reflexivity|]. apply sock_free_log.
Qed.

Lemma release_old_length old c w :
  length (socks (release_old old c w)) = length (socks w).
Proof.
  unfold release_old. destruct old as [s|]; [|reflexivity].
  destruct (held c s); [reflexivity|]. apply sock_free_length.
Qed.

Lemma release_old_lookup_ne old c w i :
  refers old i = false ->
  socks (release_old old c w) !! i = socks w !! i.
Proof.
  unfold release_old, refers. destruct old as [s|]; [|reflexivity].
  intros Hne. destruct (held c s); [reflexivity|].
  apply sock_free_lookup_ne. intros ->. now rewrite Nat.eqb_refl in Hne.
Qed.

(** An object that an attribute still holds is not freed. *)
Lemma release_old_held s c w :
  held c s = true -> release_old (Some s) c w = w.
Proof. unfold release_old. now intros ->. Qed.

Lemma release_old_free s c w :
  held c s = false -> release_old (Some s) c w = sock_free s w.
Proof. unfold release_old. now intros ->. Qed.

Lemma same_sock_fileno a b : same_sock a b = true -> fileno a = fileno b.
Proof.
  destruct a, b; simpl; try discriminate; intros E;
    now apply Nat.eqb_eq in E.
Qed.

(** A connection that no TLS wrapper holds, and whose plain socket an
    attribute holds, is left as it is. *)
Lemma release_old_lookup old c w h s :
  socks w !! h = Some s -> wrapped s = false ->
  held c (RawSocket h) = true ->
  socks (release_old old c w) !! h = Some s.
Proof.
  intros Hs Hw Hh. unfold release_old. destruct old as [o|]; [|exact Hs].
  destruct (held c o) eqn:Ho; [exact Hs|].
  destruct (Nat.eq_dec h (fileno o)) as [->|Hne].
  2:{ now rewrite sock_free_lookup_ne. }
  destruct o as [h'|h']; simpl in *.
  - congruence.
  - rewrite (sock_free_wrapper_lookup _ _ _ Hs). now rewrite Hw.
Qed.

Lemma port_or_same p : port_or (Some p) p = p.
Proof. simpl. now destruct (p =? 0). Qed.

(** Normalise what the rebinding of attributes and the TLS wrapping
    leave of trace, log and network. *)
Ltac rel_simpl :=
  repeat (rewrite ?release_old_trace, ?release_old_log, ?release_old_net,
            ?sock_wrap_trace, ?sock_wrap_log; simpl).

(** [connect] makes its call on a new socket; when it returns, the
    client is attached to that socket, after a handshake if TLS is
    enabled.  It sends nothing. *)
Lemma connect_spec hst p st :
  exists hs,
    trace (env (snd (connect hst p st)))
    = trace (env st)
      ++ EvConnect (length (socks (env st))) hst (port_or p (port (self st)))
         :: hs /\
    Forall not_send hs /\
    (fst (connect hst p st) = Ok tt ->
       hs = (if ssl_enable (self st)
             then [EvHandshake (length (socks (env st)))] else []) /\
       attached (self (snd (connect hst p st))) (length (socks (env st))) /\
       ssl_enable (self (snd (connect hst p st))) = ssl_enable (self st)) /\
    (forall e, fst (connect hst p st) = Raise e -> not_login_error e).
Proof.
  unfold connect, bind, assign_sock, assign_raw, set_self, get_self, io,
    on_world, sock_new, sock_connect, ret, raise, attached. simpl.
  rewrite ?release_old_net. simpl.
  destruct (negb _); simpl.
  { exists []. rel_simpl.
    repeat split; auto; try discriminate. now intros e [= <-]. }
  destruct (net (env st)) as [|pr rest]; simpl.
  { exists []. rel_simpl.
    repeat split; auto; try discriminate. now intros e [= <-]. }
  destruct (accepts pr); simpl.
  2:{ exists []. rel_simpl.
      repeat split; auto; try discriminate. now intros e [= <-]. }
  destruct (ssl_enable (self st)) eqn:Hssl; simpl.
  2:{ exists []. rel_simpl. rewrite Hssl.
      repeat split; auto; discriminate. }
  destruct (tls_ok pr); simpl.
  2:{ exists [EvHandshake (length (socks (env st)))]. rel_simpl.
      rewrite <- app_assoc. repeat split; auto; try discriminate.
      - repeat constructor.
      - now intros e [= <-]. }
  destruct (validate_hostname (self st)); simpl.
  2:{ exists [EvHandshake (length (socks (env st)))]. rel_simpl.
      rewrite <- app_assoc, Hssl. repeat split; auto; try discriminate.
      repeat constructor. }
  destruct (cert_matches pr); simpl;
    exists [EvHandshake (length (socks (env st)))]; rel_simpl;
    rewrite <- app_assoc, ?Hssl; repeat split; auto; try discriminate;
    try (repeat constructor); now intros e [= <-].
Qed.

Lemma read_self st : self (snd (read st)) = self st.
Proof.
  rewrite read_run. destruct (fst (recvmeth st)) as [h|e]; [|reflexivity].
  destruct (sock_recv h 4 (env st)) as [[e1|siz] w1]; [reflexivity|].
  unfold read_payload. destruct (is_empty siz).
  - unfold bind. rewrite close_run. simpl. now destruct (_sock (self st)).
  - unfold bind at 1. destruct (struct_unpack_I siz) as [total|]; simpl;
      [|reflexivity].
    unfold bind at 1, io. simpl.
    destruct (sock_recv h (total - 4) w1) as [[e2|data] w2]; [reflexivity|].
    destruct (is_empty data); [|reflexivity].
    unfold bind. rewrite close_run. simpl. now destruct (_sock (self st)).
Qed.

(** A frame read that returns has made two receive calls: four bytes
    for the header, then the payload length that the header gives. *)
Lemma read_ok_events st h r :
  attached (self st) h ->
  fst (read st) = Ok r ->
  exists n,
    trace (env (snd (read st))) = trace (env st) ++ [EvRecv h 4; EvRecv h n].
Proof.
  intros Ha. rewrite read_run, (attached_recvmeth _ _ Ha). simpl.
  pose proof (sock_recv_trace h 4 (env st)) as T1.
  destruct (sock_recv h 4 (env st)) as [[e1|siz] w1]; [discriminate|].
  simpl in T1. unfold read_payload, bind, io, of_option, ret, raise.
  destruct (is_empty siz).
  - rewrite (attached_close st h w1 Ha). discriminate.
  - destruct (struct_unpack_I siz) as [total|]; simpl; [|discriminate].
    pose proof (sock_recv_trace h (total - 4) w1) as T2.
    destruct (sock_recv h (total - 4) w1) as [[e2|data] w2]; [discriminate|].
    simpl in T2. destruct (is_empty data).
    + rewrite (attached_close st h w2 Ha). discriminate.
    + intros _. exists (total - 4). simpl. rewrite T2, T1.
      now rewrite <- app_assoc.
Qed.

Lemma raises_connect hst p : raises not_login_error (connect hst p).
Proof.
  intros st e He. destruct (connect_spec hst p st) as (hs & _ & _ & _ & Hr).
  now apply Hr.
Qed.

Lemma raises_greet : raises not_login_error greet.
Proof.
  unfold greet. apply raises_bind; [apply raises_get_self|]. intros c.
  apply raises_bind; [apply raises_connect|]. intros _.
  apply raises_bind; [apply raises_read|]. intros r.
  apply raises_bind; [now apply raises_of_option|]. intros g.
  apply raises_set_self.
Qed.

(** The greeting: nothing is sent; when it succeeds, the calls were the
    connection, the handshake under TLS, and the two receive calls of
    one frame read, and the client is attached to the new socket. *)
Lemma greet_spec st :
  exists evs,
    trace (env (snd (greet st))) = trace (env st) ++ evs /\
    Forall not_send evs /\
    (fst (greet st) = Ok tt ->
     exists h n,
       evs = EvConnect h (host (self st)) (port (self st))
             :: (if ssl_enable (self st) then [EvHandshake h] else [])
             ++ [EvRecv h 4; EvRecv h n] /\
       attached (self (snd (greet st))) h).
Proof.
  unfold greet, bind, get_self, set_self, of_option, ret, raise.
  destruct (connect_spec (host (self st)) (Some (port (self st))) st)
    as (hs & Ht & Hns & Hok & _).
  rewrite port_or_same in Ht.
  destruct (connect (host (self st)) (Some (port (self st))) st)
    as [[[]|e] st1]; simpl in *.
  2:{ eexists. split; [exact Ht|]. split; [|discriminate].
      constructor; [reflexivity | exact Hns]. }
  destruct (Hok eq_refl) as (-> & Hatt & Hssl). clear Hok.
  destruct (emits_read st1) as (ev2 & Ht2 & Hns2).
  pose proof (read_ok_events st1 (length (socks (env st)))) as Hev.
  pose proof (read_self st1) as Hself.
  destruct (read st1) as [[r|e] st2]; simpl in *.
  2:{ eexists. split; [rewrite Ht2, Ht, <- app_assoc; reflexivity|].
      split; [|discriminate].
      apply Forall_app. split; [|exact Hns2].
      constructor; [reflexivity | exact Hns]. }
  destruct (Hev r Hatt eq_refl) as (n & Hn). rewrite Ht2 in Hn.
  apply app_inv_head in Hn. subst ev2.
  assert (Hall : Forall not_send
            (EvConnect (length (socks (env st))) (host (self st)) (port (self st))
             :: (if ssl_enable (self st)
                 then [EvHandshake (length (socks (env st)))] else [])
             ++ [EvRecv (length (socks (env st))) 4;
                 EvRecv (length (socks (env st))) n])).
  { constructor; [reflexivity|]. apply Forall_app. now split. }
  destruct (from_xml r) as [g|]; simpl;
    (eexists; split;
     [rewrite Ht2, Ht, <- app_assoc; reflexivity|]; split; [exact Hall|]).
  - intros _. exists (length (socks (env st))), n. split; [reflexivity|].
    unfold attached in *. simpl. now rewrite Hself.
  - discriminate.
Qed.

(** The exchange: if it writes at all, its calls start with the peer
    name asked for the log and the write of the document's frame, both
    on the client's socket. *)
Lemma send_shape doc st s :
  sock (self st) = Some s ->
  exists evs,
    trace (env (snd (send doc st))) = trace (env st) ++ evs /\
    (Exists (fun e => is_send e = true) evs ->
     exists ok rest,
       evs = [EvGetpeername (fileno s);
              EvSend (fileno s) (frame (doc_str doc)) ok] ++ rest).
Proof.
  intros Hs. unfold send.
  match goal with
  | |- context [bind (write ?b) ?k] => set (K := k)
  end.
  assert (HK : forall u, emits (fun _ => True) (K u)).
  { intros u. unfold K.
    apply emits_bind;
      [eapply emits_weaken; [|apply emits_read]; auto|]. intros r.
    apply emits_bind; [apply emits_remote_info|]. intros p.
    apply emits_bind; [apply emits_log|]. intros _.
    apply emits_bind; [apply emits_of_option|]. intros resp.
    apply emits_ret. }
  clearbody K.
  unfold bind at 1. unfold remote_info at 1, bind at 1, get_self at 1.
  rewrite Hs.
  pose proof (io_env (sock_getpeername (fileno s)) st) as He.
  pose proof (io_self (sock_getpeername (fileno s)) st) as Hself.
  rewrite sock_getpeername_world in He.
  destruct (io (sock_getpeername (fileno s)) st) as [[p|e] st1];
    simpl in He, Hself.
  2:{ exists [EvGetpeername (fileno s)]. simpl. rewrite He.
      split; [reflexivity|]. intros Hex.
      apply Exists_cons in Hex as [Hex|Hex]; [discriminate|].
      now apply Exists_nil in Hex. }
  unfold bind at 1, on_world at 1. unfold bind at 1.
  rewrite write_run, writemeth_run, recvmeth_run. simpl.
  rewrite Hself, Hs.
  assert (Hnone : exists evs : list io_event,
            trace (log_append (LogSend p (doc_str doc)) (env st1))
            = trace (env st) ++ evs /\
            (Exists (fun e => is_send e = true) evs ->
             exists ok rest,
               evs = [EvGetpeername (fileno s);
                      EvSend (fileno s) (frame (doc_str doc)) ok] ++ rest)).
  { exists [EvGetpeername (fileno s)]. simpl. rewrite He.
    split; [reflexivity|]. intros Hex.
    apply Exists_cons in Hex as [Hex|Hex]; [discriminate|].
    now apply Exists_nil in Hex. }
  assert (Hh : match s with
               | RawSocket h =>
                   if ssl_enable (self st) then Raise AttributeError else Ok h
               | SSLSocket h => Ok h
               end = Raise AttributeError \/
               match s with
               | RawSocket h =>
                   if ssl_enable (self st) then Raise AttributeError else Ok h
               | SSLSocket h => Ok h
               end = Ok (fileno s)).
  { destruct s; simpl; [destruct (ssl_enable (self st))|]; auto. }
  destruct Hh as [-> | ->]; [exact Hnone|].
  destruct (struct_pack_I (4 + len (doc_str doc))) as [hdr|] eqn:Hp;
    [|exact Hnone].
  apply struct_pack_I_Some in Hp as [-> _]. fold (frame (doc_str doc)).
  match goal with
  | |- context [io (sock_sendall ?h ?d) ?x] =>
      pose proof (io_sendall_trace h d x) as Ht;
      destruct (io (sock_sendall h d) x) as [[[]|e] st2]
  end; simpl in Ht.
  - destruct (HK tt st2) as (rest & Hrest & _).
    exists ([EvGetpeername (fileno s);
             EvSend (fileno s) (frame (doc_str doc)) true] ++ rest).
    rewrite Hrest, Ht, He. simpl. split; [|eauto].
    now rewrite <- !app_assoc.
  - exists ([EvGetpeername (fileno s);
             EvSend (fileno s) (frame (doc_str doc)) false] ++ []).
    simpl. rewrite Ht, He. simpl. split; [|eauto].
    now rewrite <- !app_assoc.
Qed.

(** [login] on a client without socket: the greeting, the exchange, and
    the check of the response. *)
Lemma login_fresh_run clID pw rof st :
  sock (self st) = None ->
  login clID pw rof st =
  match greet st with
  | (Raise e, st1) => (Raise e, st1)
  | (Ok _, st1) =>
      match send (EppLoginCommand clID pw) st1 with
      | (Raise e, st2) => (Raise e, st2)
      | (Ok r, st2) =>
          (if negb (success r) && rof then Raise (EppLoginError r) else Ok r,
           st2)
      end
  end.
Proof.
  intros Hs. unfold login, greet, bind, get_self, set_self, of_option, ret,
    raise. rewrite Hs.
  destruct (connect (host (self st)) (Some (port (self st))) st)
    as [[[]|e] st1]; [|reflexivity].
  destruct (read st1) as [[r|e] st2]; [|reflexivity].
  destruct (from_xml r) as [g|]; [|reflexivity].
  destruct (send (EppLoginCommand clID pw) _) as [[resp|e] st3];
    [|reflexivity].
  now destruct (negb (success resp) && rof).
Qed.

(** C7.  [login] on a client that has no socket yet.  If the login
    document is sent at all, the calls made before it are: the
    connection, the handshake under TLS, the two receive calls of
    exactly one frame read (the greeting), and the peer name asked for
    the log.  [login] raises [EppLoginError] exactly when the exchange
    returned a response whose [success] is false and [raise_on_fail] is
    true, and the error carries that response; it returns the response
    of the exchange exactly when [raise_on_fail] is false or [success]
    is true. *)
Theorem login_fresh clID pw rof st :
  sock (self st) = None ->
  (exists evs,
      trace (env (snd (login clID pw rof st))) = trace (env st) ++ evs /\
      (Exists (fun e => is_send e = true) evs ->
       exists h n ok rest,
         evs = EvConnect h (host (self st)) (port (self st))
               :: (if ssl_enable (self st) then [EvHandshake h] else [])
               ++ [EvRecv h 4; EvRecv h n; EvGetpeername h;
                   EvSend h (frame (doc_str (EppLoginCommand clID pw))) ok]
               ++ rest)) /\
  (forall r,
      fst (login clID pw rof st) = Raise (EppLoginError r) <->
      rof = true /\ success r = false /\
      exists st1, greet st = (Ok tt, st1) /\
                  fst (send (EppLoginCommand clID pw) st1) = Ok r) /\
  (forall r,
      fst (login clID pw rof st) = Ok r <->
      (rof = false \/ success r = true) /\
      exists st1, greet st = (Ok tt, st1) /\
                  fst (send (EppLoginCommand clID pw) st1) = Ok r).
Proof.
  intros Hs. rewrite (login_fresh_run clID pw rof st Hs).
  destruct (greet_spec st) as (ev1 & Ht1 & Hns1 & Hok1).
  pose proof (raises_greet st) as Hrg.
  destruct (greet st) as [[[]|e] st1]; simpl in *.
  2:{ split; [|split].
      - exists ev1. split; [exact Ht1|]. intros Hex.
        apply Exists_exists in Hex as (x & Hin & Hx).
        rewrite Forall_forall in Hns1. apply Hns1 in Hin.
        unfold not_send in Hin. congruence.
      - intros r. split.
        + intros [= ->]. destruct (Hrg _ eq_refl).
        + intros (_ & _ & st1' & [=] & _).
      - intros r. split; [discriminate|].
        intros (_ & st1' & [=] & _). }
  destruct (Hok1 eq_refl) as (h & n & -> & Hatt). clear Hok1 Hrg.
  destruct (attached_sock _ _ Hatt) as (s & Hsock & Hf).
  destruct (send_shape (EppLoginCommand clID pw) st1 s Hsock)
    as (ev2 & Ht2 & Hsh).
  rewrite Hf in Hsh.
  pose proof (raises_send (EppLoginCommand clID pw) st1) as Hrs.
  assert (Hshape : exists evs,
            trace (env (snd (send (EppLoginCommand clID pw) st1)))
            = trace (env st) ++ evs /\
            (Exists (fun e => is_send e = true) evs ->
             exists h0 n0 ok rest,
               evs = EvConnect h0 (host (self st)) (port (self st))
                     :: (if ssl_enable (self st) then [EvHandshake h0] else [])
                     ++ [EvRecv h0 4; EvRecv h0 n0; EvGetpeername h0;
                         EvSend h0 (frame (doc_str (EppLoginCommand clID pw))) ok]
                     ++ rest)).
  { eexists. split; [rewrite Ht2, Ht1, <- app_assoc; reflexivity|].
    intros Hex. apply Exists_app in Hex as [Hex|Hex].
    - apply Exists_exists in Hex as (x & Hin & Hx).
      rewrite Forall_forall in Hns1. apply Hns1 in Hin.
      unfold not_send in Hin. congruence.
    - destruct (Hsh Hex) as (ok & rest & ->).
      exists h, n, ok, rest. simpl. rewrite <- !app_assoc. reflexivity. }
  clear Ht2 Hsh.
  destruct (send (EppLoginCommand clID pw) st1) as [[resp|e] st2] eqn:Hsend;
    simpl in *.
  - split; [exact Hshape|]. split.
    + intros r. split.
      * destruct (success resp) eqn:Hsu, rof; simpl; try discriminate.
        intros [= <-]. repeat split; auto.
        exists st1. now rewrite Hsend.
      * intros (-> & Hsu & st1' & [= <-] & Hr).
        rewrite Hsend in Hr. simpl in Hr. inversion Hr; subst.
        now rewrite Hsu.
    + intros r. split.
      * destruct (success resp) eqn:Hsu, rof; simpl; try discriminate;
          intros [= <-]; (split; [auto|]); exists st1; now rewrite Hsend.
      * intros (Hor & st1' & [= <-] & Hr).
        rewrite Hsend in Hr. simpl in Hr. inversion Hr; subst.
        destruct Hor as [-> | ->]; [now rewrite andb_false_r | reflexivity].
  - split; [exact Hshape|]. split.
    + intros r. split.
      * intros [= ->]. destruct (Hrs _ eq_refl).
      * intros (_ & _ & st1' & [= <-] & Hr).
        rewrite Hsend in Hr. discriminate.
    + intros r. split; [discriminate|].
      intros (_ & st1' & [= <-] & Hr). rewrite Hsend in Hr. discriminate.
Qed.

(* --------------------------------------------------------------------- *)
(** *** More on the header codec *)
(* --------------------------------------------------------------------- *)

Lemma Z_of_byte_range x : 0 <= Z_of_byte x < 256.
Proof.
  unfold Z_of_byte. pose proof (Byte.to_N_bounded x). lia.
Qed.

Lemma byte_of_Z_of_byte x : byte_of_Z (Z_of_byte x) = x.
Proof.
  unfold byte_of_Z. pose proof (Z_of_byte_range x) as Hr.
  change 255 with (Z.ones 8). rewrite Z.land_ones, Z.mod_small by lia.
  unfold Z_of_byte. rewrite N2Z.id, Byte.of_to_N. reflexivity.
Qed.

Lemma byte_of_Z_land z x : Z.land z 255 = Z_of_byte x -> byte_of_Z z = x.
Proof.
  intros Hz. unfold byte_of_Z. rewrite Hz. unfold Z_of_byte.
  now rewrite N2Z.id, Byte.of_to_N.
Qed.

Lemma testbit_Z_of_byte x i : 8 <= i -> Z.testbit (Z_of_byte x) i = false.
Proof.
  intros Hi. pose proof (Z_of_byte_range x) as Hr.
  destruct (Z.eq_dec (Z_of_byte x) 0) as [->|Hnz]; [apply Z.testbit_0_l|].
  apply Z.bits_above_log2; [lia|].
  assert (Z.log2 (Z_of_byte x) < 8) by (apply Z.log2_lt_pow2; lia). lia.
Qed.

(** The number that four bytes unpack to, cut back to one of them. *)
Lemma unpack_byte_at b3 b2 b1 b0 k x :
  (k = 24 /\ x = b3) \/ (k = 16 /\ x = b2) \/ (k = 8 /\ x = b1) \/
  (k = 0 /\ x = b0) ->
  Z.land
    (Z.shiftr
       (Z.lor (Z.shiftl (Z_of_byte b3) 24)
          (Z.lor (Z.shiftl (Z_of_byte b2) 16)
             (Z.lor (Z.shiftl (Z_of_byte b1) 8) (Z_of_byte b0)))) k) 255
  = Z_of_byte x.
Proof.
  intros Hk. apply Z.bits_inj'. intros i Hi.
  rewrite testbit_land_255 by lia.
  assert (Hk0 : 0 <= k) by lia.
  rewrite Z.shiftr_spec, !Z.lor_spec, !Z.shiftl_spec by lia.
  destruct (Z.ltb_spec i 8) as [Hlt|Hge].
  - rewrite andb_true_r.
    destruct Hk as [[-> ->]|[[-> ->]|[[-> ->]|[-> ->]]]].
    + replace (i + 24 - 24) with i by lia.
      rewrite (testbit_Z_of_byte b2), (testbit_Z_of_byte b1),
        (testbit_Z_of_byte b0) by lia.
      now rewrite !orb_false_r.
    + replace (i + 16 - 16) with i by lia.
      rewrite (Z.testbit_neg_r _ (i + 16 - 24)) by lia.
      rewrite (testbit_Z_of_byte b1), (testbit_Z_of_byte b0) by lia.
      now rewrite !orb_false_r.
    + replace (i + 8 - 8) with i by lia.
      rewrite (Z.testbit_neg_r _ (i + 8 - 24)), (Z.testbit_neg_r _ (i + 8 - 16))
        by lia.
      rewrite (testbit_Z_of_byte b0) by lia.
      now rewrite !orb_false_r.
    + rewrite Z.add_0_r.
      now rewrite (Z.testbit_neg_r _ (i - 24)), (Z.testbit_neg_r _ (i - 16)),
        (Z.testbit_neg_r _ (i - 8)) by lia.
  - rewrite andb_false_r. symmetry. apply testbit_Z_of_byte. lia.
Qed.

Lemma lor_le_add a b : 0 <= a -> 0 <= b -> 0 <= Z.lor a b <= a + b.
Proof.
  intros Ha Hb. pose proof (Z.add_lor_land a b) as Hs.
  assert (0 <= Z.land a b) by (apply Z.land_nonneg; auto).
  assert (0 <= Z.lor a b) by (apply Z.lor_nonneg; auto).
  lia.
Qed.

Lemma unpack_range s n : struct_unpack_I s = Some n -> 0 <= n < 2 ^ 32.
Proof.
  destruct s as [|b3 [|b2 [|b1 [|b0 [|]]]]]; try discriminate.
  intros [= <-].
  pose proof (Z_of_byte_range b3). pose proof (Z_of_byte_range b2).
  pose proof (Z_of_byte_range b1). pose proof (Z_of_byte_range b0).
  rewrite !Z.shiftl_mul_pow2 by lia.
  change (2 ^ 24) with 16777216. change (2 ^ 16) with 65536.
  change (2 ^ 8) with 256. change (2 ^ 32) with 4294967296.
  pose proof (lor_le_add (Z_of_byte b1 * 256) (Z_of_byte b0)
                ltac:(lia) ltac:(lia)) as L1.
  pose proof (lor_le_add (Z_of_byte b2 * 65536)
                (Z.lor (Z_of_byte b1 * 256) (Z_of_byte b0))
                ltac:(lia) ltac:(lia)) as L2.
  pose proof (lor_le_add (Z_of_byte b3 * 16777216)
                (Z.lor (Z_of_byte b2 * 65536)
                   (Z.lor (Z_of_byte b1 * 256) (Z_of_byte b0)))
                ltac:(lia) ltac:(lia)) as L3.
  lia.
Qed.

(** X1.  The header codec is a bijection between the numbers from 0 to
    [2^32 - 1] and the strings of four bytes: what [struct.pack] makes
    of a number unpacks to that number, and what unpacks to a number is
    what [struct.pack] makes of it.  Outside that range [pack] raises,
    and [unpack] raises on a string that has not exactly four bytes. *)
Theorem header_codec_bijection n s :
  (struct_pack_I n = Some s -> struct_unpack_I s = Some n) /\
  (struct_unpack_I s = Some n -> struct_pack_I n = Some s) /\
  (struct_pack_I n = None <-> n < 0 \/ 2 ^ 32 <= n) /\
  (struct_unpack_I s = None <-> length s <> 4%nat).
Proof.
  split; [|split; [|split]].
  - intros Hp. apply struct_pack_I_Some in Hp as [-> Hr].
    now apply unpack_be32.
  - intros Hu. pose proof (unpack_range s n Hu) as Hr.
    unfold struct_pack_I.
    destruct (Z.leb_spec 0 n), (Z.ltb_spec n (2 ^ 32)); try lia. simpl.
    f_equal.
    destruct s as [|b3 [|b2 [|b1 [|b0 [|]]]]]; try discriminate.
    injection Hu as <-. unfold be32.
    pose proof (unpack_byte_at b3 b2 b1 b0 0 b0) as Hlow.
    rewrite Z.shiftr_0_r in Hlow.
    f_equal; [|f_equal; [|f_equal; [|f_equal]]];
      apply byte_of_Z_land;
      [apply (unpack_byte_at b3 b2 b1 b0 24 b3)
      |apply (unpack_byte_at b3 b2 b1 b0 16 b2)
      |apply (unpack_byte_at b3 b2 b1 b0 8 b1)
      |apply Hlow]; tauto.
  - unfold struct_pack_I.
    destruct (Z.leb_spec 0 n), (Z.ltb_spec n (2 ^ 32)); simpl;
      split; intros; try discriminate; try lia; reflexivity.
  - destruct s as [|b3 [|b2 [|b1 [|b0 [|]]]]]; simpl;
      split; intros; try discriminate; try lia; try reflexivity; try congruence.
Qed.

(* --------------------------------------------------------------------- *)
(** *** Frames at the edges *)
(* --------------------------------------------------------------------- *)

Lemma deliver_length n q data q' :
  deliver n q = (Some data, q') -> (length data <= n)%nat.
Proof.
  induction q as [|[bs|] q IH]; simpl.
  - intros [= <- _]. simpl. lia.
  - destruct bs as [|x bs]; [exact IH|].
    intros [= <- _]. rewrite length_take. lia.
  - discriminate.
Qed.

(** A receive call never returns more than it was asked for. *)
Lemma sock_recv_length h n w data w' :
  sock_recv h n w = (inr data, w') -> 0 <= n /\ len data <= n.
Proof.
  unfold sock_recv. simpl.
  destruct (socks w !! h) as [s|]; [|discriminate].
  destruct (closed s); [discriminate|].
  destruct (connected s); [|discriminate]. simpl.
  destruct (Z.ltb_spec n 0); [discriminate|].
  destruct (Z.eqb_spec n 0) as [->|Hn].
  - intros [= <- _]. unfold len. simpl. lia.
  - destruct (deliver (Z.to_nat n) (inbox s)) as [[d|] q] eqn:Hd;
      [|discriminate].
    intros [= <- _]. apply deliver_length in Hd. unfold len. lia.
Qed.

(** X2.  What a frame read returns is never empty and never longer than
    the payload length that the header announced; it may be shorter.
    The client's attributes are as before and its socket is still
    open. *)
Theorem read_returns_bounded st h data st' :
  attached (self st) h ->
  read st = (Ok data, st') ->
  data <> [] /\
  (exists hdr total w1,
      sock_recv h 4 (env st) = (inr hdr, w1) /\
      struct_unpack_I hdr = Some total /\
      0 < len data <= total - 4) /\
  self st' = self st /\
  is_closed h (env st') = false.
Proof.
  intros Ha. rewrite read_run, (attached_recvmeth _ _ Ha). simpl.
  destruct (sock_recv h 4 (env st)) as [[e1|siz] w1] eqn:E1; [discriminate|].
  unfold read_payload, bind, io, of_option, ret, raise.
  destruct (is_empty siz).
  { rewrite (attached_close st h w1 Ha). discriminate. }
  destruct (struct_unpack_I siz) as [total|] eqn:Hu; simpl; [|discriminate].
  destruct (sock_recv h (total - 4) w1) as [[e2|d] w2] eqn:E2; [discriminate|].
  destruct (is_empty d) eqn:Hd.
  { rewrite (attached_close st h w2 Ha). discriminate. }
  intros [= <- <-].
  assert (Hne : d <> []) by (destruct d; [discriminate | congruence]).
  split; [exact Hne|]. split; [|split; [reflexivity|]].
  - exists siz, total, w1. repeat split; auto.
    + now apply len_pos.
    + now apply sock_recv_length in E2.
  - simpl. apply sock_recv_inr_live in E2 as [_ (s & Hs & Hc & _)].
    unfold is_closed. now rewrite Hs.
Qed.

Lemma sock_recv_nonpositive h n w :
  live h w -> n <= 0 ->
  sock_recv h n w
  = (if n <? 0 then inl NegativeBufsize else inr [], emit (EvRecv h n) w).
Proof.
  intros (s & Hs & Hc & Hn) Hle. unfold sock_recv. simpl.
  rewrite Hs, Hc, Hn. simpl.
  destruct (Z.ltb_spec n 0); [reflexivity|].
  destruct (Z.eqb_spec n 0); [reflexivity | lia].
Qed.

(** X3.  A header that announces no payload never gives a frame.  When
    it announces a total of exactly 4, the empty payload is taken for a
    stream shut down: [IOError] "no data" for 0 bytes after [close] has
    been called, which on a client without TLS closes the socket
    although the peer is still there.  When it announces less than 4,
    the receive is asked for a negative count and raises [ValueError];
    the socket is left open. *)
Theorem read_header_without_payload st h hdr total w1 :
  attached (self st) h ->
  wrapped_as (self st) h (env st) ->
  sock_recv h 4 (env st) = (inr hdr, w1) ->
  struct_unpack_I hdr = Some total ->
  total <= 4 ->
  (total = 4 ->
   read st = (Raise (IOError_NoData 0),
              {| self := self st;
                 env := sock_close h (emit (EvRecv h 0) w1) |}) /\
   (ssl_enable (self st) = false ->
    is_closed h (env (snd (read st))) = true)) /\
  (total < 4 ->
   read st = (Raise ValueError,
              {| self := self st; env := emit (EvRecv h (total - 4)) w1 |}) /\
   is_closed h (env (snd (read st))) = false).
Proof.
  intros Ha Hw E1 Hu Hle.
  pose proof (sock_recv_inr_live _ _ _ _ _ E1) as [_ Hl1].
  assert (Hw1 : is_wrapped h w1 = ssl_enable (self st)).
  { rewrite <- Hw, <- (sock_recv_wrapped h 4 (env st) h). now rewrite E1. }
  assert (Hrun : read st
            = (if total - 4 <? 0 then
                 (Raise ValueError,
                  {| self := self st; env := emit (EvRecv h (total - 4)) w1 |})
               else
                 (Raise (IOError_NoData (total - 4)),
                  {| self := self st;
                     env := sock_close h (emit (EvRecv h (total - 4)) w1) |}))).
  { rewrite read_run, (attached_recvmeth _ _ Ha). simpl. rewrite E1.
    unfold read_payload, bind, io, of_option, ret, raise.
    assert (is_empty hdr = false) as ->
        by (destruct hdr; [discriminate Hu | reflexivity]).
    rewrite Hu. simpl.
    rewrite (sock_recv_nonpositive h (total - 4) w1 Hl1) by lia.
    destruct (total - 4 <? 0); [reflexivity|]. simpl.
    now rewrite (attached_close st h _ Ha). }
  split.
  - intros ->. rewrite Hrun. simpl. split; [reflexivity|].
    intros Hssl. apply sock_close_closes.
    + destruct Hl1 as (s & Hs & Hc & Hn). exists s. auto.
    + change (is_wrapped h w1 = false). congruence.
  - intros Hlt. rewrite Hrun.
    destruct (Z.ltb_spec (total - 4) 0); [|lia]. simpl.
    split; [reflexivity|].
    destruct Hl1 as (s & Hs & Hc & Hn). unfold is_closed. simpl.
    now rewrite Hs.
Qed.

(** X4.  A payload too long for the header is refused before anything
    is written: [write] raises [struct.error] exactly when 4 plus the
    payload length does not fit 32 bits, and then state and wire are
    untouched. *)
Theorem write_refuses_long_payload st h data :
  attached (self st) h ->
  (fst (write data st) = Raise StructError <-> 2 ^ 32 <= 4 + len data) /\
  (2 ^ 32 <= 4 + len data -> write data st = (Raise StructError, st)).
Proof.
  intros Ha. rewrite write_run, writemeth_run, (attached_recvmeth _ _ Ha).
  simpl. unfold struct_pack_I.
  assert (0 <= 4 + len data) by (unfold len; lia).
  destruct (Z.leb_spec 0 (4 + len data)); [|lia].
  destruct (Z.ltb_spec (4 + len data) (2 ^ 32)); simpl.
  - split; [|lia]. split; [|lia].
    rewrite io_fst.
    match goal with
    | |- context [fst (sock_sendall ?a ?d ?w)] =>
        destruct (fst (sock_sendall a d w)) as [[]|[]]
    end; simpl; intros E; discriminate E.
  - split; [|reflexivity]. split; [lia | reflexivity].
Qed.

(* --------------------------------------------------------------------- *)
(** *** [connect]: what it leaves behind *)
(* --------------------------------------------------------------------- *)

Lemma lookup_new_socket (l : list socket_state) x s :
  <[length l := s]> (l ++ [x]) !! length l = Some s.
Proof. apply list_lookup_insert_eq. rewrite length_app. simpl. lia. Qed.

Lemma lookup_old_socket (l : list socket_state) x s i :
  (i < length l)%nat -> <[length l := s]> (l ++ [x]) !! i = l !! i.
Proof.
  intros Hi. rewrite list_lookup_insert_ne by lia. now apply lookup_app_l.
Qed.

(** An attribute holds the plain socket of the new connection. *)
Ltac held_solve :=
  unfold held, holds; simpl; rewrite ?Nat.eqb_refl; rewrite ?orb_true_r;
  reflexivity.

(** Look the new socket up through the rebinding of an attribute. *)
Ltac new_lookup :=
  apply release_old_lookup; [simpl | reflexivity | held_solve].

Ltac new_insert :=
  apply list_lookup_insert_eq; rewrite ?release_old_length; simpl;
  rewrite length_app; simpl; lia.

(** [connect] in full: which exception for which port and which answer
    of the network, and the state in each case. *)
Lemma connect_outcome hst p st :
  let h := length (socks (env st)) in
  let prt := port_or p (port (self st)) in
  let unconnected :=
    {| connected := false; closed := false; raw_closed := false;
       wrapped := false;
       peername := (EmptyString, 0); inbox := [];
       send_script := []; wire := [] |} in
  if negb ((0 <=? prt) && (prt <=? 65535)) then
    fst (connect hst p st) = Raise OverflowError /\
    sock (self (snd (connect hst p st))) = Some (RawSocket h) /\
    _sock (self (snd (connect hst p st))) = _sock (self st) /\
    socks (env (snd (connect hst p st))) !! h = Some unconnected
  else
  match net (env st) with
  | [] =>
      fst (connect hst p st) = Raise (SocketError ECONNREFUSED) /\
      sock (self (snd (connect hst p st))) = Some (RawSocket h) /\
      _sock (self (snd (connect hst p st))) = _sock (self st) /\
      socks (env (snd (connect hst p st))) !! h = Some unconnected
  | pr :: rest =>
      if accepts pr then
        socks (env (snd (connect hst p st))) !! h
        = Some (connected_to (ssl_enable (self st) && tls_ok pr) pr) /\
        _sock (self (snd (connect hst p st))) = Some (RawSocket h) /\
        (if ssl_enable (self st) then
           if tls_ok pr then
             sock (self (snd (connect hst p st))) = Some (SSLSocket h) /\
             (if validate_hostname (self st) && negb (cert_matches pr)
              then fst (connect hst p st) = Raise EppConnectionError /\
                   log (env (snd (connect hst p st)))
                   = log (env st) ++ [LogHostnameMismatch]
              else fst (connect hst p st) = Ok tt)
           else
             fst (connect hst p st) = Raise SSLError /\
             sock (self (snd (connect hst p st))) = Some (RawSocket h)
         else
           fst (connect hst p st) = Ok tt /\
           sock (self (snd (connect hst p st))) = Some (RawSocket h))
      else
        fst (connect hst p st) = Raise (SocketError ECONNREFUSED) /\
        sock (self (snd (connect hst p st))) = Some (RawSocket h) /\
        _sock (self (snd (connect hst p st))) = _sock (self st) /\
        socks (env (snd (connect hst p st))) !! h = Some unconnected
  end.
Proof.
  unfold connect, bind, assign_sock, assign_raw, set_self, get_self, io,
    on_world, sock_new, sock_connect, ret, raise, connected_to. simpl.
  rewrite ?release_old_net. simpl.
  destruct (negb _); simpl.
  { repeat split; auto. new_lookup. now apply list_lookup_middle. }
  destruct (net (env st)) as [|pr rest]; simpl.
  { repeat split; auto. new_lookup. now apply list_lookup_middle. }
  destruct (accepts pr); simpl.
  2:{ repeat split; auto. new_lookup. now apply list_lookup_middle. }
  destruct (ssl_enable (self st)); simpl.
  2:{ repeat split; auto. new_lookup. new_insert. }
  destruct (tls_ok pr); simpl.
  2:{ repeat split; auto. new_lookup. new_insert. }
  rewrite release_old_held by held_solve.
  match goal with
  | |- context [sock_wrap ?h (emit ?e (release_old ?old ?c (set_sock ?h ?s ?w)))] =>
      assert (Hnew : socks (sock_wrap h (emit e (release_old old c
                                                   (set_sock h s w)))) !! h
                     = Some (with_wrapped s))
  end.
  { apply sock_wrap_lookup. simpl. new_lookup. new_insert. }
  destruct (validate_hostname (self st)); simpl.
  2:{ repeat split; auto. }
  destruct (cert_matches pr); simpl; repeat split; auto.
  rel_simpl. reflexivity.
Qed.

Lemma is_closed_socks i (w w' : World) :
  socks w = socks w' -> is_closed i w = is_closed i w'.
Proof. unfold is_closed. now intros ->. Qed.

Lemma is_closed_set_sock_ne h s w i :
  i <> h -> is_closed i (set_sock h s w) = is_closed i w.
Proof.
  intros Hne. unfold is_closed, set_sock. simpl.
  now rewrite list_lookup_insert_ne by congruence.
Qed.

Lemma is_closed_sock_wrap h w i :
  is_closed i (sock_wrap h w) = is_closed i w.
Proof.
  unfold sock_wrap. destruct (socks w !! h) as [s|] eqn:Hs; [|reflexivity].
  now apply (is_closed_set_sock h i s).
Qed.

Lemma sock_wrap_length h w : length (socks (sock_wrap h w)) = length (socks w).
Proof.
  unfold sock_wrap. destruct (socks w !! h); [|reflexivity].
  simpl. apply length_insert.
Qed.

(** Whatever its outcome, [connect] leaves alone the connections that
    the client did not hold. *)
Lemma connect_other_sockets hst p st i :
  (i < length (socks (env st)))%nat ->
  referenced (self st) i = false ->
  socks (env (snd (connect hst p st))) !! i = socks (env st) !! i.
Proof.
  intros Hi Hr. apply orb_false_elim in Hr as [Hr1 Hr2].
  assert (Hne : (length (socks (env st)) =? i)%nat = false)
    by (apply Nat.eqb_neq; lia).
  assert (Hfin : forall x, (socks (env st) ++ [x]) !! i = socks (env st) !! i)
    by (intros x; now apply lookup_app_l).
  unfold connect, bind, assign_sock, assign_raw, set_self, get_self, io,
    on_world, sock_new, sock_connect, ret, raise. simpl.
  rewrite ?release_old_net. simpl.
  destruct (negb _); simpl.
  { rewrite release_old_lookup_ne by exact Hr1. apply Hfin. }
  destruct (net (env st)) as [|pr rest]; simpl.
  { rewrite release_old_lookup_ne by exact Hr1. apply Hfin. }
  destruct (accepts pr); simpl.
  2:{ rewrite release_old_lookup_ne by exact Hr1. apply Hfin. }
  assert (Hstep : forall c1 c2 s (w1 : World) nt tr lg,
    socks w1 !! i = socks (env st) !! i ->
    socks (release_old (_sock (self st)) c2
             (set_sock (length (socks (env st))) s
                {| socks := socks (release_old (sock (self st)) c1 w1);
                   net := nt; trace := tr; log := lg |})) !! i
    = socks (env st) !! i).
  { intros c1 c2 s w1 nt tr lg Hw1.
    rewrite release_old_lookup_ne by exact Hr2. simpl.
    rewrite list_lookup_insert_ne by lia.
    now rewrite release_old_lookup_ne by exact Hr1. }
  destruct (ssl_enable (self st)); simpl; [|apply Hstep, Hfin].
  destruct (tls_ok pr); simpl; [|apply Hstep, Hfin].
  assert (Hwrap : forall c e (w : World),
    socks w !! i = socks (env st) !! i ->
    socks (release_old (Some (RawSocket (length (socks (env st))))) c
             (sock_wrap (length (socks (env st))) (emit e w))) !! i
    = socks (env st) !! i).
  { intros c e w Hw. rewrite release_old_lookup_ne by (simpl; exact Hne).
    rewrite sock_wrap_lookup_ne by lia. exact Hw. }
  destruct (validate_hostname (self st)); simpl;
    [destruct (cert_matches pr); simpl|]; apply Hwrap, Hstep, Hfin.
Qed.

(** A [connect] that returns has closed the connection to which the
    client was attached before: both its socket objects have been
    freed. *)
Lemma connect_closes_held hst p st h0 :
  attached (self st) h0 ->
  wrapped_as (self st) h0 (env st) ->
  (h0 < length (socks (env st)))%nat ->
  fst (connect hst p st) = Ok tt ->
  is_closed h0 (env (snd (connect hst p st))) = true.
Proof.
  intros [Hraw Hsock] Hw Hi.
  assert (Hne : (length (socks (env st)) =? h0)%nat = false)
    by (apply Nat.eqb_neq; lia).
  destruct (lookup_lt_is_Some_2 (socks (env st)) h0 Hi) as [s0 Hs0].
  assert (Hw0 : wrapped s0 = ssl_enable (self st)).
  { unfold wrapped_as, is_wrapped, handle in Hw. now rewrite Hs0 in Hw. }
  unfold connect, bind, assign_sock, assign_raw, set_self, get_self, io,
    on_world, sock_new, sock_connect, ret, raise. simpl.
  rewrite ?release_old_net. simpl.
  destruct (negb _); simpl; [discriminate|].
  destruct (net (env st)) as [|pr rest]; simpl; [discriminate|].
  destruct (accepts pr); simpl; [|discriminate].
  rewrite Hraw, Hsock.
  assert (Hc2 : held (with_raw (Some (RawSocket (length (socks (env st)))))
                        (with_sock
                           (Some (RawSocket (length (socks (env st)))))
                           (self st)))
                  (RawSocket h0) = false).
  { unfold held, holds. simpl. now rewrite Hne. }
  rewrite (release_old_free _ _ _ Hc2).
  assert (Hclosed : forall (W1 : World) S nt tr lg,
    (exists s1, socks W1 !! h0 = Some s1 /\ wrapped s1 = false) ->
    is_closed h0
      (sock_free (RawSocket h0)
         (set_sock (length (socks (env st))) S
            {| socks := socks W1; net := nt; trace := tr; log := lg |}))
    = true).
  { intros W1 S nt tr lg (s1 & Hs1 & Hw1). unfold is_closed. simpl.
    erewrite sock_free_plain_lookup.
    2:{ simpl. rewrite list_lookup_insert_ne by lia. exact Hs1. }
    simpl. rewrite Hw1. apply orb_true_r. }
  assert (Hold : forall x, (socks (env st) ++ [x]) !! h0 = Some s0)
    by (intros x; rewrite lookup_app_l by exact Hi; exact Hs0).
  destruct (ssl_enable (self st)) eqn:Hssl; simpl.
  - destruct (tls_ok pr); simpl; [|discriminate].
    assert (Hfin : forall c e (w : World),
      is_closed h0 w = true ->
      is_closed h0
        (release_old (Some (RawSocket (length (socks (env st))))) c
           (sock_wrap (length (socks (env st))) (emit e w))) = true).
    { intros c e w Hcw. unfold is_closed.
      rewrite release_old_lookup_ne by (simpl; exact Hne).
      rewrite sock_wrap_lookup_ne by lia. exact Hcw. }
    assert (HW1 : forall (w1 : World),
      socks w1 !! h0 = Some s0 ->
      exists s1,
        socks (release_old (Some (SSLSocket h0))
                 (with_sock (Some (RawSocket (length (socks (env st)))))
                    (self st)) w1) !! h0 = Some s1 /\
        wrapped s1 = false).
    { intros w1 Hw1. rewrite release_old_free.
      2:{ unfold held, holds. simpl. now rewrite Hraw. }
      simpl. rewrite (sock_free_wrapper_lookup _ _ _ Hw1), Hw0.
      eexists. split; reflexivity. }
    destruct (validate_hostname (self st)); simpl;
      [destruct (cert_matches pr); simpl; [|discriminate]|];
      intros _; apply Hfin, Hclosed, HW1, Hold.
  - intros _. apply Hclosed. exists s0. split; [|exact Hw0].
    rewrite release_old_held; [apply Hold|].
    unfold held, holds. simpl. rewrite Hraw. simpl.
    rewrite Nat.eqb_refl. apply orb_true_r.
Qed.

Lemma emits_read_any P :
  (forall h n, P (EvRecv h n)) -> (forall h, P (EvClose h)) -> emits P read.
Proof.
  intros Hr Hc. unfold read.
  apply emits_bind; [apply emits_recvmeth|]. intros h.
  apply emits_bind; [now apply emits_recv|]. intros siz.
  destruct (is_empty siz).
  - apply emits_bind; [now apply emits_close | intros; apply emits_raise].
  - apply emits_bind; [apply emits_of_option|]. intros total.
    apply emits_bind; [now apply emits_recv|]. intros data.
    destruct (is_empty data); [|apply emits_ret].
    apply emits_bind; [now apply emits_close | intros; apply emits_raise].
Qed.

Lemma emits_write_any P data :
  (forall h d ok, P (EvSend h d ok)) -> emits P (write data).
Proof.
  intros Hs. unfold write.
  apply emits_bind; [apply emits_recvmeth|]. intros h.
  apply emits_bind; [apply emits_of_option|]. intros hdr.
  now apply emits_sendall.
Qed.

Lemma emits_remote_info_any P :
  (forall h, P (EvGetpeername h)) -> emits P remote_info.
Proof.
  intros Hp. unfold remote_info.
  apply emits_bind; [apply emits_get_self|]. intros c.
  destruct (sock c); [now apply emits_getpeername | apply emits_raise].
Qed.

(** An exchange opens no connection. *)
Lemma emits_send_not_connect doc : emits not_connect (send doc).
Proof.
  unfold send.
  apply emits_bind; [now apply emits_remote_info_any|]. intros p.
  apply emits_bind; [apply emits_log|]. intros _.
  apply emits_bind; [now apply emits_write_any|]. intros _.
  apply emits_bind; [now apply emits_read_any|]. intros r.
  apply emits_bind; [now apply emits_remote_info_any|]. intros p'.
  apply emits_bind; [apply emits_log|]. intros _.
  apply emits_bind; [apply emits_of_option|]. intros resp.
  apply emits_ret.
Qed.


(* --------------------------------------------------------------------- *)
(** *** Methods that leave the attributes alone *)
(* --------------------------------------------------------------------- *)

Lemma keeps_self_bind {A B} (m : M A) (k : A -> M B) :
  keeps_self m -> (forall a, keeps_self (k a)) -> keeps_self (bind m k).
Proof.
  intros Hm Hk st. unfold bind. specialize (Hm st).
  destruct (m st) as [[a|e] st1]; simpl in *; [|exact Hm].
  now rewrite Hk.
Qed.

Lemma keeps_self_ret {A} (a : A) : keeps_self (ret a).
Proof. now intros st. Qed.

Lemma keeps_self_raise {A} e : keeps_self (@raise _ A e).
Proof. now intros st. Qed.

Lemma keeps_self_get_self : keeps_self get_self.
Proof. now intros st. Qed.

Lemma keeps_self_on_world f : keeps_self (on_world f).
Proof. now intros st. Qed.

Lemma keeps_self_of_option {A} e (o : option A) : keeps_self (of_option e o).
Proof. intros st. now destruct o. Qed.

Lemma keeps_self_io {A} (f : World -> (sock_err + A) * World) :
  keeps_self (io f).
Proof. intros st. apply io_self. Qed.

Lemma keeps_self_recvmeth : keeps_self recvmeth.
Proof. intros st. now rewrite recvmeth_run. Qed.

Lemma keeps_self_read : keeps_self read.
Proof. intros st. apply read_self. Qed.

Lemma keeps_self_write data : keeps_self (write data).
Proof.
  unfold write. apply keeps_self_bind; [apply keeps_self_recvmeth|]. intros h.
  apply keeps_self_bind; [apply keeps_self_of_option|]. intros hdr.
  apply keeps_self_io.
Qed.

Lemma keeps_self_remote_info : keeps_self remote_info.
Proof.
  unfold remote_info. apply keeps_self_bind; [apply keeps_self_get_self|].
  intros c. destruct (sock c); [apply keeps_self_io | apply keeps_self_raise].
Qed.

Lemma keeps_self_send doc : keeps_self (send doc).
Proof.
  unfold send.
  apply keeps_self_bind; [apply keeps_self_remote_info|]. intros p.
  apply keeps_self_bind; [apply keeps_self_on_world|]. intros _.
  apply keeps_self_bind; [apply keeps_self_write|]. intros _.
  apply keeps_self_bind; [apply keeps_self_read|]. intros r.
  apply keeps_self_bind; [apply keeps_self_remote_info|]. intros p'.
  apply keeps_self_bind; [apply keeps_self_on_world|]. intros _.
  apply keeps_self_bind; [apply keeps_self_of_option|]. intros resp.
  apply keeps_self_ret.
Qed.

Lemma keeps_self_write_many docs : keeps_self (write_many docs).
Proof.
  intros st. destruct (write_many_cases docs st) as [(e & ->) | (h & -> & _)];
    [reflexivity | apply io_self].
Qed.

Lemma write_each_self docs : forall sent st,
  self (snd (write_each docs sent st)) = self st.
Proof.
  induction docs as [|d docs IH]; intros sent st; [reflexivity|].
  simpl. pose proof (keeps_self_write (py_str d) st) as Hw.
  destruct (write (py_str d) st) as [[[]|e] st1]; simpl in *; [|exact Hw].
  now rewrite IH.
Qed.

Lemma read_each_self n : forall out recved st,
  self (snd (read_each n out recved st)) = self st.
Proof.
  induction n as [|n IH]; intros out recved st; [reflexivity|].
  simpl. pose proof (read_self st) as Hr.
  destruct (read st) as [[r|e] st1]; simpl in *; [|exact Hr].
  destruct (from_xml r); [|exact Hr]. now rewrite IH.
Qed.

Lemma keeps_self_send_phase docs failfast pipeline :
  keeps_self (send_phase docs failfast pipeline).
Proof.
  intros st. unfold send_phase. destruct pipeline.
  - pose proof (keeps_self_write_many docs st) as Hw.
    destruct (write_many docs st) as [[[]|e] st1]; simpl in *; [exact Hw|].
    now destruct failfast.
  - pose proof (write_each_self docs 0 st) as Hw.
    destruct (write_each docs 0 st) as [[n [e|]] st1]; simpl in *;
      [|exact Hw].
    now destruct failfast.
Qed.

Lemma keeps_self_recv_phase sent : keeps_self (recv_phase sent).
Proof.
  intros st. unfold recv_phase.
  pose proof (read_each_self sent [] 0%nat st) as Hr.
  now destruct (read_each sent [] 0 st) as [[[out recved] [e|]] st1].
Qed.

Lemma keeps_self_batchsend docs readresponse failfast pipeline :
  keeps_self (batchsend docs readresponse failfast pipeline).
Proof.
  unfold batchsend.
  apply keeps_self_bind; [apply keeps_self_send_phase|]. intros sent.
  destruct readresponse; simpl; [|apply keeps_self_ret].
  apply keeps_self_bind; [apply keeps_self_recv_phase|]. intros out.
  apply keeps_self_ret.
Qed.

(* --------------------------------------------------------------------- *)
(** *** No connection is opened behind the caller's back *)
(* --------------------------------------------------------------------- *)

Lemma write_each_not_connect docs : forall sent st,
  exists evs,
    trace (env (snd (write_each docs sent st))) = trace (env st) ++ evs /\
    Forall not_connect evs.
Proof.
  induction docs as [|d docs IH]; intros sent st.
  - exists []. simpl. now rewrite app_nil_r.
  - simpl.
    destruct (emits_write_any not_connect (py_str d) ltac:(easy) st)
      as (ev1 & Ht1 & Hp1).
    destruct (write (py_str d) st) as [[[]|e] st1]; simpl in *; [|eauto].
    destruct (IH (S sent) st1) as (ev2 & Ht2 & Hp2).
    exists (ev1 ++ ev2). rewrite Ht2, Ht1, app_assoc.
    split; [reflexivity | now apply Forall_app].
Qed.

Lemma read_each_not_connect n : forall out recved st,
  exists evs,
    trace (env (snd (read_each n out recved st))) = trace (env st) ++ evs /\
    Forall not_connect evs.
Proof.
  induction n as [|n IH]; intros out recved st.
  - exists []. simpl. now rewrite app_nil_r.
  - simpl.
    destruct (emits_read_any not_connect ltac:(easy) ltac:(easy) st)
      as (ev1 & Ht1 & Hp1).
    destruct (read st) as [[r|e] st1]; simpl in *; [|eauto].
    destruct (from_xml r); [|eauto].
    destruct (IH (out ++ [Some e]) (S recved) st1) as (ev2 & Ht2 & Hp2).
    exists (ev1 ++ ev2). rewrite Ht2, Ht1, app_assoc.
    split; [reflexivity | now apply Forall_app].
Qed.

Lemma emits_batchsend_not_connect docs readresponse failfast pipeline :
  emits not_connect (batchsend docs readresponse failfast pipeline).
Proof.
  unfold batchsend. apply emits_bind.
  - intros st. unfold send_phase. destruct pipeline.
    + destruct (write_many_cases docs st) as [(e & ->) | (h & -> & _)].
      * exists []. rewrite app_nil_r. split; [now destruct failfast | auto].
      * destruct (emits_sendall not_connect h (frames docs) ltac:(easy) st)
          as (evs & Ht & Hp).
        exists evs. split; [|exact Hp].
        destruct (io (sock_sendall h (frames docs)) st) as [[[]|e] st1];
          simpl in *; [exact Ht | now destruct failfast].
    + destruct (write_each_not_connect docs 0 st) as (evs & Ht & Hp).
      exists evs. split; [|exact Hp].
      destruct (write_each docs 0 st) as [[n [e|]] st1]; simpl in *;
        [now destruct failfast | exact Ht].
  - intros sent. destruct readresponse; simpl; [|apply emits_ret].
    apply emits_bind; [|intros; apply emits_ret].
    intros st. unfold recv_phase.
    destruct (read_each_not_connect sent [] 0%nat st) as (evs & Ht & Hp).
    exists evs. split; [|exact Hp].
    now destruct (read_each sent [] 0 st) as [[[out recved] [e|]] st1].
Qed.

(** X5.  Only [connect], and [login] on a client without socket, ever
    open a connection.  An exchange ([send], so [hello] and [logout]
    too), a frame read or write, and a batch in any mode make neither a
    connect nor a handshake call, and they leave every attribute of the
    client as it was: after a failure nothing is reconnected, and [sock]
    is never reset. *)
Theorem no_reconnection :
  (forall doc, emits not_connect (send doc) /\ keeps_self (send doc)) /\
  (emits not_connect hello /\ keeps_self hello) /\
  (emits not_connect logout /\ keeps_self logout) /\
  (emits not_connect read /\ keeps_self read) /\
  (forall data, emits not_connect (write data) /\ keeps_self (write data)) /\
  (forall docs readresponse failfast pipeline,
      emits not_connect (batchsend docs readresponse failfast pipeline) /\
      keeps_self (batchsend docs readresponse failfast pipeline)).
Proof.
  split; [|split; [|split; [|split; [|split]]]].
  - intros doc. split; [apply emits_send_not_connect | apply keeps_self_send].
  - split; [apply emits_send_not_connect | apply keeps_self_send].
  - split; [apply emits_send_not_connect | apply keeps_self_send].
  - split; [now apply emits_read_any | apply keeps_self_read].
  - intros data. split; [now apply emits_write_any | apply keeps_self_write].
  - intros docs rr ff pl.
    split; [apply emits_batchsend_not_connect | apply keeps_self_batchsend].
Qed.

(* --------------------------------------------------------------------- *)
(** *** After [connect], whether it succeeded or not *)
(* --------------------------------------------------------------------- *)

(** [login] on a client whose socket attribute is set: the exchange and
    the check of the response, nothing before. *)
Lemma login_connected_run clID pw rof st s :
  sock (self st) = Some s ->
  login clID pw rof st =
  match send (EppLoginCommand clID pw) st with
  | (Raise e, st2) => (Raise e, st2)
  | (Ok r, st2) =>
      (if negb (success r) && rof then Raise (EppLoginError r) else Ok r, st2)
  end.
Proof.
  intros Hs. unfold login, bind, get_self, ret, raise. rewrite Hs.
  destruct (send (EppLoginCommand clID pw) st) as [[r|e] st2]; [|reflexivity].
  now destruct (negb (success r) && rof).
Qed.

Lemma login_connected_state clID pw rof st s :
  sock (self st) = Some s ->
  snd (login clID pw rof st) = snd (send (EppLoginCommand clID pw) st).
Proof.
  intros Hs. rewrite (login_connected_run clID pw rof st s Hs).
  now destruct (send (EppLoginCommand clID pw) st) as [[r|e] st2].
Qed.

(** X6.  [login] on a client whose [sock] is set, whatever the state of
    that socket: no connection is opened, no greeting is read, and the
    attributes, the stored greeting among them, stay as they were.  If
    anything is written, the calls start with the peer name asked for
    the log and the write of the login frame on that socket. *)
Theorem login_connected clID pw rof st s :
  sock (self st) = Some s ->
  self (snd (login clID pw rof st)) = self st /\
  exists evs,
    trace (env (snd (login clID pw rof st))) = trace (env st) ++ evs /\
    Forall not_connect evs /\
    (Exists (fun e => is_send e = true) evs ->
     exists ok rest,
       evs = [EvGetpeername (fileno s);
              EvSend (fileno s) (frame (doc_str (EppLoginCommand clID pw))) ok]
             ++ rest).
Proof.
  intros Hs. rewrite (login_connected_state clID pw rof st s Hs).
  split; [apply keeps_self_send|].
  destruct (emits_send_not_connect (EppLoginCommand clID pw) st)
    as (evs & Ht & Hp).
  destruct (send_shape (EppLoginCommand clID pw) st s Hs) as (evs' & Ht' & Hsh).
  rewrite Ht in Ht'. apply app_inv_head in Ht'. subst evs'.
  exists evs. auto.
Qed.



(** X7.  When [connect] returns, the port asked for was within
    0..65535 and the next peer of the network has accepted; the client
    is attached to a new socket that is connected and open and has
    written nothing, under a TLS wrapper exactly when TLS is enabled.
    [remote_info] then reports the address at which that peer was
    reached, whatever the host string given.  Under TLS the handshake
    has succeeded, and the certificate matches the host if hostnames
    are validated.  Of the connections that existed before, the one to
    which the client was attached is closed, its socket objects being
    freed, and those that the client did not hold are untouched. *)
Theorem connect_success hst p st st1 :
  connect hst p st = (Ok tt, st1) ->
  attached (self st1) (length (socks (env st))) /\
  live (length (socks (env st))) (env st1) /\
  wrapped_as (self st1) (length (socks (env st))) (env st1) /\
  wire_of (length (socks (env st))) (env st1) = [] /\
  0 <= port_or p (port (self st)) <= 65535 /\
  (exists pr rest,
     net (env st) = pr :: rest /\ accepts pr = true /\
     fst (remote_info st1) = Ok (peer_addr pr) /\
     (ssl_enable (self st) = true ->
      tls_ok pr = true /\
      (validate_hostname (self st) = true -> cert_matches pr = true))) /\
  (forall h0, attached (self st) h0 ->
              wrapped_as (self st) h0 (env st) ->
              (h0 < length (socks (env st)))%nat ->
              is_closed h0 (env st1) = true) /\
  (forall i, (i < length (socks (env st)))%nat ->
             referenced (self st) i = false ->
             socks (env st1) !! i = socks (env st) !! i).
Proof.
  intros E.
  pose proof (connect_outcome hst p st) as Ho.
  destruct (connect_spec hst p st) as (hs & _ & _ & Hok & _).
  rewrite E in Ho, Hok. simpl in Ho, Hok.
  destruct (Hok eq_refl) as (_ & Hatt & Hssl1). clear Hok.
  destruct (Z.leb_spec 0 (port_or p (port (self st)))) as [Hp0|];
    [|destruct Ho as [Hc _]; discriminate].
  destruct (Z.leb_spec (port_or p (port (self st))) 65535) as [Hp1|];
    [|destruct Ho as [Hc _]; discriminate].
  simpl in Ho.
  destruct (net (env st)) as [|pr rest] eqn:Hnet;
    [destruct Ho as [Hc _]; discriminate|].
  destruct (accepts pr) eqn:Hacc; [|destruct Ho as [Hc _]; discriminate].
  destruct Ho as (Hsock & Hraw & Hrest).
  assert (Hlive : live (length (socks (env st))) (env st1)).
  { eexists. split; [exact Hsock|]. split; reflexivity. }
  assert (Htls : ssl_enable (self st) = true ->
                 tls_ok pr = true /\
                 (validate_hostname (self st) = true ->
                  cert_matches pr = true)).
  { intros Hssl. rewrite Hssl in Hrest.
    destruct (tls_ok pr); [|destruct Hrest as [Hc _]; discriminate].
    destruct Hrest as [_ Hrest]. split; [reflexivity|]. intros Hv.
    rewrite Hv in Hrest. simpl in Hrest.
    destruct (cert_matches pr); [reflexivity|].
    destruct Hrest as [Hc _]. discriminate. }
  split; [exact Hatt|]. split; [exact Hlive|].
  split; [|split; [|split; [|split; [|split]]]].
  - unfold wrapped_as, is_wrapped, handle. rewrite Hsock, Hssl1. simpl.
    destruct (ssl_enable (self st)); [|reflexivity].
    now destruct (Htls eq_refl) as [-> _].
  - unfold wire_of, handle. now rewrite Hsock.
  - lia.
  - exists pr, rest. repeat split; auto; try (now apply Htls).
    destruct (attached_sock _ _ Hatt) as (s & Hs & Hf).
    unfold remote_info, bind, get_self. rewrite Hs, Hf.
    rewrite io_fst. unfold sock_getpeername, handle. simpl. now rewrite Hsock.
  - intros h0 Ha0 Hw0 Hi.
    assert (Hst1 : st1 = snd (connect hst p st)) by now rewrite E.
    rewrite Hst1. apply connect_closes_held; auto. now rewrite E.
  - intros i Hi Hr.
    assert (Hst1 : st1 = snd (connect hst p st)) by now rewrite E.
    rewrite Hst1. now apply connect_other_sockets.
Qed.

(** X8.  When [connect] raises [EppConnectionError] (the certificate
    does not name the host), the TLS connection stays up: the socket is
    connected and not closed, [sock] holds its TLS wrapper and [_sock]
    the plain socket, and the mismatch is logged.  A [login] on the same
    client then finds [sock] set and goes on over that connection
    without connecting or validating again. *)
Theorem connect_hostname_mismatch hst p st clID pw rof :
  fst (connect hst p st) = Raise EppConnectionError ->
  ssl_enable (self st) = true /\
  validate_hostname (self st) = true /\
  sock (self (snd (connect hst p st)))
  = Some (SSLSocket (length (socks (env st)))) /\
  _sock (self (snd (connect hst p st)))
  = Some (RawSocket (length (socks (env st)))) /\
  live (length (socks (env st))) (env (snd (connect hst p st))) /\
  log (env (snd (connect hst p st))) = log (env st) ++ [LogHostnameMismatch] /\
  exists evs,
    trace (env (snd (login clID pw rof (snd (connect hst p st)))))
    = trace (env (snd (connect hst p st))) ++ evs /\
    Forall not_connect evs.
Proof.
  intros E. pose proof (connect_outcome hst p st) as Ho. simpl in Ho.
  rewrite E in Ho.
  match type of Ho with
  | if ?b then _ else _ =>
      destruct b; [destruct Ho as [Hc _]; discriminate|]
  end.
  destruct (net (env st)) as [|pr rest];
    [destruct Ho as [Hc _]; discriminate|].
  destruct (accepts pr); [|destruct Ho as [Hc _]; discriminate].
  destruct Ho as (Hsock & Hraw & Hrest).
  destruct (ssl_enable (self st)); [|destruct Hrest as [Hc _]; discriminate].
  destruct (tls_ok pr); [|destruct Hrest as [Hc _]; discriminate].
  simpl in Hsock.
  destruct Hrest as [Hs Hrest].
  destruct (validate_hostname (self st)); simpl in Hrest; [|discriminate].
  destruct (cert_matches pr); simpl in Hrest; [discriminate|].
  destruct Hrest as [_ Hlog].
  repeat (split; [assumption || reflexivity|]).
  split; [eexists; split; [exact Hsock|]; split; reflexivity|].
  split; [exact Hlog|].
  rewrite (login_connected_state clID pw rof _ _ Hs).
  apply emits_send_not_connect.
Qed.

(** On a socket that was never connected, the first call of [login]
    raises "not connected". *)
Lemma login_on_unconnected clID pw rof st s sk :
  sock (self st) = Some s ->
  socks (env st) !! fileno s = Some sk ->
  closed sk = false -> connected sk = false ->
  login clID pw rof st
  = (Raise (SocketError ENOTCONN),
     {| self := self st; env := emit (EvGetpeername (fileno s)) (env st) |}).
Proof.
  intros Hs Hsk Hc Hn. rewrite (login_connected_run clID pw rof st s Hs).
  unfold send, bind at 1, remote_info, bind at 1, get_self. rewrite Hs.
  unfold io, sock_getpeername. simpl. unfold handle in *.
  now rewrite Hsk, Hc, Hn.
Qed.

(** X9.  When [connect] is refused, [sock] is left holding the socket
    that failed to connect, and [_sock] is left as it was.  A [login] on
    the same client therefore does not try to connect again: it raises
    "not connected" at its first call.  If the client had never been
    connected, [close] raises [AttributeError]. *)
Theorem connect_refused hst p st clID pw rof :
  fst (connect hst p st) = Raise (SocketError ECONNREFUSED) ->
  sock (self (snd (connect hst p st)))
  = Some (RawSocket (length (socks (env st)))) /\
  _sock (self (snd (connect hst p st))) = _sock (self st) /\
  login clID pw rof (snd (connect hst p st))
  = (Raise (SocketError ENOTCONN),
     {| self := self (snd (connect hst p st));
        env := emit (EvGetpeername (length (socks (env st))))
                 (env (snd (connect hst p st))) |}) /\
  (_sock (self st) = None ->
   close (snd (connect hst p st))
   = (Raise AttributeError, snd (connect hst p st))).
Proof.
  intros E. pose proof (connect_outcome hst p st) as Ho. simpl in Ho.
  rewrite E in Ho.
  assert (Hcase : sock (self (snd (connect hst p st)))
                  = Some (RawSocket (length (socks (env st)))) /\
                  _sock (self (snd (connect hst p st))) = _sock (self st) /\
                  socks (env (snd (connect hst p st)))
                    !! length (socks (env st))
                  = Some {| connected := false; closed := false;
                            raw_closed := false; wrapped := false;
                            peername := (EmptyString, 0); inbox := [];
                            send_script := []; wire := [] |}).
  { match type of Ho with
    | if ?b then _ else _ =>
        destruct b; [destruct Ho as [Hc _]; discriminate|]
    end.
    destruct (net (env st)) as [|pr rest]; [tauto|].
    destruct (accepts pr); [|tauto].
    destruct Ho as (_ & _ & Hrest).
    destruct (ssl_enable (self st)); [|destruct Hrest as [Hc _]; discriminate].
    destruct (tls_ok pr); [|destruct Hrest as [Hc _]; discriminate].
    destruct Hrest as [_ Hrest].
    destruct (validate_hostname (self st) && negb (cert_matches pr));
      [destruct Hrest as [Hc _]|]; discriminate. }
  destruct Hcase as (Hs & Hraw & Hsk).
  split; [exact Hs|]. split; [exact Hraw|]. split.
  - now rewrite (login_on_unconnected clID pw rof _ _ _ Hs Hsk).
  - intros Hnone. rewrite close_run, Hraw, Hnone. reflexivity.
Qed.

(** X10.  A client that was never connected.  [send], [hello], [logout],
    [read], [write] and [close] raise [AttributeError] and touch
    nothing; they do not connect.  A batch without [failfast] swallows
    that: it reports nothing sent, 0 or the empty list, and logs the
    failure; with [failfast] it raises. *)
Theorem never_connected st :
  sock (self st) = None ->
  (forall doc, send doc st = (Raise AttributeError, st)) /\
  hello st = (Raise AttributeError, st) /\
  logout st = (Raise AttributeError, st) /\
  read st = (Raise AttributeError, st) /\
  (forall data, write data st = (Raise AttributeError, st)) /\
  (_sock (self st) = None -> close st = (Raise AttributeError, st)) /\
  (forall docs readresponse pipeline,
      pipeline = true \/ docs <> [] ->
      batchsend docs readresponse false pipeline st
      = (Ok (if readresponse then BatchOut [] else BatchSent 0),
         logged (LogFailedSend 0 (length docs)) st) /\
      batchsend docs readresponse true pipeline st
      = (Raise AttributeError, logged (LogFailedSend 0 (length docs)) st)).
Proof.
  intros Hs.
  assert (Hsend : forall doc, send doc st = (Raise AttributeError, st)).
  { intros doc. unfold send, bind at 1, remote_info, bind at 1, get_self.
    now rewrite Hs. }
  assert (Hwrite : forall data, write data st = (Raise AttributeError, st)).
  { intros data. rewrite write_run, writemeth_run, recvmeth_run.
    now rewrite Hs. }
  split; [exact Hsend|]. split; [apply Hsend|]. split; [apply Hsend|].
  split; [rewrite read_run, recvmeth_run; now rewrite Hs|].
  split; [exact Hwrite|].
  split; [intros Hr; rewrite close_run; now rewrite Hr|].
  intros docs rr pl Hcase.
  assert (Hphase : forall ff,
            send_phase docs ff pl st
            = (if ff then Raise AttributeError else Ok 0%nat,
               logged (LogFailedSend 0 (length docs)) st)).
  { intros ff. unfold send_phase. destruct pl.
    - rewrite write_many_run, writemeth_run, recvmeth_run, Hs. simpl.
      now destruct ff.
    - destruct docs as [|d docs]; [destruct Hcase; congruence|].
      simpl. rewrite Hwrite. now destruct ff. }
  unfold batchsend, bind. rewrite !Hphase. simpl.
  split; [|reflexivity].
  now destruct rr.
Qed.

(* --------------------------------------------------------------------- *)
(** *** The exchange when it succeeds *)
(* --------------------------------------------------------------------- *)

Lemma sock_recv_log h n w : log (snd (sock_recv h n w)) = log w.
Proof.
  unfold sock_recv. simpl.
  destruct (socks w !! h) as [s|]; [|reflexivity].
  destruct (closed s); [reflexivity|].
  destruct (connected s); [|reflexivity]. simpl.
  destruct (n <? 0); [reflexivity|].
  destruct (n =? 0); [reflexivity|].
  now destruct (deliver (Z.to_nat n) (inbox s)) as [[data|] q].
Qed.

Lemma sock_close_log h w : log (sock_close h w) = log w.
Proof.
  unfold sock_close. simpl.
  destruct (socks w !! h) as [s|]; [destruct (wrapped s)|]; reflexivity.
Qed.

(** A frame read writes nothing to the log. *)
Lemma read_log st : log (env (snd (read st))) = log (env st).
Proof.
  rewrite read_run. destruct (fst (recvmeth st)) as [h|e]; [|reflexivity].
  pose proof (sock_recv_log h 4 (env st)) as L1.
  destruct (sock_recv h 4 (env st)) as [[e1|siz] w1]; [exact L1|].
  simpl in L1. unfold read_payload, bind, io, of_option, ret, raise.
  destruct (is_empty siz).
  - rewrite close_run. simpl. destruct (_sock (self st)); simpl;
      [now rewrite sock_close_log | exact L1].
  - destruct (struct_unpack_I siz) as [total|]; simpl; [|exact L1].
    pose proof (sock_recv_log h (total - 4) w1) as L2.
    destruct (sock_recv h (total - 4) w1) as [[e2|data] w2]; simpl in *;
      [congruence|].
    destruct (is_empty data); simpl; [|congruence].
    rewrite close_run. simpl. destruct (_sock (self st)); simpl;
      [rewrite sock_close_log|]; congruence.
Qed.

(** X11.  An exchange that returns has made, in this order: the peer
    name call for the log, one write carrying the frame of the rendered
    document, the two receive calls of one frame read, and the peer
    name call again.  What it returns is the parsed payload of that
    frame after the document's [normalize_response]; the log has
    received the document sent and the payload read; the client's
    attributes are unchanged. *)
Theorem send_exchange doc st h resp st' :
  attached (self st) h ->
  send doc st = (Ok resp, st') ->
  exists r r0 n p p',
    trace (env st')
    = trace (env st)
      ++ [EvGetpeername h; EvSend h (frame (doc_str doc)) true;
          EvRecv h 4; EvRecv h n; EvGetpeername h] /\
    from_xml r = Some r0 /\
    resp = normalize_response doc r0 /\
    log (env st')
    = log (env st) ++ [LogSend p (doc_str doc); LogRecv p' r] /\
    self st' = self st.
Proof.
  intros Ha. destruct (attached_sock _ _ Ha) as (s & Hs & Hf).
  unfold send.
  unfold bind at 1. unfold remote_info at 1, bind at 1, get_self at 1.
  rewrite Hs, Hf.
  pose proof (io_env (sock_getpeername h) st) as He1.
  pose proof (io_self (sock_getpeername h) st) as Hself1.
  rewrite sock_getpeername_world in He1.
  destruct (io (sock_getpeername h) st) as [[p|e] st1]; [|discriminate].
  simpl in He1, Hself1.
  unfold bind at 1, on_world at 1. unfold bind at 1.
  set (stw := {| self := self st1;
                 env := log_append (LogSend p (doc_str doc)) (env st1) |}).
  assert (Ha1 : attached (self stw) h) by (simpl; now rewrite Hself1).
  pose proof (write_ok_wire (doc_str doc) stw) as Hw.
  destruct (write_events (doc_str doc) stw) as (evw & _ & _ & _ & Hl2).
  destruct (write (doc_str doc) stw) as [[[]|e] st2] eqn:Ew; [|discriminate].
  destruct (Hw st2 h Ha1 eq_refl) as (_ & _ & Ht2 & Hself2). clear Hw.
  simpl in Ht2, Hself2, Hl2.
  assert (Ha2 : attached (self st2) h) by (now rewrite Hself2, Hself1).
  unfold bind at 1.
  pose proof (read_ok_events st2 h) as Hev.
  pose proof (read_self st2) as Hself3.
  pose proof (read_log st2) as Hl3.
  destruct (read st2) as [[r|e] st3]; [|discriminate].
  destruct (Hev r Ha2 eq_refl) as (n & Ht3). clear Hev.
  simpl in Ht3, Hself3, Hl3.
  unfold bind at 1. unfold remote_info at 1, bind at 1, get_self at 1.
  rewrite Hself3, Hself2, Hself1, Hs, Hf.
  pose proof (io_env (sock_getpeername h) st3) as He4.
  pose proof (io_self (sock_getpeername h) st3) as Hself4.
  rewrite sock_getpeername_world in He4.
  destruct (io (sock_getpeername h) st3) as [[p'|e] st4]; [|discriminate].
  simpl in He4, Hself4.
  unfold bind, on_world, of_option, ret, raise.
  destruct (from_xml r) as [r0|] eqn:Hx; [|discriminate].
  intros [= <- <-].
  exists r, r0, n, p, p'. simpl.
  split; [|split; [exact Hx|split; [reflexivity|split]]].
  - rewrite He4. simpl. rewrite Ht3, Ht2, He1. simpl.
    now rewrite <- !app_assoc.
  - rewrite He4. simpl. rewrite Hl3, Hl2, He1. simpl.
    now rewrite <- !app_assoc.
  - now rewrite Hself4, Hself3, Hself2, Hself1.
Qed.

(** X12.  A [login] that goes through the greeting stores it: once the
    connection is made and the first frame read parses, [greeting] holds
    the parsed frame when [login] is over, also when the exchange after
    it fails or the login is refused; the other attributes are those
    that [connect] left. *)
Theorem login_stores_greeting clID pw rof st st2 r st3 g :
  sock (self st) = None ->
  connect (host (self st)) (Some (port (self st))) st = (Ok tt, st2) ->
  read st2 = (Ok r, st3) ->
  from_xml r = Some g ->
  self (snd (login clID pw rof st)) = with_greeting (Some g) (self st2) /\
  greeting (self (snd (login clID pw rof st))) = Some g.
Proof.
  intros Hs Hc Hr Hx.
  assert (Hg : greet st
               = (Ok tt, {| self := with_greeting (Some g) (self st3);
                            env := env st3 |})).
  { unfold greet, bind, get_self, set_self, of_option, ret.
    now rewrite Hc, Hr, Hx. }
  assert (Hself : self (snd (login clID pw rof st))
                  = with_greeting (Some g) (self st2)).
  { rewrite (login_fresh_run clID pw rof st Hs), Hg.
    pose proof (keeps_self_send (EppLoginCommand clID pw)
                  {| self := with_greeting (Some g) (self st3);
                     env := env st3 |}) as Hk.
    pose proof (read_self st2) as Hrs. rewrite Hr in Hrs. simpl in Hrs.
    destruct (send (EppLoginCommand clID pw) _) as [[resp|e] st4];
      simpl in *; now rewrite Hk, Hrs. }
  split; [exact Hself | now rewrite Hself].
Qed.

(* --------------------------------------------------------------------- *)
(** *** What reaches the wire *)
(* --------------------------------------------------------------------- *)

(** A write-all call that returns has put all its bytes on the wire, in
    one call. *)
Lemma sendall_ok_wire h data st st' :
  io (sock_sendall h data) st = (Ok tt, st') ->
  wire_of h (env st') = wire_of h (env st) ++ data /\
  trace (env st') = trace (env st) ++ [EvSend h data true] /\
  self st' = self st.
Proof.
  unfold io, sock_sendall, wire_of.
  destruct (socks (env st) !! h) as [s|] eqn:Hs; [|discriminate].
  assert (Hlt : (h < length (socks (env st)))%nat)
    by (eapply lookup_lt_Some; eassumption).
  destruct (closed s); [discriminate|].
  destruct (connected s); [|discriminate]. simpl.
  destruct (send_script s) as [|[|k] script]; intros E; inversion E; subst;
    simpl; rewrite list_lookup_insert_eq by assumption; simpl; auto.
Qed.

Lemma sendall_meth_run st :
  sendall_meth st =
  (match sock (self st) with
   | None => Raise AttributeError
   | Some s => Ok (fileno s)
   end, st).
Proof.
  unfold sendall_meth, bind, get_self, ret, raise.
  now destruct (sock (self st)).
Qed.

(** X13.  The split writes put on the wire the very bytes that [write]
    does: when [write_split], [write_splitsize] or [write_splitall]
    returns, the wire has grown by the frame of the payload, cut in two,
    three and four write calls at the places their names say. *)
Theorem split_writes_same_wire data st s :
  sock (self st) = Some s ->
  (forall st', write_split data st = (Ok tt, st') ->
     wire_of (fileno s) (env st') = wire_of (fileno s) (env st) ++ frame data /\
     trace (env st')
     = trace (env st)
       ++ [EvSend (fileno s) (be32 (4 + len data) ++ take 4 data) true;
           EvSend (fileno s) (drop 4 data) true]) /\
  (forall st', write_splitsize data st = (Ok tt, st') ->
     wire_of (fileno s) (env st') = wire_of (fileno s) (env st) ++ frame data /\
     trace (env st')
     = trace (env st)
       ++ [EvSend (fileno s) (take 2 (be32 (4 + len data))) true;
           EvSend (fileno s) (drop 2 (be32 (4 + len data))) true;
           EvSend (fileno s) data true]) /\
  (forall st', write_splitall data st = (Ok tt, st') ->
     wire_of (fileno s) (env st') = wire_of (fileno s) (env st) ++ frame data /\
     trace (env st')
     = trace (env st)
       ++ [EvSend (fileno s) (take 2 (be32 (4 + len data))) true;
           EvSend (fileno s) (drop 2 (be32 (4 + len data))) true;
           EvSend (fileno s) (take 4 data) true;
           EvSend (fileno s) (drop 4 data) true]).
Proof.
  intros Hs.
  assert (Hcut : take 4 data ++ drop 4 data = data) by apply take_drop.
  split; [|split]; intros st'.
  - unfold write_split, bind at 1. rewrite sendall_meth_run, Hs.
    unfold bind at 1, of_option.
    destruct (struct_pack_I (4 + len data)) as [hdr|] eqn:Hp; [|discriminate].
    apply struct_pack_I_Some in Hp as [-> _]. unfold ret, bind.
    destruct (io (sock_sendall (fileno s) (be32 (4 + len data) ++ take 4 data))
                st) as [[[]|e] st1] eqn:E1; [|discriminate].
    apply sendall_ok_wire in E1 as (W1 & T1 & _).
    intros E2. apply sendall_ok_wire in E2 as (W2 & T2 & _).
    rewrite W2, W1, T2, T1. unfold frame.
    split; [now rewrite <- !app_assoc, Hcut | now rewrite <- app_assoc].
  - unfold write_splitsize, bind at 1. rewrite sendall_meth_run, Hs.
    unfold bind at 1, of_option.
    destruct (struct_pack_I (4 + len data)) as [hdr|] eqn:Hp; [|discriminate].
    apply struct_pack_I_Some in Hp as [-> _]. unfold ret, bind.
    destruct (io (sock_sendall (fileno s) (take 2 (be32 (4 + len data)))) st)
      as [[[]|e] st1] eqn:E1; [|discriminate].
    apply sendall_ok_wire in E1 as (W1 & T1 & _).
    destruct (io (sock_sendall (fileno s) (drop 2 (be32 (4 + len data)))) st1)
      as [[[]|e] st2] eqn:E2; [|discriminate].
    apply sendall_ok_wire in E2 as (W2 & T2 & _).
    intros E3. apply sendall_ok_wire in E3 as (W3 & T3 & _).
    rewrite W3, W2, W1, T3, T2, T1. unfold frame.
    split; now rewrite <- !app_assoc.
  - unfold write_splitall, bind at 1. rewrite sendall_meth_run, Hs.
    unfold bind at 1, of_option.
    destruct (struct_pack_I (4 + len data)) as [hdr|] eqn:Hp; [|discriminate].
    apply struct_pack_I_Some in Hp as [-> _]. unfold ret, bind.
    destruct (io (sock_sendall (fileno s) (take 2 (be32 (4 + len data)))) st)
      as [[[]|e] st1] eqn:E1; [|discriminate].
    apply sendall_ok_wire in E1 as (W1 & T1 & _).
    destruct (io (sock_sendall (fileno s) (drop 2 (be32 (4 + len data)))) st1)
      as [[[]|e] st2] eqn:E2; [|discriminate].
    apply sendall_ok_wire in E2 as (W2 & T2 & _).
    destruct (io (sock_sendall (fileno s) (take 4 data)) st2)
      as [[[]|e] st3] eqn:E3; [|discriminate].
    apply sendall_ok_wire in E3 as (W3 & T3 & _).
    intros E4. apply sendall_ok_wire in E4 as (W4 & T4 & _).
    rewrite W4, W3, W2, W1, T4, T3, T2, T1. unfold frame.
    split; [|now rewrite <- !app_assoc].
    rewrite <- !app_assoc. simpl. now rewrite Hcut.
Qed.

(** Plain writes that all succeed put the frames of the documents on
    the wire, one after the other. *)
Lemma writes_ok_wire docs st st2 h :
  writes_ok docs st st2 ->
  attached (self st) h ->
  wire_of h (env st2) = wire_of h (env st) ++ frames docs /\
  self st2 = self st.
Proof.
  induction 1 as [st|d ds st st1 st2 Hw Hok IH]; intros Ha.
  - unfold frames. simpl. now rewrite app_nil_r.
  - destruct (write_ok_wire _ _ _ _ Ha Hw) as (W1 & _ & _ & S1).
    destruct IH as (W2 & S2); [now rewrite S1|].
    rewrite W2, W1, S2, S1. split; [|reflexivity].
    unfold frames. simpl. now rewrite <- app_assoc.
Qed.

(** X14.  For documents given as byte strings the two send paths agree:
    when the one pipelined write succeeds, and when the single writes
    all succeed, the wire has grown by the same bytes, the frames of
    the documents in order. *)
Theorem pipelined_and_plain_agree docs st h :
  attached (self st) h ->
  (forall st1, write_many docs st = (Ok tt, st1) ->
     all_str docs = true /\
     wire_of h (env st1) = wire_of h (env st) ++ frames docs) /\
  (forall st2, writes_ok docs st st2 ->
     wire_of h (env st2) = wire_of h (env st) ++ frames docs).
Proof.
  intros Ha. split.
  - intros st1 Hw.
    rewrite write_many_run, writemeth_run, (attached_recvmeth _ _ Ha) in Hw.
    simpl in Hw.
    destruct (fst (write_many_buf docs [] st)) as [b|e] eqn:Hb; [|discriminate].
    apply write_many_buf_ok in Hb as (tail & -> & Hj). simpl in Hw.
    destruct (all_str docs); rewrite Hj in Hw; [|discriminate].
    split; [reflexivity|].
    now apply sendall_ok_wire in Hw as (W & _ & _).
  - intros st2 Hok. now apply (writes_ok_wire docs st st2 h Hok Ha).
Qed.
(** X15.  Without [failfast] a batch never raises: whatever fails in a
    write, a read or the parsing of a response is swallowed.  It returns
    the number [sent] of documents sent, at most the number given, or,
    when responses are wanted, a list of exactly [sent] entries. *)
Theorem batchsend_swallows_failures docs readresponse pipeline st :
  exists sent,
    fst (send_phase docs false pipeline st) = Ok sent /\
    (sent <= length docs)%nat /\
    match fst (batchsend docs readresponse false pipeline st) with
    | Ok (BatchSent n) => readresponse = false /\ n = sent
    | Ok (BatchOut out) => readresponse = true /\ length out = sent
    | Raise _ => False
    end.
Proof.
  destruct (batchsend_slots docs pipeline st) as (sent & out & Hs & Hb & Hl).
  destruct (send_phase_spec docs false pipeline st) as (evs & _ & _ & Hres).
  rewrite Hs in Hres. destruct Hres as [Hle _].
  exists sent. split; [exact Hs|]. split; [exact Hle|].
  destruct readresponse.
  - rewrite Hb. auto.
  - unfold batchsend, bind.
    destruct (send_phase docs false pipeline st) as [[n|e] st1]; simpl in *;
      [|discriminate].
    injection Hs as ->. auto.
Qed.

(** X16.  A frame read hands back what arrived in the segment that
    carried the header, and no more: if only the first bytes of the
    payload came with the header, [read] returns those bytes as if they
    were the payload, and the rest stays in the queue, where the next
    read will take it for a header. *)
Theorem read_short_payload st h s n p1 q :
  attached (self st) h ->
  socks (env st) !! h = Some s ->
  closed s = false -> connected s = true ->
  inbox s = Segment (be32 (4 + n) ++ p1) :: q ->
  p1 <> [] -> len p1 <= n -> 4 + n < 2 ^ 32 ->
  fst (read st) = Ok p1 /\
  inbox_of h (env (snd (read st))) = q.
Proof.
  intros Ha Hs Hc Hn Hin Hp Hle Hr.
  pose proof (len_pos p1 Hp) as Hlen.
  assert (Hlt : (h < length (socks (env st)))%nat)
    by (eapply lookup_lt_Some; eassumption).
  assert (H1 : sock_recv h 4 (env st)
               = (inr (be32 (4 + n)),
                  set_sock h (with_inbox (Segment p1 :: q) s)
                    (emit (EvRecv h 4) (env st)))).
  { rewrite (sock_recv_segment h 4 (env st) s (be32 (4 + n) ++ p1) q);
      auto; try lia.
    change (Z.to_nat 4) with (length (be32 (4 + n))).
    rewrite take_app_length, drop_app_length.
    destruct p1; [congruence | reflexivity]. }
  assert (H2 : sock_recv h n
                 (set_sock h (with_inbox (Segment p1 :: q) s)
                    (emit (EvRecv h 4) (env st)))
               = (inr p1,
                  set_sock h (with_inbox q (with_inbox (Segment p1 :: q) s))
                    (emit (EvRecv h n)
                       (set_sock h (with_inbox (Segment p1 :: q) s)
                          (emit (EvRecv h 4) (env st)))))).
  { rewrite (sock_recv_segment h n _ (with_inbox (Segment p1 :: q) s) p1 q);
      auto; try lia; try (simpl; now apply list_lookup_insert_eq).
    unfold len in Hle.
    rewrite take_ge, drop_ge by lia. reflexivity. }
  assert (Hread : read st
            = (Ok p1,
               {| self := self st;
                  env := set_sock h
                           (with_inbox q (with_inbox (Segment p1 :: q) s))
                           (emit (EvRecv h n)
                              (set_sock h (with_inbox (Segment p1 :: q) s)
                                 (emit (EvRecv h 4) (env st)))) |})).
  { rewrite read_run, (attached_recvmeth _ _ Ha). simpl.
    rewrite H1. unfold read_payload.
    change (is_empty (be32 (4 + n))) with false. cbv iota.
    unfold bind, of_option, ret, io.
    rewrite (unpack_be32 (4 + n)) by lia. simpl.
    replace (4 + n - 4) with n by lia.
    rewrite H2.
    now assert (is_empty p1 = false) as ->
        by (destruct p1; [congruence|reflexivity]). }
  rewrite Hread. simpl. split; [reflexivity|].
  unfold inbox_of. simpl.
  rewrite list_lookup_insert_eq; [reflexivity|].
  now rewrite length_insert.
Qed.

Lemma read_each_fails_state st n out recved :
  read_fails st ->
  exists e, read_each (S n) out recved st = ((out, recved, Some e), snd (read st)).
Proof.
  intros [(e & He) | (r & Hr & Hx)]; simpl;
    destruct (read st) as [[r'|e'] st']; simpl in *; try discriminate.
  - inversion He; subst. eauto.
  - inversion Hr; subst. rewrite Hx. eauto.
Qed.

(** X17.  The receive phase stops at the first response that cannot be
    had.  After R responses read and parsed, if the next read raises or
    its payload does not parse, no further read is made: the batch ends
    in the state that this last read left, with "received R of sent"
    logged, so what the peer sends later stays unread on the connection.
    If all [sent] responses are had, nothing is logged. *)
Theorem recv_phase_stops_at_failure sent st1 rs st3 :
  reads_ok st1 rs st3 ->
  ((length rs < sent)%nat -> read_fails st3 ->
   recv_phase sent st1
   = (Ok (map Some rs ++ repeat None (sent - length rs)),
      logged (LogFailedRecv (length rs) sent) (snd (read st3)))) /\
  (length rs = sent ->
   recv_phase sent st1 = (Ok (map Some rs), st3)).
Proof.
  intros Hok. split.
  - intros Hlt Hfail. unfold recv_phase.
    replace sent with (length rs + S (sent - length rs - 1))%nat at 1 by lia.
    rewrite (read_each_reads_ok _ _ _ Hok).
    destruct (read_each_fails_state st3 (sent - length rs - 1)
                ([] ++ map Some rs) (0 + length rs)%nat Hfail) as (e & ->).
    simpl. now rewrite length_map.
  - intros <-. unfold recv_phase.
    replace (length rs) with (length rs + 0)%nat at 1 by lia.
    now rewrite (read_each_reads_ok _ _ _ Hok).
Qed.

End Proofs.

(* ===================================================================== *)
(** ** Runs on sample worlds *)
(* ===================================================================== *)

#[local] Existing Instance Sample.docs.

(** C5.  The two kinds of [IOError] are as claimed, but the close that
    comes with them closes the connection only on a client without TLS.
    [read] calls [close], which closes the plain socket kept in [_sock];
    on a TLS client the stream in [sock] is the TLS wrapper, which that
    call leaves open.  A TLS client whose server shuts down before the
    header, or after a header announcing six bytes: [read] raises the
    [IOError] of each kind and has called [close], the connection is not
    closed, and a frame written afterwards goes out.  The same on a
    client without TLS: the connection is closed and the write is
    refused. *)
Theorem read_clean_close_leaves_tls_open :
  (fst (read (Sample.online true [] [])) = Raise IOError_NoSizeHeader /\
   trace (env (snd (read (Sample.online true [] []))))
   = trace (env (Sample.online true [] []))
     ++ [EvRecv 0%nat 4; EvClose 0%nat] /\
   is_closed 0%nat (env (snd (read (Sample.online true [] [])))) = false /\
   fst (write (Sample.b "<hello/>") (snd (read (Sample.online true [] []))))
   = Ok tt) /\
  (fst (read (Sample.online true [Segment (be32 10)] []))
   = Raise (IOError_NoData 6) /\
   trace (env (snd (read (Sample.online true [Segment (be32 10)] []))))
   = trace (env (Sample.online true [Segment (be32 10)] []))
     ++ [EvRecv 0%nat 4; EvRecv 0%nat 6; EvClose 0%nat] /\
   is_closed 0%nat
     (env (snd (read (Sample.online true [Segment (be32 10)] [])))) = false) /\
  (fst (read (Sample.online false [] [])) = Raise IOError_NoSizeHeader /\
   is_closed 0%nat (env (snd (read (Sample.online false [] [])))) = true /\
   fst (write (Sample.b "<hello/>") (snd (read (Sample.online false [] []))))
   = Raise (SocketError EBADF)).
Proof. repeat split; vm_compute; reflexivity. Qed.

(** A client without TLS whose server sends a header announcing six
    bytes of payload and then shuts down. *)
Lemma clean_close_outcome_witness :
  attached (self (Sample.online false [Segment (be32 10)] [])) 0%nat /\
  wrapped_as (self (Sample.online false [Segment (be32 10)] [])) 0%nat
    (env (Sample.online false [Segment (be32 10)] [])) /\
  fst (read (Sample.online false [Segment (be32 10)] []))
  = Raise (IOError_NoData 6) /\
  is_closed 0%nat
    (env (snd (read (Sample.online false [Segment (be32 10)] [])))) = true.
Proof.
  assert (A : attached (self (Sample.online false [Segment (be32 10)] [])) 0%nat)
    by (split; reflexivity).
  assert (W : wrapped_as (self (Sample.online false [Segment (be32 10)] []))
                0%nat (env (Sample.online false [Segment (be32 10)] [])))
    by reflexivity.
  assert (C : clean_close 0%nat
                (env (Sample.online false [Segment (be32 10)] []))
                (IOError_NoData (10 - 4))
                (snd (sock_recv 0%nat (10 - 4)
                   (snd (sock_recv 0%nat 4
                      (env (Sample.online false [Segment (be32 10)] [])))))))
    by (eapply close_at_payload; reflexivity).
  split; [exact A|]. split; [exact W|].
  destruct (clean_close_outcome _ _ _ _ A W C) as (E & _ & Hc & _).
  split; [now rewrite E | exact (Hc eq_refl)].
Defined.

(** C2 as stated does not hold.  A frame write that fails half-way
    (broken pipe) and a frame read cut by a connection reset both raise
    and leave the socket open. *)
Lemma io_error_leaves_socket_open :
  (fst (write (Sample.b "<hello/>") (Sample.online false [] [SendFails 3]))
   = Raise (SocketError EPIPE) /\
   is_closed 0%nat
     (env (snd (write (Sample.b "<hello/>")
                  (Sample.online false [] [SendFails 3])))) = false) /\
  (fst (read (Sample.online true [ConnReset] []))
   = Raise (SocketError ECONNRESET) /\
   is_closed 0%nat (env (snd (read (Sample.online true [ConnReset] []))))
   = false).
Proof. repeat split; reflexivity. Qed.

(** The amended statement on a run: the server of a client without TLS
    shuts down before the header; the read raises [IOError] and the
    connection is closed. *)
Lemma io_error_closes_only_on_clean_close_witness :
  attached (self (Sample.online false [] [])) 0%nat /\
  wrapped_as (self (Sample.online false [] [])) 0%nat
    (env (Sample.online false [] [])) /\
  read (Sample.online false [] [])
  = (Raise IOError_NoSizeHeader, snd (read (Sample.online false [] []))) /\
  is_closed 0%nat (env (snd (read (Sample.online false [] [])))) = true.
Proof.
  assert (A : attached (self (Sample.online false [] [])) 0%nat)
    by (split; reflexivity).
  assert (W : wrapped_as (self (Sample.online false [] [])) 0%nat
                (env (Sample.online false [] []))) by reflexivity.
  assert (R : read (Sample.online false [] [])
              = (Raise IOError_NoSizeHeader,
                 snd (read (Sample.online false [] []))))
    by (vm_compute; reflexivity).
  split; [exact A|]. split; [exact W|]. split; [exact R|].
  destruct (io_error_closes_only_on_clean_close _ _ A W) as [_ Hr].
  exact (Hr IOError_NoSizeHeader _ R eq_refl).
Defined.



(** C1.  [read] makes one receive call for the header and one for the
    payload and takes what each call returns, where a frame read has to
    go on receiving until the count is complete.  A two-byte payload
    whose frame arrives as five bytes and then one is returned cut to
    its first byte; when only two header bytes arrive first, the header
    does not unpack; and the frame of the empty payload is read as a
    stream shut down. *)
Theorem read_write_roundtrip_fails :
  Sample.loopback [] [] = Raise (IOError_NoData 0) /\
  Sample.loopback (Sample.b "ab") [5%nat] = Ok (Sample.b "a") /\
  Sample.loopback (Sample.b "ab") [2%nat] = Raise StructError.
Proof. repeat split; reflexivity. Qed.

(** The round trip on a run: [<hello/>] written by one client and read
    by another. *)
Lemma read_write_roundtrip_unfragmented_witness :
  attached (self Sample.sender) 0%nat /\
  wire_of 0%nat (env Sample.sender) = [] /\
  write (Sample.b "<hello/>") Sample.sender
  = (Ok tt, snd (write (Sample.b "<hello/>") Sample.sender)) /\
  Sample.b "<hello/>" <> [] /\
  attached (self (Sample.receiver (Sample.b "<hello/>"))) 0%nat /\
  live 0%nat (env (Sample.receiver (Sample.b "<hello/>"))) /\
  fst (read (Sample.receiver (Sample.b "<hello/>"))) = Ok (Sample.b "<hello/>").
Proof.
  assert (A1 : attached (self Sample.sender) 0%nat) by (split; reflexivity).
  assert (W0 : wire_of 0%nat (env Sample.sender) = []) by reflexivity.
  assert (W : write (Sample.b "<hello/>") Sample.sender
              = (Ok tt, snd (write (Sample.b "<hello/>") Sample.sender)))
    by reflexivity.
  assert (P : Sample.b "<hello/>" <> []) by discriminate.
  assert (A2 : attached (self (Sample.receiver (Sample.b "<hello/>"))) 0%nat)
    by (split; reflexivity).
  assert (L : live 0%nat (env (Sample.receiver (Sample.b "<hello/>")))).
  { eexists. split; [reflexivity|]. split; reflexivity. }
  repeat (split; [assumption|]).
  exact (proj1 (read_write_roundtrip_unfragmented _ _ _ _ _ _
                  A1 W0 W P A2 L (or_introl eq_refl))).
Defined.

(** Two rendered documents sent in one pipelined write. *)
Lemma pipeline_one_write_witness :
  write_many [DocStr (Sample.b "<a/>"); DocStr (Sample.b "<b/>")] Sample.sender
  = (Ok tt,
     snd (write_many [DocStr (Sample.b "<a/>"); DocStr (Sample.b "<b/>")]
            Sample.sender)) /\
  send_phase [DocStr (Sample.b "<a/>"); DocStr (Sample.b "<b/>")] true true
    Sample.sender
  = (Ok 2%nat,
     snd (write_many [DocStr (Sample.b "<a/>"); DocStr (Sample.b "<b/>")]
            Sample.sender)).
Proof.
  assert (W : write_many [DocStr (Sample.b "<a/>"); DocStr (Sample.b "<b/>")]
                Sample.sender
              = (Ok tt,
                 snd (write_many
                        [DocStr (Sample.b "<a/>"); DocStr (Sample.b "<b/>")]
                        Sample.sender))) by reflexivity.
  split; [exact W|].
  exact (proj1 (pipeline_one_write _ true _ _ W)).
Defined.

(** C3.  The pipelined path hands the documents to [write_many] as they
    are, where the path of single writes renders each with [str].  For
    a list holding one document object: with [pipeline] nothing is
    written, [sent] stays 0 ([TypeError] under [failfast]); without it
    the frame of the rendered document is written and [sent] is 1. *)
Theorem pipeline_skips_rendering :
  (fst (batchsend [@DocObj Sample.docs (Sample.b "<check/>")] false false true
          Sample.sender) = Ok (BatchSent 0) /\
   trace (env (snd (batchsend [@DocObj Sample.docs (Sample.b "<check/>")]
                      false false true Sample.sender)))
   = trace (env Sample.sender)) /\
  fst (batchsend [@DocObj Sample.docs (Sample.b "<check/>")] false true true
         Sample.sender) = Raise TypeError /\
  (fst (batchsend [@DocObj Sample.docs (Sample.b "<check/>")] false false false
          Sample.sender) = Ok (BatchSent 1) /\
   trace (env (snd (batchsend [@DocObj Sample.docs (Sample.b "<check/>")]
                      false false false Sample.sender)))
   = trace (env Sample.sender)
     ++ [EvSend 0%nat (frame (Sample.b "<check/>")) true]).
Proof. repeat split; reflexivity. Qed.

(** Three documents, the server takes the first write and breaks the
    pipe at the second. *)
Lemma batchsend_failfast_write_failure_witness :
  write (Sample.b "<a/>") (Sample.online false [] [SendAll; SendFails 0])
  = (Ok tt,
     snd (write (Sample.b "<a/>")
            (Sample.online false [] [SendAll; SendFails 0]))) /\
  fst (write (Sample.b "<b/>")
         (snd (write (Sample.b "<a/>")
                 (Sample.online false [] [SendAll; SendFails 0]))))
  = Raise (SocketError EPIPE) /\
  send_fails
    [DocStr (Sample.b "<a/>"); DocStr (Sample.b "<b/>");
     DocStr (Sample.b "<c/>")]
    (Sample.online false [] [SendAll; SendFails 0])
    false 1 (SocketError EPIPE)
    (snd (write (Sample.b "<b/>")
            (snd (write (Sample.b "<a/>")
                    (Sample.online false [] [SendAll; SendFails 0]))))) /\
  fst (batchsend [DocStr (Sample.b "<a/>"); DocStr (Sample.b "<b/>");
                  DocStr (Sample.b "<c/>")] true true false
         (Sample.online false [] [SendAll; SendFails 0]))
  = Raise (SocketError EPIPE) /\
  log (env (snd (batchsend [DocStr (Sample.b "<a/>"); DocStr (Sample.b "<b/>");
                            DocStr (Sample.b "<c/>")] true true false
                   (Sample.online false [] [SendAll; SendFails 0]))))
  = [LogFailedSend 1 3].
Proof.
  assert (WA : write (Sample.b "<a/>")
                 (Sample.online false [] [SendAll; SendFails 0])
               = (Ok tt,
                  snd (write (Sample.b "<a/>")
                         (Sample.online false [] [SendAll; SendFails 0]))))
    by reflexivity.
  assert (WB : write (Sample.b "<b/>")
                 (snd (write (Sample.b "<a/>")
                         (Sample.online false [] [SendAll; SendFails 0])))
               = (Raise (SocketError EPIPE),
                  snd (write (Sample.b "<b/>")
                         (snd (write (Sample.b "<a/>")
                                 (Sample.online false [] [SendAll; SendFails 0]))))))
    by reflexivity.
  assert (F : send_fails
                [DocStr (Sample.b "<a/>"); DocStr (Sample.b "<b/>");
                 DocStr (Sample.b "<c/>")]
                (Sample.online false [] [SendAll; SendFails 0])
                false 1 (SocketError EPIPE)
                (snd (write (Sample.b "<b/>")
                        (snd (write (Sample.b "<a/>")
                                (Sample.online false [] [SendAll; SendFails 0])))))).
  { apply (@plain_write_fails Sample.docs _ _ [DocStr (Sample.b "<a/>")]
             (DocStr (Sample.b "<b/>")) [DocStr (Sample.b "<c/>")]
             (snd (write (Sample.b "<a/>")
                     (Sample.online false [] [SendAll; SendFails 0]))));
      [reflexivity | | exact WB].
    apply (@writes_ok_cons Sample.docs (DocStr (Sample.b "<a/>")) [] _ _ _ WA).
    apply (@writes_ok_nil Sample.docs). }
  split; [exact WA|]. split; [now rewrite WB|]. split; [exact F|].
  destruct (batchsend_failfast_write_failure _ true _ _ _ _ _ F) as [E _].
  rewrite E. split; reflexivity.
Defined.

(** Three documents; the third write fails, so two were sent; one
    response arrives and the stream ends: two slots, the response and
    [None]. *)
Lemma batchsend_positional_witness :
  send_phase Sample.abc false false Sample.flaky
  = (Ok 2%nat, snd (send_phase Sample.abc false false Sample.flaky)) /\
  reads_ok (snd (send_phase Sample.abc false false Sample.flaky))
    [(true, Sample.b "+one")]
    (snd (read (snd (send_phase Sample.abc false false Sample.flaky)))) /\
  read_fails
    (snd (read (snd (send_phase Sample.abc false false Sample.flaky)))) /\
  fst (batchsend Sample.abc true false false Sample.flaky)
  = Ok (BatchOut [Some (true, Sample.b "+one"); None]).
Proof.
  assert (S1 : send_phase Sample.abc false false Sample.flaky
               = (Ok 2%nat, snd (send_phase Sample.abc false false Sample.flaky)))
    by (vm_compute; reflexivity).
  assert (R1 : reads_ok (snd (send_phase Sample.abc false false Sample.flaky))
                 [(true, Sample.b "+one")]
                 (snd (read (snd (send_phase Sample.abc false false
                                    Sample.flaky))))).
  { apply (@reads_ok_cons Sample.docs _ (Sample.b "+one") _
             (snd (read (snd (send_phase Sample.abc false false Sample.flaky)))));
      [vm_compute; reflexivity | reflexivity
      | apply (@reads_ok_nil Sample.docs)]. }
  assert (F : read_fails
                (snd (read (snd (send_phase Sample.abc false false
                                   Sample.flaky))))).
  { left. exists IOError_NoSizeHeader. vm_compute. reflexivity. }
  split; [exact S1|]. split; [exact R1|]. split; [exact F|].
  destruct (batchsend_positional Sample.abc false Sample.flaky 2%nat _ _ _
              S1 R1 (le_S _ _ (le_n _)) (fun _ => F)) as (_ & E & _).
  exact E.
Defined.

(** A first login that the server turns down, with [raise_on_fail]. *)
Lemma login_fresh_witness :
  sock (self Sample.newcomer) = None /\
  fst (login (Sample.b "id") (Sample.b "pw") true Sample.newcomer)
  = Raise (EppLoginError (false, Sample.b "-denied")) /\
  trace (env (snd (login (Sample.b "id") (Sample.b "pw") true Sample.newcomer)))
  = [EvConnect 0%nat "epp.example" 700; EvHandshake 0%nat;
     EvRecv 0%nat 4; EvRecv 0%nat 9; EvGetpeername 0%nat;
     EvSend 0%nat (frame (Sample.b "<login>id:pw")) true;
     EvRecv 0%nat 4; EvRecv 0%nat 7; EvGetpeername 0%nat].
Proof.
  assert (N : sock (self Sample.newcomer) = None) by reflexivity.
  split; [exact N|]. split; [|reflexivity].
  destruct (login_fresh (Sample.b "id") (Sample.b "pw") true
              Sample.newcomer N) as (_ & Hiff & _).
  apply (Hiff (false, Sample.b "-denied")).
  split; [reflexivity|]. split; [reflexivity|].
  exists (snd (greet Sample.newcomer)). split; reflexivity.
Defined.

(** A frame read that returns, on a run. *)
Lemma read_returns_bounded_witness :
  attached (self (Sample.receiver (Sample.b "<hello/>"))) 0%nat /\
  read (Sample.receiver (Sample.b "<hello/>"))
  = (Ok (Sample.b "<hello/>"),
     snd (read (Sample.receiver (Sample.b "<hello/>")))) /\
  Sample.b "<hello/>" <> [] /\
  is_closed 0%nat (env (snd (read (Sample.receiver (Sample.b "<hello/>")))))
  = false.
Proof.
  assert (A : attached (self (Sample.receiver (Sample.b "<hello/>"))) 0%nat)
    by (split; reflexivity).
  assert (R : read (Sample.receiver (Sample.b "<hello/>"))
              = (Ok (Sample.b "<hello/>"),
                 snd (read (Sample.receiver (Sample.b "<hello/>")))))
    by reflexivity.
  split; [exact A|]. split; [exact R|].
  destruct (read_returns_bounded _ _ _ _ A R) as (Hne & _ & _ & Hc).
  split; [exact Hne | exact Hc].
Defined.

(** A server that sends the frame of the empty payload. *)
Lemma read_header_without_payload_witness :
  attached (self (Sample.online false [Segment (be32 4)] [])) 0%nat /\
  wrapped_as (self (Sample.online false [Segment (be32 4)] [])) 0%nat
    (env (Sample.online false [Segment (be32 4)] [])) /\
  sock_recv 0%nat 4 (env (Sample.online false [Segment (be32 4)] []))
  = (inr (be32 4),
     snd (sock_recv 0%nat 4 (env (Sample.online false [Segment (be32 4)] [])))) /\
  struct_unpack_I (be32 4) = Some 4 /\
  4 <= 4 /\
  fst (read (Sample.online false [Segment (be32 4)] []))
  = Raise (IOError_NoData 0) /\
  is_closed 0%nat (env (snd (read (Sample.online false [Segment (be32 4)] []))))
  = true.
Proof.
  assert (A : attached (self (Sample.online false [Segment (be32 4)] [])) 0%nat)
    by (split; reflexivity).
  assert (W : wrapped_as (self (Sample.online false [Segment (be32 4)] []))
                0%nat (env (Sample.online false [Segment (be32 4)] [])))
    by reflexivity.
  assert (R : sock_recv 0%nat 4
                (env (Sample.online false [Segment (be32 4)] []))
              = (inr (be32 4),
                 snd (sock_recv 0%nat 4
                        (env (Sample.online false [Segment (be32 4)] [])))))
    by reflexivity.
  assert (U : struct_unpack_I (be32 4) = Some 4) by reflexivity.
  assert (L : 4 <= 4) by lia.
  split; [exact A|]. split; [exact W|]. split; [exact R|]. split; [exact U|].
  split; [exact L|].
  destruct (read_header_without_payload _ _ _ _ _ A W R U L) as [H4 _].
  destruct (H4 eq_refl) as [E Hc]. split; [now rewrite E | exact (Hc eq_refl)].
Defined.

(** A payload of 2^32 - 4 bytes is refused, and nothing is written. *)
Lemma write_refuses_long_payload_witness :
  attached (self Sample.sender) 0%nat /\
  2 ^ 32 <= 4 + len Sample.huge /\
  write Sample.huge Sample.sender = (Raise StructError, Sample.sender).
Proof.
  assert (A : attached (self Sample.sender) 0%nat) by (split; reflexivity).
  assert (L : 2 ^ 32 <= 4 + len Sample.huge).
  { unfold len, Sample.huge. rewrite repeat_length. lia. }
  split; [exact A|]. split; [exact L|].
  exact (proj2 (write_refuses_long_payload _ _ Sample.huge A) L).
Defined.

(** A second login on a connected client. *)
Lemma login_connected_witness :
  sock (self (Sample.online false [Segment (frame (Sample.b "+ok"))] []))
  = Some (RawSocket 0%nat) /\
  trace (env (snd (login (Sample.b "id") (Sample.b "pw") true
                     (Sample.online false [Segment (frame (Sample.b "+ok"))] []))))
  = trace (env (Sample.online false [Segment (frame (Sample.b "+ok"))] []))
    ++ [EvGetpeername 0%nat;
        EvSend 0%nat (frame (Sample.b "<login>id:pw")) true;
        EvRecv 0%nat 4; EvRecv 0%nat 3; EvGetpeername 0%nat] /\
  self (snd (login (Sample.b "id") (Sample.b "pw") true
               (Sample.online false [Segment (frame (Sample.b "+ok"))] [])))
  = self (Sample.online false [Segment (frame (Sample.b "+ok"))] []).
Proof.
  assert (S0 : sock (self (Sample.online false
                             [Segment (frame (Sample.b "+ok"))] []))
               = Some (RawSocket 0%nat)) by reflexivity.
  split; [exact S0|]. split; [reflexivity|].
  exact (proj1 (login_connected (Sample.b "id") (Sample.b "pw") true _ _ S0)).
Defined.

(** A TLS client connected to a server connects again: the peer name
    is the address of the server, not the host name given, and the
    connection that the client had before is closed. *)
Lemma connect_success_witness :
  connect "epp.example" None Sample.regular
  = (Ok tt, snd (connect "epp.example" None Sample.regular)) /\
  fst (remote_info (snd (connect "epp.example" None Sample.regular)))
  = Ok ("192.0.2.7"%string, 700) /\
  is_wrapped 1%nat (env (snd (connect "epp.example" None Sample.regular)))
  = true /\
  attached (self Sample.regular) 0%nat /\
  wrapped_as (self Sample.regular) 0%nat (env Sample.regular) /\
  (0 < length (socks (env Sample.regular)))%nat /\
  is_closed 0%nat (env Sample.regular) = false /\
  is_closed 0%nat (env (snd (connect "epp.example" None Sample.regular)))
  = true.
Proof.
  assert (E : connect "epp.example" None Sample.regular
              = (Ok tt, snd (connect "epp.example" None Sample.regular)))
    by (vm_compute; reflexivity).
  assert (A : attached (self Sample.regular) 0%nat) by (split; reflexivity).
  assert (W : wrapped_as (self Sample.regular) 0%nat (env Sample.regular))
    by reflexivity.
  assert (L : (0 < length (socks (env Sample.regular)))%nat)
    by (vm_compute; lia).
  split; [exact E|].
  destruct (connect_success _ _ _ _ E)
    as (_ & _ & Hw & _ & _ & (pr & rest & Hn & _ & Hr & _) & Hold & _).
  split; [|split; [exact Hw|]].
  - rewrite Hr. injection Hn as <- _. reflexivity.
  - split; [exact A|]. split; [exact W|]. split; [exact L|].
    split; [reflexivity|]. exact (Hold 0%nat A W L).
Defined.

(** The certificate does not match: the connection is left up. *)
Lemma connect_hostname_mismatch_witness :
  fst (connect "epp.example" None Sample.deceived) = Raise EppConnectionError /\
  sock (self (snd (connect "epp.example" None Sample.deceived)))
  = Some (SSLSocket 0%nat) /\
  live 0%nat (env (snd (connect "epp.example" None Sample.deceived))).
Proof.
  assert (E : fst (connect "epp.example" None Sample.deceived)
              = Raise EppConnectionError) by reflexivity.
  split; [exact E|].
  destruct (connect_hostname_mismatch "epp.example" None Sample.deceived
              (Sample.b "id") (Sample.b "pw") true E)
    as (_ & _ & Hs & _ & Hl & _).
  split; [exact Hs | exact Hl].
Defined.

(** Nobody listens: the connect is refused, the login after it does not
    try again. *)
Lemma connect_refused_witness :
  fst (connect "epp.example" None Sample.lonely)
  = Raise (SocketError ECONNREFUSED) /\
  fst (login (Sample.b "id") (Sample.b "pw") true
         (snd (connect "epp.example" None Sample.lonely)))
  = Raise (SocketError ENOTCONN).
Proof.
  assert (E : fst (connect "epp.example" None Sample.lonely)
              = Raise (SocketError ECONNREFUSED)) by reflexivity.
  split; [exact E|].
  destruct (connect_refused "epp.example" None Sample.lonely
              (Sample.b "id") (Sample.b "pw") true E) as (_ & _ & Hl & _).
  now rewrite Hl.
Defined.

(** A client just made. *)
Lemma never_connected_witness :
  sock (self Sample.lonely) = None /\
  hello Sample.lonely = (Raise AttributeError, Sample.lonely) /\
  fst (batchsend Sample.abc true false false Sample.lonely) = Ok (BatchOut []).
Proof.
  assert (N : sock (self Sample.lonely) = None) by reflexivity.
  split; [exact N|].
  destruct (never_connected Sample.lonely N) as (_ & Hh & _ & _ & _ & _ & Hb).
  split; [exact Hh|].
  assert (NE : Sample.abc <> []) by (unfold Sample.abc; discriminate).
  destruct (Hb Sample.abc true false (or_intror NE)) as [E _].
  rewrite E. reflexivity.
Defined.

(** One exchange with a server that answers. *)
Lemma send_exchange_witness :
  attached (self (Sample.online false [Segment (frame (Sample.b "+ok"))] []))
    0%nat /\
  send (Sample.b "<check/>")
    (Sample.online false [Segment (frame (Sample.b "+ok"))] [])
  = (Ok (true, Sample.b "+ok"),
     snd (send (Sample.b "<check/>")
            (Sample.online false [Segment (frame (Sample.b "+ok"))] []))) /\
  self (snd (send (Sample.b "<check/>")
               (Sample.online false [Segment (frame (Sample.b "+ok"))] [])))
  = self (Sample.online false [Segment (frame (Sample.b "+ok"))] []).
Proof.
  assert (A : attached
                (self (Sample.online false
                         [Segment (frame (Sample.b "+ok"))] [])) 0%nat)
    by (split; reflexivity).
  assert (E : send (Sample.b "<check/>")
                (Sample.online false [Segment (frame (Sample.b "+ok"))] [])
              = (Ok (true, Sample.b "+ok"),
                 snd (send (Sample.b "<check/>")
                        (Sample.online false
                           [Segment (frame (Sample.b "+ok"))] []))))
    by (vm_compute; reflexivity).
  split; [exact A|]. split; [exact E|].
  destruct (send_exchange _ _ _ _ _ A E) as (r & r0 & n & p & p' & Hx).
  exact (proj2 (proj2 (proj2 (proj2 Hx)))).
Defined.

(** The greeting of a first login that is then refused. *)
Lemma login_stores_greeting_witness :
  sock (self Sample.newcomer) = None /\
  connect "epp.example" (Some 700) Sample.newcomer
  = (Ok tt, snd (connect "epp.example" (Some 700) Sample.newcomer)) /\
  read (snd (connect "epp.example" (Some 700) Sample.newcomer))
  = (Ok (Sample.b "+greeting"),
     snd (read (snd (connect "epp.example" (Some 700) Sample.newcomer)))) /\
  from_xml (Sample.b "+greeting") = Some (true, Sample.b "+greeting") /\
  greeting (self (snd (login (Sample.b "id") (Sample.b "pw") false
                         Sample.newcomer)))
  = Some (true, Sample.b "+greeting").
Proof.
  assert (N : sock (self Sample.newcomer) = None) by reflexivity.
  assert (C : connect (host (self Sample.newcomer))
                (Some (port (self Sample.newcomer))) Sample.newcomer
              = (Ok tt, snd (connect "epp.example" (Some 700) Sample.newcomer)))
    by reflexivity.
  assert (R : read (snd (connect "epp.example" (Some 700) Sample.newcomer))
              = (Ok (Sample.b "+greeting"),
                 snd (read (snd (connect "epp.example" (Some 700)
                                   Sample.newcomer)))))
    by reflexivity.
  assert (X : from_xml (Sample.b "+greeting")
              = Some (true, Sample.b "+greeting")) by reflexivity.
  split; [exact N|]. split; [exact C|]. split; [exact R|]. split; [exact X|].
  exact (proj2 (login_stores_greeting (Sample.b "id") (Sample.b "pw") false
                  _ _ _ _ _ N C R X)).
Defined.

(** The three split writes of [<hello/>]. *)
Lemma split_writes_same_wire_witness :
  sock (self Sample.sender) = Some (RawSocket 0%nat) /\
  wire_of 0%nat (env (snd (write_split (Sample.b "<hello/>") Sample.sender)))
  = wire_of 0%nat (env Sample.sender) ++ frame (Sample.b "<hello/>").
Proof.
  assert (S0 : sock (self Sample.sender) = Some (RawSocket 0%nat))
    by reflexivity.
  split; [exact S0|].
  destruct (split_writes_same_wire (Sample.b "<hello/>") _ _ S0) as (H2 & _).
  exact (proj1 (H2 (snd (write_split (Sample.b "<hello/>") Sample.sender))
                  eq_refl)).
Defined.

(** Two rendered documents, pipelined. *)
Lemma pipelined_and_plain_agree_witness :
  attached (self Sample.sender) 0%nat /\
  wire_of 0%nat
    (env (snd (write_many [DocStr (Sample.b "<a/>"); DocStr (Sample.b "<b/>")]
                 Sample.sender)))
  = wire_of 0%nat (env Sample.sender)
    ++ frames [DocStr (Sample.b "<a/>"); DocStr (Sample.b "<b/>")].
Proof.
  assert (A : attached (self Sample.sender) 0%nat) by (split; reflexivity).
  split; [exact A|].
  destruct (pipelined_and_plain_agree
              [DocStr (Sample.b "<a/>"); DocStr (Sample.b "<b/>")] _ _ A)
    as (Hp & _).
  exact (proj2 (Hp (snd (write_many
                           [DocStr (Sample.b "<a/>"); DocStr (Sample.b "<b/>")]
                           Sample.sender)) eq_refl)).
Defined.

(** A payload of two bytes of which one comes with the header. *)
Lemma read_short_payload_witness :
  attached (self Sample.halved) 0%nat /\
  socks (env Sample.halved) !! 0%nat
  = Some (connected_to false
            (Sample.server [Segment (be32 6 ++ Sample.b "a");
                            Segment (Sample.b "b")] [])) /\
  Sample.b "a" <> [] /\ len (Sample.b "a") <= 2 /\ 4 + 2 < 2 ^ 32 /\
  fst (read Sample.halved) = Ok (Sample.b "a") /\
  inbox_of 0%nat (env (snd (read Sample.halved))) = [Segment (Sample.b "b")].
Proof.
  assert (A : attached (self Sample.halved) 0%nat) by (split; reflexivity).
  assert (S0 : socks (env Sample.halved) !! 0%nat
               = Some (connected_to false
                         (Sample.server [Segment (be32 6 ++ Sample.b "a");
                                         Segment (Sample.b "b")] [])))
    by reflexivity.
  assert (P : Sample.b "a" <> []) by discriminate.
  assert (L : len (Sample.b "a") <= 2) by (unfold len; simpl; lia).
  assert (R : 4 + 2 < 2 ^ 32) by lia.
  split; [exact A|]. split; [exact S0|]. split; [exact P|].
  split; [exact L|]. split; [exact R|].
  exact (read_short_payload Sample.halved 0%nat _ 2 (Sample.b "a")
           [Segment (Sample.b "b")] A S0 eq_refl eq_refl eq_refl P L R).
Defined.

(** Three answers owed, the second does not parse: the third stays on
    the connection. *)
Lemma recv_phase_stops_at_failure_witness :
  reads_ok Sample.garbled [(true, Sample.b "+one")]
    (snd (read Sample.garbled)) /\
  read_fails (snd (read Sample.garbled)) /\
  fst (recv_phase 3 Sample.garbled)
  = Ok [Some (true, Sample.b "+one"); None; None] /\
  inbox_of 0%nat (env (snd (recv_phase 3 Sample.garbled)))
  = [Segment (frame (Sample.b "+three"))].
Proof.
  assert (R1 : reads_ok Sample.garbled [(true, Sample.b "+one")]
                 (snd (read Sample.garbled))).
  { apply (@reads_ok_cons Sample.docs _ (Sample.b "+one") _
             (snd (read Sample.garbled)));
      [vm_compute; reflexivity | reflexivity
      | apply (@reads_ok_nil Sample.docs)]. }
  assert (F : read_fails (snd (read Sample.garbled))).
  { right. exists (Sample.b "?bad").
    split; [vm_compute; reflexivity | reflexivity]. }
  split; [exact R1|]. split; [exact F|].
  destruct (recv_phase_stops_at_failure 3 _ _ _ R1) as [Hstop _].
  rewrite (Hstop ltac:(simpl; lia) F).
  split; [reflexivity | vm_compute; reflexivity].
Defined.
